(** * lspd: the LSP multiplexer daemon

    A shallow embedding of the message framer in its two versions
    ([src/lsp/framing.ts]), the pull-to-push diagnostics bridge
    ([src/daemon/diagnosticsBridge.ts]), the server specs and their
    registry ([src/servers/*.ts]), the mux core ([MuxState] of
    [src/daemon/daemon.ts]) with its buffered writers and its backpressure
    flags, and the parsers of the command lines ([src/main.ts],
    [src/cli/*.ts]), followed by the properties of the specification that
    are stated about them and by further properties of the code.

    Conventions.
    - A JSON value is a [json]; a message ([JsonRpcMessage], a JS object) is
      the list of its own properties in insertion order.  [undefined] is
      [None] in an [option json].
    - JSON numbers are carried as integers ([Z]): every identifier the mux
      mints is an integer, and a non-integral identifier misses every table
      exactly as an unregistered integer does.
    - Writers, sockets and backpressure flags are not part of the routing
      state; what a handler writes is returned as a list of [output]s, in
      the order of the writes.  The module [Backpressure] puts the routing
      state together with the writers and the flags. *)

From Stdlib Require Import ZArith String List Ascii Lia.
From Stdlib Require Import DecimalString DecimalNat DecimalZ.
From Stdlib.Strings Require Import Byte.
From stdpp Require Import gmap strings list fin_maps.

Local Set Warnings "-register-all".
Local Open Scope string_scope.
Local Open Scope list_scope.
Local Open Scope Z_scope.

(* ================================================================== *)
(** ** JSON values and the JavaScript operations the code applies to them *)
(* ================================================================== *)

Inductive json : Type :=
| JNull
| JBool (b : bool)
| JNum (n : Z)
| JStr (s : string)
| JArr (items : list json)
| JObj (fields : list (string * json)).

(** [type JsonRpcMessage = Record<string, unknown>] *)
Abbreviation JsonRpcMessage := (list (string * json)).

(** [o.k] on an object: the own property, or [undefined]. *)
Fixpoint field (k : string) (o : JsonRpcMessage) : option json :=
  match o with
  | [] => None
  | (k', v) :: rest => if String.eqb k k' then Some v else field k rest
  end.

(** [{ ...o, k: v }]: an existing key keeps its place, a new one goes last. *)
Fixpoint set_field (k : string) (v : json) (o : JsonRpcMessage) : JsonRpcMessage :=
  match o with
  | [] => [(k, v)]
  | (k', v') :: rest =>
      if String.eqb k k' then (k', v) :: rest else (k', v') :: set_field k v rest
  end.

(** [x == null]: [undefined] or [null]. *)
Definition nullish (v : option json) : bool :=
  match v with
  | None | Some JNull => true
  | Some _ => false
  end.

(** The value when [x != null]. *)
Definition nonnull (v : option json) : option json :=
  match v with
  | None | Some JNull => None
  | Some j => Some j
  end.

(** [v?.k] (also [v.k] when [v] is known not to be nullish).  None of the
    keys the code reads is a property of a string, number, boolean or
    array, so only objects answer. *)
Definition prop (k : string) (v : option json) : option json :=
  match v with
  | Some (JObj o) => field k o
  | _ => None
  end.

(** JavaScript truthiness, as in [if (x)], [!x] and [Boolean(x)]. *)
Definition truthy (v : option json) : bool :=
  match v with
  | None | Some JNull => false
  | Some (JBool b) => b
  | Some (JNum n) => negb (n =? 0)
  | Some (JStr s) => negb (String.eqb s "")
  | Some (JArr _) | Some (JObj _) => true
  end.

Definition Z_to_string (n : Z) : string := NilZero.string_of_int (Z.to_int n).

Fixpoint join_comma (l : list string) : string :=
  match l with
  | [] => ""
  | [x] => x
  | x :: rest => (x ++ "," ++ join_comma rest)%string
  end.

(** [String(v)]: arrays join their elements with commas, [null] elements
    printing as the empty string. *)
Fixpoint js_String (v : json) : string :=
  match v with
  | JNull => "null"
  | JBool true => "true"
  | JBool false => "false"
  | JNum n => Z_to_string n
  | JStr s => s
  | JArr l =>
      join_comma
        ((fix elems (l : list json) : list string :=
            match l with
            | [] => []
            | JNull :: r => "" :: elems r
            | x :: r => js_String x :: elems r
            end) l)
  | JObj _ => "[object Object]"
  end.

(** [Array.isArray(v) ? v : undefined] *)
Definition as_array (v : option json) : option (list json) :=
  match v with
  | Some (JArr l) => Some l
  | _ => None
  end.

Fixpoint string_chars (s : string) : list json :=
  match s with
  | EmptyString => []
  | String c r => JStr (String c EmptyString) :: string_chars r
  end.

Fixpoint indexed (i : nat) (l : list json) : JsonRpcMessage :=
  match l with
  | [] => []
  | x :: r => (Z_to_string (Z.of_nat i), x) :: indexed (S i) r
  end.

(** The own enumerable properties [{ ...v }] copies. *)
Definition spread (v : json) : JsonRpcMessage :=
  match v with
  | JObj o => o
  | JArr l => indexed 0 l
  | JStr s => indexed 0 (string_chars s)
  | _ => []
  end.

(** An object literal some of whose values may be [undefined]: on the wire
    ([JSON.stringify] in [encodeMessage]) such properties are absent. *)
Fixpoint wire (o : list (string * option json)) : JsonRpcMessage :=
  match o with
  | [] => []
  | (k, Some v) :: rest => (k, v) :: wire rest
  | (_, None) :: rest => wire rest
  end.

(* ================================================================== *)
(** ** Server specs ([src/servers/types.ts], [tsgo.ts], [oxlint.ts]) *)
(* ================================================================== *)

Inductive DiagnosticMode := passthrough | pullToPushBridge.

(** [DiagnosticsSpec], which the daemon also passes to the bridge as its
    [DiagnosticsBridgeConfig]. *)
Record DiagnosticsSpec := {
  mode : DiagnosticMode;
  debounceMs : option Z;
  buildRequest : option (string -> JsonRpcMessage)
}.

(** [ServerSpec]; the binary-resolution descriptor is not used by the mux. *)
Record ServerSpec := {
  name : string;
  aliases : list string;
  diagnostics : option DiagnosticsSpec;
  prepareInitialize : option (JsonRpcMessage -> JsonRpcMessage)
}.

(** [x ?? {}] *)
Definition or_empty (v : option json) : json :=
  match nonnull v with
  | Some j => j
  | None => JObj []
  end.

Definition injectPullDiagnostics (msg : JsonRpcMessage) : JsonRpcMessage :=
  let params := or_empty (field "params" msg) in
  let caps := or_empty (prop "capabilities" (Some params)) in
  let textDocument := or_empty (prop "textDocument" (Some caps)) in
  if truthy (prop "diagnostic" (Some textDocument)) then msg
  else
    set_field "params"
      (JObj (set_field "capabilities"
         (JObj (set_field "textDocument"
            (JObj (set_field "diagnostic"
               (JObj [("dynamicRegistration", JBool false)])
               (spread textDocument)))
            (spread caps)))
         (spread params)))
      msg.

(** The request both the bridge's default and the tsgo spec build. *)
Definition pullDiagnosticsRequest (uri : string) : JsonRpcMessage :=
  [ ("jsonrpc", JStr "2.0");
    ("method", JStr "textDocument/diagnostic");
    ("params", JObj [ ("textDocument", JObj [("uri", JStr uri)]);
                      ("identifier", JNull);
                      ("previousResultId", JNull) ]) ].

Definition tsgoSpec : ServerSpec := {|
  name := "tsgo";
  aliases := ["typescript-go"];
  diagnostics := Some {| mode := pullToPushBridge;
                         debounceMs := Some 150;
                         buildRequest := Some pullDiagnosticsRequest |};
  prepareInitialize := Some injectPullDiagnostics
|}.

Definition oxlintSpec : ServerSpec := {|
  name := "oxlint";
  aliases := [];
  diagnostics := Some {| mode := passthrough;
                         debounceMs := None;
                         buildRequest := None |};
  prepareInitialize := None
|}.

(* ================================================================== *)
(** ** The diagnostics bridge ([src/daemon/diagnosticsBridge.ts]) *)
(* ================================================================== *)

(** URIs are strings, as the source declares them ([uri: string]).  The
    debounce map holds one armed timer per URI, so it is the set of URIs
    whose timer is armed; the callbacks [sendRequest], [publish] and
    [hasNonPullClients] belong to the mux: a bridge method receives the
    current answer of [hasNonPullClients] and returns the call it makes. *)
Module DiagnosticsBridge.

Record t := {
  cfg : DiagnosticsSpec;
  diagnosticDebounce : gset string;
  diagnosticsInFlight : gset string;
  lastPublishedDiagnostics : gmap string (list json);
  pendingDiagnosticsAfterInit : list string;
  initDone : bool
}.

Inductive call :=
| sendRequest (uri : string) (msg : JsonRpcMessage)
| publish (uri : string) (diagnostics : list json).

Definition new (c : DiagnosticsSpec) : t := {|
  cfg := c;
  diagnosticDebounce := ∅;
  diagnosticsInFlight := ∅;
  lastPublishedDiagnostics := ∅;
  pendingDiagnosticsAfterInit := [];
  initDone := false
|}.

(** [Set.prototype.add] on an insertion-ordered set. *)
Definition set_add (x : string) (l : list string) : list string :=
  if bool_decide (x ∈ l) then l else l ++ [x].

Definition set_delete (x : string) (l : list string) : list string :=
  filter (fun y => y <> x) l.

Definition schedule (hasNonPullClients : bool) (uri : string) (b : t) : t :=
  if negb hasNonPullClients then b
  else if negb (initDone b) then
    {| cfg := cfg b;
       diagnosticDebounce := diagnosticDebounce b;
       diagnosticsInFlight := diagnosticsInFlight b;
       lastPublishedDiagnostics := lastPublishedDiagnostics b;
       pendingDiagnosticsAfterInit := set_add uri (pendingDiagnosticsAfterInit b);
       initDone := initDone b |}
  else
    {| cfg := cfg b;
       diagnosticDebounce := {[uri]} ∪ diagnosticDebounce b;
       diagnosticsInFlight := diagnosticsInFlight b;
       lastPublishedDiagnostics := lastPublishedDiagnostics b;
       pendingDiagnosticsAfterInit := pendingDiagnosticsAfterInit b;
       initDone := initDone b |}.

Definition markInitDone (hasNonPullClients : bool) (b : t) : t :=
  let queued := pendingDiagnosticsAfterInit b in
  fold_left (fun acc uri => schedule hasNonPullClients uri acc) queued
    {| cfg := cfg b;
       diagnosticDebounce := diagnosticDebounce b;
       diagnosticsInFlight := diagnosticsInFlight b;
       lastPublishedDiagnostics := lastPublishedDiagnostics b;
       pendingDiagnosticsAfterInit := [];
       initDone := true |}.

Definition onDidClose (uri : string) (b : t) : t :=
  {| cfg := cfg b;
     diagnosticDebounce := diagnosticDebounce b ∖ {[uri]};
     diagnosticsInFlight := diagnosticsInFlight b ∖ {[uri]};
     lastPublishedDiagnostics := delete uri (lastPublishedDiagnostics b);
     pendingDiagnosticsAfterInit := set_delete uri (pendingDiagnosticsAfterInit b);
     initDone := initDone b |}.

Definition onFileEvent (hasNonPullClients : bool) (method uri : string) (b : t) : t :=
  if negb (String.eqb method "textDocument/didOpen")
     && negb (String.eqb method "textDocument/didChange")
     && negb (String.eqb method "textDocument/didSave")
  then b
  else schedule hasNonPullClients uri b.

Definition request (hasNonPullClients : bool) (uri : string) (b : t)
  : t * option call :=
  if bool_decide (uri ∈ diagnosticsInFlight b) then (b, None)
  else if negb hasNonPullClients then (b, None)
  else
    let msg := match buildRequest (cfg b) with
               | Some build => build uri
               | None => pullDiagnosticsRequest uri
               end in
    ({| cfg := cfg b;
        diagnosticDebounce := diagnosticDebounce b;
        diagnosticsInFlight := {[uri]} ∪ diagnosticsInFlight b;
        lastPublishedDiagnostics := lastPublishedDiagnostics b;
        pendingDiagnosticsAfterInit := pendingDiagnosticsAfterInit b;
        initDone := initDone b |},
     Some (sendRequest uri msg)).

(** The body of the debounce timer armed by [schedule]; a timer that was
    cleared or has already fired does not run. *)
Definition onDebounceTimer (hasNonPullClients : bool) (uri : string) (b : t)
  : t * option call :=
  if bool_decide (uri ∈ diagnosticDebounce b) then
    request hasNonPullClients uri
      {| cfg := cfg b;
         diagnosticDebounce := diagnosticDebounce b ∖ {[uri]};
         diagnosticsInFlight := diagnosticsInFlight b;
         lastPublishedDiagnostics := lastPublishedDiagnostics b;
         pendingDiagnosticsAfterInit := pendingDiagnosticsAfterInit b;
         initDone := initDone b |}
  else (b, None).

Definition is_kind (k : string) (result : option json) : bool :=
  match prop "kind" result with
  | Some (JStr s) => String.eqb s k
  | _ => false
  end.

(** The [diagnostics] that [onServerResponse] computes. *)
Definition diagnosticsOf (uri : string) (msg : JsonRpcMessage) (b : t) : list json :=
  let result := field "result" msg in
  match is_kind "full" result, as_array (prop "items" result) with
  | true, Some items => items
  | _, _ =>
      if is_kind "unchanged" result then
        match lastPublishedDiagnostics b !! uri with
        | Some items => items
        | None => []
        end
      else
        match as_array (prop "items" result) with
        | Some items => items
        | None => []
        end
  end.

Definition onServerResponse (hasNonPullClients : bool) (uri : string)
    (msg : JsonRpcMessage) (b : t) : t * option call :=
  let diagnostics := diagnosticsOf uri msg b in
  ({| cfg := cfg b;
      diagnosticDebounce := diagnosticDebounce b;
      diagnosticsInFlight := diagnosticsInFlight b ∖ {[uri]};
      lastPublishedDiagnostics := <[uri := diagnostics]> (lastPublishedDiagnostics b);
      pendingDiagnosticsAfterInit := pendingDiagnosticsAfterInit b;
      initDone := initDone b |},
   if negb hasNonPullClients then None else Some (publish uri diagnostics)).

End DiagnosticsBridge.

(* ================================================================== *)
(** ** The mux core ([MuxState], [src/daemon/daemon.ts]) *)
(* ================================================================== *)

(** [type JsonRpcId = string | number]; the value is kept as the JSON it
    came as. *)
Abbreviation JsonRpcId := json.

Record CachedInit := {
  result : option json;
  error : option json
}.

Inductive InitState :=
| not_started
| in_progress (primaryClientId : Z)
| init_done (response : CachedInit).

Record PendingRequest := {
  clientId : Z;
  originalId : JsonRpcId
}.

(** [kind] is always ["bridge_pull_diagnostics"]. *)
Record PendingInternalRequest := {
  uri : string
}.

Record PendingServerRequest := {
  serverId : JsonRpcId
}.

(** What the mux writes: [writeToServer(msg)] and, for a connection of the
    client map, [client.write(msg)]. *)
Inductive output :=
| ToServer (msg : JsonRpcMessage)
| ToClient (client : Z) (msg : JsonRpcMessage).

(** [clients] is the key sequence of the insertion-ordered [Map] of
    connections. *)
Record MuxState := {
  spec : ServerSpec;
  nextClientId : Z;
  clients : list Z;
  primaryClientId : option Z;
  nextServerRequestId : Z;
  pendingClientRequests : gmap Z PendingRequest;
  pendingInternalRequests : gmap Z PendingInternalRequest;
  clientSupportsPullDiagnostics : gmap Z bool;
  diagnosticsBridge : option DiagnosticsBridge.t;
  nextForwardedServerReqId : Z;
  pendingServerRequests : gmap Z PendingServerRequest;
  init : InitState;
  queuedInitialize : list (Z * JsonRpcId)
}.

Definition with_clients (f : MuxState -> Z * list Z * option Z * gmap Z bool)
    (s : MuxState) : MuxState :=
  let '(n, cs, p, caps) := f s in
  {| spec := spec s; nextClientId := n; clients := cs; primaryClientId := p;
     nextServerRequestId := nextServerRequestId s;
     pendingClientRequests := pendingClientRequests s;
     pendingInternalRequests := pendingInternalRequests s;
     clientSupportsPullDiagnostics := caps;
     diagnosticsBridge := diagnosticsBridge s;
     nextForwardedServerReqId := nextForwardedServerReqId s;
     pendingServerRequests := pendingServerRequests s;
     init := init s; queuedInitialize := queuedInitialize s |}.

Definition set_primaryClientId (p : option Z) (s : MuxState) : MuxState :=
  with_clients (fun s => (nextClientId s, clients s, p, clientSupportsPullDiagnostics s)) s.

Definition set_clientSupportsPullDiagnostics (m : gmap Z bool) (s : MuxState) : MuxState :=
  with_clients (fun s => (nextClientId s, clients s, primaryClientId s, m)) s.

Definition set_nextServerRequestId (n : Z) (s : MuxState) : MuxState :=
  {| spec := spec s; nextClientId := nextClientId s; clients := clients s;
     primaryClientId := primaryClientId s;
     nextServerRequestId := n;
     pendingClientRequests := pendingClientRequests s;
     pendingInternalRequests := pendingInternalRequests s;
     clientSupportsPullDiagnostics := clientSupportsPullDiagnostics s;
     diagnosticsBridge := diagnosticsBridge s;
     nextForwardedServerReqId := nextForwardedServerReqId s;
     pendingServerRequests := pendingServerRequests s;
     init := init s; queuedInitialize := queuedInitialize s |}.

Definition set_pendingClientRequests (m : gmap Z PendingRequest) (s : MuxState) : MuxState :=
  {| spec := spec s; nextClientId := nextClientId s; clients := clients s;
     primaryClientId := primaryClientId s;
     nextServerRequestId := nextServerRequestId s;
     pendingClientRequests := m;
     pendingInternalRequests := pendingInternalRequests s;
     clientSupportsPullDiagnostics := clientSupportsPullDiagnostics s;
     diagnosticsBridge := diagnosticsBridge s;
     nextForwardedServerReqId := nextForwardedServerReqId s;
     pendingServerRequests := pendingServerRequests s;
     init := init s; queuedInitialize := queuedInitialize s |}.

Definition set_pendingInternalRequests (m : gmap Z PendingInternalRequest) (s : MuxState)
  : MuxState :=
  {| spec := spec s; nextClientId := nextClientId s; clients := clients s;
     primaryClientId := primaryClientId s;
     nextServerRequestId := nextServerRequestId s;
     pendingClientRequests := pendingClientRequests s;
     pendingInternalRequests := m;
     clientSupportsPullDiagnostics := clientSupportsPullDiagnostics s;
     diagnosticsBridge := diagnosticsBridge s;
     nextForwardedServerReqId := nextForwardedServerReqId s;
     pendingServerRequests := pendingServerRequests s;
     init := init s; queuedInitialize := queuedInitialize s |}.

Definition set_diagnosticsBridge (b : option DiagnosticsBridge.t) (s : MuxState) : MuxState :=
  {| spec := spec s; nextClientId := nextClientId s; clients := clients s;
     primaryClientId := primaryClientId s;
     nextServerRequestId := nextServerRequestId s;
     pendingClientRequests := pendingClientRequests s;
     pendingInternalRequests := pendingInternalRequests s;
     clientSupportsPullDiagnostics := clientSupportsPullDiagnostics s;
     diagnosticsBridge := b;
     nextForwardedServerReqId := nextForwardedServerReqId s;
     pendingServerRequests := pendingServerRequests s;
     init := init s; queuedInitialize := queuedInitialize s |}.

Definition set_forwarded (n : Z) (m : gmap Z PendingServerRequest) (s : MuxState) : MuxState :=
  {| spec := spec s; nextClientId := nextClientId s; clients := clients s;
     primaryClientId := primaryClientId s;
     nextServerRequestId := nextServerRequestId s;
     pendingClientRequests := pendingClientRequests s;
     pendingInternalRequests := pendingInternalRequests s;
     clientSupportsPullDiagnostics := clientSupportsPullDiagnostics s;
     diagnosticsBridge := diagnosticsBridge s;
     nextForwardedServerReqId := n;
     pendingServerRequests := m;
     init := init s; queuedInitialize := queuedInitialize s |}.

Definition set_init (i : InitState) (s : MuxState) : MuxState :=
  {| spec := spec s; nextClientId := nextClientId s; clients := clients s;
     primaryClientId := primaryClientId s;
     nextServerRequestId := nextServerRequestId s;
     pendingClientRequests := pendingClientRequests s;
     pendingInternalRequests := pendingInternalRequests s;
     clientSupportsPullDiagnostics := clientSupportsPullDiagnostics s;
     diagnosticsBridge := diagnosticsBridge s;
     nextForwardedServerReqId := nextForwardedServerReqId s;
     pendingServerRequests := pendingServerRequests s;
     init := i; queuedInitialize := queuedInitialize s |}.

Definition set_queuedInitialize (q : list (Z * JsonRpcId)) (s : MuxState) : MuxState :=
  {| spec := spec s; nextClientId := nextClientId s; clients := clients s;
     primaryClientId := primaryClientId s;
     nextServerRequestId := nextServerRequestId s;
     pendingClientRequests := pendingClientRequests s;
     pendingInternalRequests := pendingInternalRequests s;
     clientSupportsPullDiagnostics := clientSupportsPullDiagnostics s;
     diagnosticsBridge := diagnosticsBridge s;
     nextForwardedServerReqId := nextForwardedServerReqId s;
     pendingServerRequests := pendingServerRequests s;
     init := init s; queuedInitialize := q |}.

(** [this.spec.diagnostics?.mode === "pullToPushBridge"] *)
Definition usesDiagnosticsBridge (s : MuxState) : bool :=
  match diagnostics (spec s) with
  | Some {| mode := pullToPushBridge |} => true
  | _ => false
  end.

(** The constructor. *)
Definition MuxState_new (sp : ServerSpec) : MuxState := {|
  spec := sp;
  nextClientId := 1;
  clients := [];
  primaryClientId := None;
  nextServerRequestId := 1;
  pendingClientRequests := ∅;
  pendingInternalRequests := ∅;
  clientSupportsPullDiagnostics := ∅;
  diagnosticsBridge :=
    match diagnostics sp with
    | Some ({| mode := pullToPushBridge |} as c) => Some (DiagnosticsBridge.new c)
    | _ => None
    end;
  nextForwardedServerReqId := -1;
  pendingServerRequests := ∅;
  init := not_started;
  queuedInitialize := []
|}.

(** [this.clients.has(id)] *)
Definition connected (id : Z) (s : MuxState) : bool := bool_decide (id ∈ clients s).

(** [Map.prototype.set] on the key sequence. *)
Definition clients_set (id : Z) (l : list Z) : list Z :=
  if bool_decide (id ∈ l) then l else l ++ [id].

Definition clients_delete (id : Z) (l : list Z) : list Z :=
  filter (fun c => c <> id) l.

(** [!this.clientSupportsPullDiagnostics.get(clientId)] *)
Definition lacksPull (s : MuxState) (c : Z) : bool :=
  match clientSupportsPullDiagnostics s !! c with
  | Some true => false
  | _ => true
  end.

Definition hasNonPullClients (s : MuxState) : bool :=
  existsb (lacksPull s) (clients s).

Definition writeToServer (msg : JsonRpcMessage) : list output := [ToServer msg].

(** [this.clients.get(id)?.write(msg)] *)
Definition writeToClient (s : MuxState) (id : Z) (msg : JsonRpcMessage) : list output :=
  if connected id s then [ToClient id msg] else [].

Definition broadcast (s : MuxState) (msg : JsonRpcMessage) : list output :=
  map (fun c => ToClient c msg) (clients s).

Definition publishDiagnosticsNotification (u : string) (diags : list json) : JsonRpcMessage :=
  [ ("jsonrpc", JStr "2.0");
    ("method", JStr "textDocument/publishDiagnostics");
    ("params", JObj [("uri", JStr u); ("diagnostics", JArr diags)]) ].

Definition publishDiagnosticsToNonPullClients (s : MuxState) (u : string)
    (diags : list json) : list output :=
  map (fun c => ToClient c (publishDiagnosticsNotification u diags))
      (filter (fun c => lacksPull s c = true) (clients s)).

Definition sendDiagnosticsRequest (u : string) (msg : JsonRpcMessage) (s : MuxState)
  : MuxState * list output :=
  let serverReqId := nextServerRequestId s in
  let s := set_nextServerRequestId (serverReqId + 1) s in
  let s := set_pendingInternalRequests
             (<[serverReqId := {| uri := u |}]> (pendingInternalRequests s)) s in
  (s, writeToServer (set_field "id" (JNum serverReqId) msg)).

(** Runs the callback a bridge method made. *)
Definition bridgeCall (c : option DiagnosticsBridge.call) (s : MuxState)
  : MuxState * list output :=
  match c with
  | None => (s, [])
  | Some (DiagnosticsBridge.sendRequest u msg) => sendDiagnosticsRequest u msg s
  | Some (DiagnosticsBridge.publish u diags) =>
      (s, publishDiagnosticsToNonPullClients s u diags)
  end.

(** The one argument of type [uri: string | undefined] that passes [if (uri)].
    A [uri] that is not a string is outside the declared type and is taken
    as absent. *)
Definition uriOf (msg : JsonRpcMessage) : option string :=
  match prop "uri" (prop "textDocument" (field "params" msg)) with
  | Some (JStr u) => if String.eqb u "" then None else Some u
  | _ => None
  end.

Definition maybeTriggerDiagnosticsBridge (method : string) (msg : JsonRpcMessage)
    (s : MuxState) : MuxState :=
  if negb (usesDiagnosticsBridge s) then s
  else
    let u := if String.eqb method "textDocument/didOpen"
                || String.eqb method "textDocument/didChange"
                || String.eqb method "textDocument/didSave"
             then uriOf msg else None in
    match u, diagnosticsBridge s with
    | Some u, Some b =>
        set_diagnosticsBridge
          (Some (DiagnosticsBridge.onFileEvent (hasNonPullClients s) method u b)) s
    | _, _ => s
    end.

Definition recordClientCapabilities (cid : Z) (msg : JsonRpcMessage) (s : MuxState)
  : MuxState :=
  let caps := prop "capabilities" (field "params" msg) in
  let hasPullDiagnostics := truthy (prop "diagnostic" (prop "textDocument" caps)) in
  set_clientSupportsPullDiagnostics
    (<[cid := hasPullDiagnostics]> (clientSupportsPullDiagnostics s)) s.

Definition prepareInitializeForServer (s : MuxState) (msg : JsonRpcMessage)
  : JsonRpcMessage :=
  match prepareInitialize (spec s) with
  | Some hook => hook msg
  | None => msg
  end.

(** The message [respondWithCachedInit] writes. *)
Definition cachedInitReply (id : JsonRpcId) (cached : CachedInit) : JsonRpcMessage :=
  if nullish (error cached) then
    wire [("jsonrpc", Some (JStr "2.0")); ("id", Some id); ("result", result cached)]
  else
    wire [("jsonrpc", Some (JStr "2.0")); ("id", Some id); ("error", error cached)].

Definition respondWithCachedInit (s : MuxState) (cid : Z) (id : JsonRpcId)
    (cached : CachedInit) : list output :=
  writeToClient s cid (cachedInitReply id cached).

Definition flushQueuedInitialize (s : MuxState) : MuxState * list output :=
  match init s with
  | init_done cached =>
      let queued := queuedInitialize s in
      (set_queuedInitialize [] s,
       flat_map (fun entry => respondWithCachedInit s (fst entry) (snd entry) cached)
                queued)
  | _ => (s, [])
  end.

Definition handleInitialize (cid : Z) (id : JsonRpcId) (msg : JsonRpcMessage)
    (s : MuxState) : MuxState * list output :=
  let s := recordClientCapabilities cid msg s in
  match init s with
  | init_done cached => (s, respondWithCachedInit s cid id cached)
  | in_progress _ => (set_queuedInitialize (queuedInitialize s ++ [(cid, id)]) s, [])
  | not_started =>
      let s := set_init (in_progress cid) s in
      let s := match primaryClientId s with
               | None => set_primaryClientId (Some cid) s
               | Some _ => s
               end in
      let serverReqId := nextServerRequestId s in
      let s := set_nextServerRequestId (serverReqId + 1) s in
      let s := set_pendingClientRequests
                 (<[serverReqId := {| clientId := cid; originalId := id |}]>
                    (pendingClientRequests s)) s in
      let initForServer := prepareInitializeForServer s msg in
      (s, writeToServer (set_field "id" (JNum serverReqId) initForServer))
  end.

Definition onClientRequest (cid : Z) (method : string) (id : JsonRpcId)
    (msg : JsonRpcMessage) (s : MuxState) : MuxState * list output :=
  if String.eqb method "initialize" then handleInitialize cid id msg s
  else
    let serverReqId := nextServerRequestId s in
    let s := set_nextServerRequestId (serverReqId + 1) s in
    let s := set_pendingClientRequests
               (<[serverReqId := {| clientId := cid; originalId := id |}]>
                  (pendingClientRequests s)) s in
    (s, writeToServer (set_field "id" (JNum serverReqId) msg)).

Definition onClientNotification (cid : Z) (method : string) (msg : JsonRpcMessage)
    (s : MuxState) : MuxState * list output :=
  let s := maybeTriggerDiagnosticsBridge method msg s in
  let s := if String.eqb method "textDocument/didClose" then
             match uriOf msg, diagnosticsBridge s with
             | Some u, Some b =>
                 set_diagnosticsBridge (Some (DiagnosticsBridge.onDidClose u b)) s
             | _, _ => s
             end
           else s in
  if String.eqb method "initialized" then
    if bool_decide (primaryClientId s = Some cid) then (s, writeToServer msg)
    else (s, [])
  else (s, writeToServer msg).

Definition onClientResponse (cid : Z) (id : JsonRpcId) (msg : JsonRpcMessage)
    (s : MuxState) : MuxState * list output :=
  match id with
  | JNum n =>
      match pendingServerRequests s !! n with
      | None => (s, writeToServer msg)
      | Some pending =>
          let s := set_forwarded (nextForwardedServerReqId s)
                     (delete n (pendingServerRequests s)) s in
          (s, writeToServer (set_field "id" (serverId pending) msg))
      end
  | _ => (s, writeToServer msg)
  end.

Definition onClientMessage (cid : Z) (msg : JsonRpcMessage) (s : MuxState)
  : MuxState * list output :=
  match nonnull (field "method" msg), nonnull (field "id" msg) with
  | None, Some id => onClientResponse cid id msg s
  | Some method, None => onClientNotification cid (js_String method) msg s
  | Some method, Some id => onClientRequest cid (js_String method) id msg s
  | None, None => (s, writeToServer msg)
  end.

Definition onInternalServerResponse (internal : PendingInternalRequest)
    (msg : JsonRpcMessage) (s : MuxState) : MuxState * list output :=
  match diagnosticsBridge s with
  | Some b =>
      let '(b, c) := DiagnosticsBridge.onServerResponse (hasNonPullClients s)
                       (uri internal) msg b in
      bridgeCall c (set_diagnosticsBridge (Some b) s)
  | None => (s, [])
  end.

Definition onServerResponse (id : JsonRpcId) (msg : JsonRpcMessage) (s : MuxState)
  : MuxState * list output :=
  match id with
  | JNum n =>
      match pendingInternalRequests s !! n with
      | Some internal =>
          onInternalServerResponse internal msg
            (set_pendingInternalRequests (delete n (pendingInternalRequests s)) s)
      | None =>
          match pendingClientRequests s !! n with
          | None => (s, broadcast s msg)
          | Some pending =>
              let s := set_pendingClientRequests (delete n (pendingClientRequests s)) s in
              let '(s, flushed) :=
                match init s with
                | in_progress p =>
                    if Z.eqb (clientId pending) p then
                      let response := {| result := field "result" msg;
                                         error := field "error" msg |} in
                      let s := set_init (init_done response) s in
                      let '(s, out) := flushQueuedInitialize s in
                      (match diagnosticsBridge s with
                       | Some b =>
                           set_diagnosticsBridge
                             (Some (DiagnosticsBridge.markInitDone (hasNonPullClients s) b)) s
                       | None => s
                       end, out)
                    else (s, [])
                | _ => (s, [])
                end in
              (s, flushed
                  ++ writeToClient s (clientId pending)
                       (set_field "id" (originalId pending) msg))
          end
      end
  | _ => (s, broadcast s msg)
  end.

Definition onServerRequest (method : string) (id : JsonRpcId) (msg : JsonRpcMessage)
    (s : MuxState) : MuxState * list output :=
  if String.eqb method "client/registerCapability"
     || String.eqb method "client/unregisterCapability" then
    (s, writeToServer [("jsonrpc", JStr "2.0"); ("id", id); ("result", JNull)])
  else if String.eqb method "workspace/configuration" then
    let items := prop "items" (field "params" msg) in
    let result := match as_array items with
                  | Some l => map (fun _ => JNull) l
                  | None => []
                  end in
    (s, writeToServer [("jsonrpc", JStr "2.0"); ("id", id); ("result", JArr result)])
  else
    match primaryClientId s with
    | Some target =>
        if connected target s then
          let forwardedId := nextForwardedServerReqId s in
          let s := set_forwarded (forwardedId - 1)
                     (<[forwardedId := {| serverId := id |}]> (pendingServerRequests s)) s in
          (s, [ToClient target (set_field "id" (JNum forwardedId) msg)])
        else
          (s, writeToServer
                [("jsonrpc", JStr "2.0"); ("id", id);
                 ("error", JObj [("code", JNum (-32601));
                                 ("message", JStr "No clients connected")])])
    | None =>
        (s, writeToServer
              [("jsonrpc", JStr "2.0"); ("id", id);
               ("error", JObj [("code", JNum (-32601));
                               ("message", JStr "No clients connected")])])
    end.

Definition onServerMessage (msg : JsonRpcMessage) (s : MuxState)
  : MuxState * list output :=
  match nonnull (field "method" msg), nonnull (field "id" msg) with
  | None, Some id => onServerResponse id msg s
  | Some method, None => (s, broadcast s msg)
  | Some method, Some id => onServerRequest (js_String method) id msg s
  | None, None => (s, broadcast s msg)
  end.

(** [addClient], up to the registration of its handlers. *)
Definition addClient (s : MuxState) : MuxState :=
  let cid := nextClientId s in
  with_clients (fun s =>
    (cid + 1,
     clients_set cid (clients s),
     match primaryClientId s with None => Some cid | Some p => Some p end,
     <[cid := false]> (clientSupportsPullDiagnostics s))) s.

(** The socket's ["close"] handler registered by [addClient] (the idle
    timer it may start is not part of the routing state). *)
Definition onClose (cid : Z) (s : MuxState) : MuxState :=
  with_clients (fun s =>
    let cs := clients_delete cid (clients s) in
    (nextClientId s,
     cs,
     if bool_decide (primaryClientId s = Some cid) then head cs else primaryClientId s,
     delete cid (clientSupportsPullDiagnostics s))) s.

(** The debounce timer of [DiagnosticsBridge.schedule] fires for a URI. *)
Definition onDebounceTimer (u : string) (s : MuxState) : MuxState * list output :=
  match diagnosticsBridge s with
  | Some b =>
      let '(b, c) := DiagnosticsBridge.onDebounceTimer (hasNonPullClients s) u b in
      bridgeCall c (set_diagnosticsBridge (Some b) s)
  | None => (s, [])
  end.

(** What can happen to a running mux. *)
Inductive event :=
| Accept
| Close (client : Z)
| FromClient (client : Z) (msg : JsonRpcMessage)
| FromServer (msg : JsonRpcMessage)
| DebounceTimer (uri : string).

Definition step (s : MuxState) (e : event) : MuxState * list output :=
  match e with
  | Accept => (addClient s, [])
  | Close c => (onClose c s, [])
  | FromClient c msg => onClientMessage c msg s
  | FromServer msg => onServerMessage msg s
  | DebounceTimer u => onDebounceTimer u s
  end.

(** The state after a sequence of events, and everything written on the way. *)
Fixpoint run (s : MuxState) (tr : list event) : MuxState * list output :=
  match tr with
  | [] => (s, [])
  | e :: tr =>
      let '(s1, out1) := step s e in
      let '(s2, out2) := run s1 tr in
      (s2, out1 ++ out2)
  end.

Definition toServer (out : list output) : list JsonRpcMessage :=
  flat_map (fun o => match o with ToServer m => [m] | ToClient _ _ => [] end) out.

Definition toClient (c : Z) (out : list output) : list JsonRpcMessage :=
  flat_map (fun o => match o with
                     | ToClient c' m => if Z.eqb c c' then [m] else []
                     | ToServer _ => []
                     end) out.

(* ================================================================== *)
(** ** The framer ([src/lsp/framing.ts]) *)
(* ================================================================== *)

(** A [Buffer] is a list of bytes.  A header block is read through
    [toString("utf8")]; the ASCII bytes of a buffer are exactly the ASCII
    characters of that string, so the splitting at ["\r\n"] and [":"] and
    the comparison with ["content-length"] are done on the bytes.  Only
    the value handed to [Number] is sensitive to characters outside ASCII
    (Unicode white space), and such a value is reported as not modelled. *)

#[global] Instance byte_eq_decision : EqDecision byte := byte_eq_dec.

Definition CR : byte := x0d.
Definition LF : byte := x0a.
Definition CRLFCRLF : list byte := [CR; LF; CR; LF].

Fixpoint starts_with (p b : list byte) : bool :=
  match p, b with
  | [], _ => true
  | _ :: _, [] => false
  | x :: p, y :: b => Byte.eqb x y && starts_with p b
  end.

(** [buffer.indexOf(p)], [None] for [-1]. *)
Fixpoint indexOf (p b : list byte) : option nat :=
  if starts_with p b then Some 0%nat
  else match b with
       | [] => None
       | _ :: r => option_map S (indexOf p r)
       end.

Definition cons_head (c : byte) (l : list (list byte)) : list (list byte) :=
  match l with
  | [] => [[c]]
  | x :: r => (c :: x) :: r
  end.

(** [s.split("\r\n")] *)
Fixpoint split_crlf (b : list byte) : list (list byte) :=
  match b with
  | [] => [[]]
  | c :: r =>
      match r with
      | d :: r' =>
          if Byte.eqb c CR && Byte.eqb d LF then [] :: split_crlf r'
          else cons_head c (split_crlf r)
      | [] => [[c]]
      end
  end.

(** [s.split(":")] *)
Fixpoint split_colon (b : list byte) : list (list byte) :=
  match b with
  | [] => [[]]
  | c :: r =>
      if Byte.eqb c ":"%byte then [] :: split_colon r
      else cons_head c (split_colon r)
  end.

Definition in_range (lo hi : N) (c : byte) : bool :=
  (N.leb lo (Byte.to_N c) && N.leb (Byte.to_N c) hi)%bool.

(** [s.toLowerCase()] on the ASCII letters. *)
Definition lower (c : byte) : byte :=
  if in_range 65 90 c then
    match Byte.of_N (Byte.to_N c + 32) with
    | Some c' => c'
    | None => c
    end
  else c.

Definition toLowerCase (s : list byte) : list byte := map lower s.

(** ASCII white space and line terminators: TAB, LF, VT, FF, CR, SP. *)
Definition is_space (c : byte) : bool :=
  in_range 9 13 c || Byte.eqb c " "%byte.

Fixpoint trimStart (s : list byte) : list byte :=
  match s with
  | c :: r => if is_space c then trimStart r else s
  | [] => []
  end.

Definition trim (s : list byte) : list byte :=
  rev (trimStart (rev (trimStart s))).

Definition is_digit (c : byte) : bool := in_range 48 57 c.

Definition digit_value (c : byte) : Z := Z.of_N (Byte.to_N c) - 48.

(** The value of a run of decimal digits. *)
Definition digits_value (s : list byte) : Z :=
  fold_left (fun acc c => 10 * acc + digit_value c) s 0.

Fixpoint span_digits (s : list byte) : list byte * list byte :=
  match s with
  | c :: r =>
      if is_digit c then let '(d, rest) := span_digits r in (c :: d, rest)
      else ([], s)
  | [] => ([], [])
  end.

Definition nonempty (s : list byte) : bool :=
  match s with [] => false | _ => true end.

Definition is_sign (c : byte) : bool := Byte.eqb c "+"%byte || Byte.eqb c "-"%byte.

(** Nothing, or an [ExponentPart]: [e] or [E], an optional sign, digits. *)
Definition exponent_ok (r : list byte) : bool :=
  match r with
  | [] => true
  | c :: r1 =>
      if Byte.eqb c "e"%byte || Byte.eqb c "E"%byte then
        let r2 := match r1 with
                  | s :: r' => if is_sign s then r' else r1
                  | [] => []
                  end in
        nonempty r2 && forallb is_digit r2
      else false
  end.

(** A [StrUnsignedDecimalLiteral] other than [Infinity]. *)
Definition is_decimal_literal (u : list byte) : bool :=
  let '(d1, r) := span_digits u in
  match r with
  | c :: r' =>
      if Byte.eqb c "."%byte then
        let '(d2, r'') := span_digits r' in
        (nonempty d1 || nonempty d2) && exponent_ok r''
      else nonempty d1 && exponent_ok r
  | [] => nonempty d1
  end.

(** A [NonDecimalIntegerLiteral]: [0x], [0o] or [0b] and digits of the base. *)
Definition is_prefixed_literal (t : list byte) : bool :=
  match t with
  | z :: p :: ds =>
      Byte.eqb z "0"%byte && nonempty ds &&
      (if Byte.eqb (lower p) "x"%byte then
         forallb (fun c => is_digit c || in_range 97 102 (lower c)) ds
       else if Byte.eqb (lower p) "o"%byte then forallb (in_range 48 55) ds
       else if Byte.eqb (lower p) "b"%byte then forallb (in_range 48 49) ds
       else false)
  | _ => false
  end.

(** The result of [Number(s)] as far as [parseContentLength] looks at it:
    an integer that a double holds exactly, a value that is not finite
    ([NaN], [Infinity], [-Infinity]), or a number this model does not
    compute (a fraction, an exponent, another base, an integer beyond
    2^53, a value with characters outside ASCII). *)
Inductive jsnumber :=
| NumInt (n : Z)
| NumNotFinite
| NumOther.

Definition Number (s : list byte) : jsnumber :=
  if negb (forallb (in_range 0 127) s) then NumOther
  else
    let t := trim s in
    match t with
    | [] => NumInt 0
    | c :: r =>
        let u := if is_sign c then r else t in
        let negative := Byte.eqb c "-"%byte in
        if nonempty u && forallb is_digit u then
          if digits_value u <=? 2 ^ 53 then
            NumInt (if negative then - digits_value u else digits_value u)
          else NumOther
        else if bool_decide (u = list_byte_of_string "Infinity") then NumNotFinite
        else if is_decimal_literal u || is_prefixed_literal t then NumOther
        else NumNotFinite
    end.

(** [number | null], with the numbers this model does not compute apart. *)
Inductive contentLength :=
| Length (n : Z)
| NoLength
| LengthNotModelled.

Fixpoint parseContentLength_lines (lines : list (list byte)) : contentLength :=
  match lines with
  | [] => NoLength
  | line :: lines =>
      match split_colon line with
      | k :: v :: _ =>
          if negb (nonempty k) || negb (nonempty v) then parseContentLength_lines lines
          else if bool_decide (toLowerCase k = list_byte_of_string "content-length") then
            match Number (trim v) with
            | NumInt n => Length n
            | NumNotFinite => NoLength
            | NumOther => LengthNotModelled
            end
          else parseContentLength_lines lines
      | _ => parseContentLength_lines lines
      end
  end.

Definition parseContentLength (header : list byte) : contentLength :=
  parseContentLength_lines (split_crlf header).

(** A relative index of [Buffer.prototype.slice]: negative indices count
    from the end, and the result is clamped to the buffer. *)
Definition clamp (len i : Z) : Z :=
  if i <? 0 then Z.max (len + i) 0 else Z.min i len.

(** [buffer.slice(start, end)] *)
Definition slice (b : list byte) (start end_ : Z) : list byte :=
  let len := Z.of_nat (length b) in
  let s := clamp len start in
  let e := clamp len end_ in
  take (Z.to_nat (e - s)) (drop (Z.to_nat s) b).

(** How a run of [readMessages] ends: the stream ended, one of the two
    exceptions was thrown, or the model gave up. *)
Inductive ending :=
| EndOfStream
| MissingContentLength (header : list byte)
| JsonSyntaxError (body : list byte)
| LengthOutsideModel
| OutOfFuel.

Record decoded := {
  yielded : list json;
  ended : ending
}.

Definition yield_first (ms : list json) (d : decoded) : decoded :=
  {| yielded := ms ++ yielded d; ended := ended d |}.

(** One pass through the body of [while (true)]. *)
Inductive scanned :=
| Break
| Throw (e : ending)
| Yield (m : json) (buffer : list byte).

Section Framing.

(** The built-ins of the runtime: [Buffer.from(JSON.stringify(v), "utf8")]
    and [JSON.parse(b.toString("utf8"))], [None] when it throws. *)
Variable JSON_stringify : json -> list byte.
Variable JSON_parse : list byte -> option json.

(** [`${n}`] for a length. *)
Definition decimal (n : nat) : list byte :=
  list_byte_of_string (NilZero.string_of_uint (Nat.to_uint n)).

Definition encodeMessage (message : JsonRpcMessage) : list byte :=
  let body := JSON_stringify (JObj message) in
  let header := list_byte_of_string "Content-Length: "
                  ++ decimal (length body) ++ CRLFCRLF in
  header ++ body.

Definition scan (buffer : list byte) : scanned :=
  match indexOf CRLFCRLF buffer with
  | None => Break
  | Some headerEnd =>
      let header := take headerEnd buffer in
      match parseContentLength header with
      | NoLength => Throw (MissingContentLength header)
      | LengthNotModelled => Throw LengthOutsideModel
      | Length contentLength =>
          let messageStart := Z.of_nat headerEnd + 4 in
          let messageEnd := messageStart + contentLength in
          if Z.of_nat (length buffer) <? messageEnd then Break
          else
            let body := slice buffer messageStart messageEnd in
            match JSON_parse body with
            | None => Throw (JsonSyntaxError body)
            | Some m =>
                Yield m (slice buffer messageEnd (Z.of_nat (length buffer)))
            end
      end
  end.

(** The [while (true)] loop on the current buffer: the messages it
    yields and either the buffer it leaves at [break] or the exception. *)
Fixpoint drain (fuel : nat) (buffer : list byte)
  : list json * (list byte + ending) :=
  match fuel with
  | O => ([], inr OutOfFuel)
  | S fuel =>
      match scan buffer with
      | Break => ([], inl buffer)
      | Throw e => ([], inr e)
      | Yield m rest =>
          let '(ms, r) := drain fuel rest in (m :: ms, r)
      end
  end.

(** The [for await] loop over the chunks of the stream. *)
Fixpoint readLoop (buffer : list byte) (chunks : list (list byte)) : decoded :=
  match chunks with
  | [] => {| yielded := []; ended := EndOfStream |}
  | chunk :: chunks =>
      let buffer := buffer ++ chunk in
      match drain (S (length buffer)) buffer with
      | (ms, inl buffer) => yield_first ms (readLoop buffer chunks)
      | (ms, inr e) => {| yielded := ms; ended := e |}
      end
  end.

Definition readMessages (chunks : list (list byte)) : decoded :=
  readLoop [] chunks.

End Framing.

(* ================================================================== *)
(** ** The framer that reuses its buffer ([readMessages] with
       [ensureCapacity]) *)
(* ================================================================== *)

(** The second [readMessages] keeps one [Buffer] and two indices into it:
    the bytes received and not yet consumed are those from [start] up to
    [end].  The indices are naturals; the loop keeps
    [start <= end <= buffer.length], which makes the subtractions below
    exact.  [Buffer.allocUnsafe] returns memory with any content: its
    result is given by [allocUnsafe], from the number of allocations made
    so far and the size asked for.  A declared length below zero would
    move [start] backwards; the model stops there with
    [LengthOutsideModel]. *)
Module Windowed.

Record window := {
  buffer : list byte;
  start : nat;
  end_ : nat;
  allocations : nat
}.

(** [source.copy(target, targetStart, sourceStart, sourceEnd)]: the bytes
    that fit are written over those of [target]. *)
Definition copy (source target : list byte) (targetStart sourceStart sourceEnd : nat)
  : list byte :=
  let data := take (length target - targetStart)
                   (take (sourceEnd - sourceStart) (drop sourceStart source)) in
  take targetStart target ++ data ++ drop (targetStart + length data) target.

(** [buffer.subarray(from, to)] and the bytes [buffer.toString("utf8", from, to)]
    decodes. *)
Definition subarray (b : list byte) (from to : nat) : list byte :=
  take (to - from) (drop from b).

(** One pass through the body of [while (true)]. *)
Inductive scanned :=
| Break
| Throw (e : ending)
| Yield (m : json) (w : window).

Section Framing.

Variable JSON_parse : list byte -> option json.
Variable allocUnsafe : nat -> nat -> list byte.

Definition ensureCapacity (incoming : nat) (w : window) : window :=
  let available := (length (buffer w) - end_ w)%nat in
  if (incoming <=? available)%nat then w
  else
    let w := if (0 <? start w)%nat then
               {| buffer := copy (buffer w) (buffer w) 0 (start w) (end_ w);
                  start := 0;
                  end_ := end_ w - start w;
                  allocations := allocations w |}
             else w in
    if (incoming <=? length (buffer w) - end_ w)%nat then w
    else
      let used := (end_ w - start w)%nat in
      let nextSize := Nat.max (length (buffer w) * 2) (used + incoming) in
      let next := allocUnsafe (allocations w) nextSize in
      {| buffer := copy (buffer w) next 0 (start w) (end_ w);
         start := 0;
         end_ := used;
         allocations := S (allocations w) |}.

(** [ensureCapacity(buf.length); buf.copy(buffer, end); end += buf.length] *)
Definition receive (chunk : list byte) (w : window) : window :=
  let w := ensureCapacity (length chunk) w in
  {| buffer := copy chunk (buffer w) (end_ w) 0 (length chunk);
     start := start w;
     end_ := end_ w + length chunk;
     allocations := allocations w |}.

Definition scan (w : window) : scanned :=
  match indexOf CRLFCRLF (subarray (buffer w) (start w) (end_ w)) with
  | None => Break
  | Some headerIdx =>
      let headerEnd := (start w + headerIdx)%nat in
      let header := subarray (buffer w) (start w) headerEnd in
      match parseContentLength header with
      | NoLength => Throw (MissingContentLength header)
      | LengthNotModelled => Throw LengthOutsideModel
      | Length contentLength =>
          if contentLength <? 0 then Throw LengthOutsideModel
          else
            let messageStart := (headerEnd + 4)%nat in
            let messageEnd := Z.of_nat messageStart + contentLength in
            if Z.of_nat (end_ w) <? messageEnd then Break
            else
              let body := subarray (buffer w) messageStart (Z.to_nat messageEnd) in
              let w := if (Z.to_nat messageEnd =? end_ w)%nat then
                         {| buffer := buffer w; start := 0; end_ := 0;
                            allocations := allocations w |}
                       else
                         {| buffer := buffer w; start := Z.to_nat messageEnd;
                            end_ := end_ w; allocations := allocations w |} in
              match JSON_parse body with
              | None => Throw (JsonSyntaxError body)
              | Some m => Yield m w
              end
      end
  end.

Fixpoint drain (fuel : nat) (w : window) : list json * (window + ending) :=
  match fuel with
  | O => ([], inr OutOfFuel)
  | S fuel =>
      match scan w with
      | Break => ([], inl w)
      | Throw e => ([], inr e)
      | Yield m w => let '(ms, r) := drain fuel w in (m :: ms, r)
      end
  end.

Fixpoint readLoop (w : window) (chunks : list (list byte)) : decoded :=
  match chunks with
  | [] => {| yielded := []; ended := EndOfStream |}
  | chunk :: chunks =>
      let w := receive chunk w in
      match drain (S (end_ w - start w)) w with
      | (ms, inl w) => yield_first ms (readLoop w chunks)
      | (ms, inr e) => {| yielded := ms; ended := e |}
      end
  end.

Definition readMessages (chunks : list (list byte)) : decoded :=
  readLoop {| buffer := allocUnsafe 0 (Z.to_nat 8192); start := 0; end_ := 0; allocations := 1 |}
           chunks.

End Framing.

End Windowed.

(* ================================================================== *)
(** ** Buffered writers ([BufferedWriter], [src/daemon/daemon.ts]) *)
(* ================================================================== *)

(** A writer and the stream it writes to.  Of the stream the writer sees
    the answer of [stream.write] and the ["drain"] event; the model keeps
    what the stream was handed, in order, and the number of listeners
    registered with [once("drain", ...)].  The answer of the stream to its
    [k]-th write (counting from 0) is [accepts k].  The two hooks are
    owned by the mux: a method returns the hooks it called, in order. *)
Module BufferedWriter.

Inductive hook := onBackpressure | onResume.

Record t := {
  written : list (list byte);
  drainListeners : nat;
  queue : list (list byte);
  waitingForDrain : bool;
  paused : bool
}.

Definition new : t := {|
  written := [];
  drainListeners := 0;
  queue := [];
  waitingForDrain := false;
  paused := false
|}.

Section Stream.

Variable accepts : nat -> bool.

(** [this.stream.write(buf)] *)
Definition stream_write (buf : list byte) (w : t) : bool * t :=
  (accepts (length (written w)),
   {| written := written w ++ [buf];
      drainListeners := drainListeners w;
      queue := queue w;
      waitingForDrain := waitingForDrain w;
      paused := paused w |}).

Definition pauseIfNeeded (w : t) : t * list hook :=
  if paused w then (w, [])
  else ({| written := written w;
           drainListeners := drainListeners w;
           queue := queue w;
           waitingForDrain := waitingForDrain w;
           paused := true |}, [onBackpressure]).

(** [this.waitingForDrain = true; this.pauseIfNeeded();
    this.stream.once("drain", () => this.flush())] *)
Definition waitForDrain (w : t) : t * list hook :=
  let '(w, hooks) :=
    pauseIfNeeded {| written := written w;
                     drainListeners := drainListeners w;
                     queue := queue w;
                     waitingForDrain := true;
                     paused := paused w |} in
  ({| written := written w;
      drainListeners := S (drainListeners w);
      queue := queue w;
      waitingForDrain := waitingForDrain w;
      paused := paused w |}, hooks).

Definition write (buf : list byte) (w : t) : t * list hook :=
  if waitingForDrain w then
    pauseIfNeeded {| written := written w;
                     drainListeners := drainListeners w;
                     queue := queue w ++ [buf];
                     waitingForDrain := waitingForDrain w;
                     paused := paused w |}
  else
    let '(ok, w) := stream_write buf w in
    if ok then (w, []) else waitForDrain w.

(** The [while (this.queue.length > 0)] loop of [flush] and what follows
    it; [q] is the queue of [w]. *)
Fixpoint flush_loop (q : list (list byte)) (w : t) : t * list hook :=
  match q with
  | next :: rest =>
      let '(ok, w) :=
        stream_write next {| written := written w;
                             drainListeners := drainListeners w;
                             queue := rest;
                             waitingForDrain := waitingForDrain w;
                             paused := paused w |} in
      if ok then flush_loop rest w else waitForDrain w
  | [] =>
      if negb (waitingForDrain w) && (length (queue w) =? 0)%nat && paused w then
        ({| written := written w;
            drainListeners := drainListeners w;
            queue := queue w;
            waitingForDrain := waitingForDrain w;
            paused := false |}, [onResume])
      else (w, [])
  end.

Definition flush (w : t) : t * list hook :=
  flush_loop (queue w)
    {| written := written w;
       drainListeners := drainListeners w;
       queue := queue w;
       waitingForDrain := false;
       paused := paused w |}.

(** The stream emits ["drain"]: the listeners registered with [once] are
    removed and called. *)
Definition onDrain (w : t) : t * list hook :=
  Nat.iter (drainListeners w)
    (fun acc => let '(w, hooks) := acc in
                let '(w, hooks') := flush w in (w, hooks ++ hooks'))
    ({| written := written w;
        drainListeners := 0;
        queue := queue w;
        waitingForDrain := waitingForDrain w;
        paused := paused w |}, []).

Inductive event :=
| Write (buf : list byte)
| Drain.

Definition step (w : t) (e : event) : t * list hook :=
  match e with
  | Write buf => write buf w
  | Drain => onDrain w
  end.

Fixpoint run (w : t) (tr : list event) : t * list hook :=
  match tr with
  | [] => (w, [])
  | e :: tr =>
      let '(w1, h1) := step w e in
      let '(w2, h2) := run w1 tr in
      (w2, h1 ++ h2)
  end.

End Stream.

End BufferedWriter.

(* ================================================================== *)
(** ** The mux with its writers: backpressure ([MuxState],
       [src/daemon/daemon.ts]) *)
(* ================================================================== *)

(** The routing state together with what the handlers' writes go through:
    the writer of the server's stdin, the writer of each connected
    client's socket, and the flags and sets of the [pause...]/[resume...]
    methods.  [stdoutPaused] is the state of [lsp.stdout] and
    [socketsPaused] the set of client sockets on which [pause()] was
    called last.  A handler's writes are given by the routing step in
    their order; the hooks they trigger read and change only the fields
    below and the key sequence of the client map, which no message handler
    changes. *)
Module Backpressure.

Record t := {
  routing : MuxState;
  lspWriter : BufferedWriter.t;
  clientWriters : gmap Z BufferedWriter.t;
  backpressuredClients : gset Z;
  lspReadsPaused : bool;
  clientReadsPaused : bool;
  stdoutPaused : bool;
  socketsPaused : gset Z
}.

Definition set_routing (r : MuxState) (s : t) : t :=
  {| routing := r; lspWriter := lspWriter s; clientWriters := clientWriters s;
     backpressuredClients := backpressuredClients s;
     lspReadsPaused := lspReadsPaused s; clientReadsPaused := clientReadsPaused s;
     stdoutPaused := stdoutPaused s; socketsPaused := socketsPaused s |}.

Definition set_lspWriter (w : BufferedWriter.t) (s : t) : t :=
  {| routing := routing s; lspWriter := w; clientWriters := clientWriters s;
     backpressuredClients := backpressuredClients s;
     lspReadsPaused := lspReadsPaused s; clientReadsPaused := clientReadsPaused s;
     stdoutPaused := stdoutPaused s; socketsPaused := socketsPaused s |}.

Definition set_clientWriters (m : gmap Z BufferedWriter.t) (s : t) : t :=
  {| routing := routing s; lspWriter := lspWriter s; clientWriters := m;
     backpressuredClients := backpressuredClients s;
     lspReadsPaused := lspReadsPaused s; clientReadsPaused := clientReadsPaused s;
     stdoutPaused := stdoutPaused s; socketsPaused := socketsPaused s |}.

Definition set_backpressuredClients (b : gset Z) (s : t) : t :=
  {| routing := routing s; lspWriter := lspWriter s; clientWriters := clientWriters s;
     backpressuredClients := b;
     lspReadsPaused := lspReadsPaused s; clientReadsPaused := clientReadsPaused s;
     stdoutPaused := stdoutPaused s; socketsPaused := socketsPaused s |}.

(** [this.lspReadsPaused = p], with [this.lsp.stdout.pause()] or [resume()]. *)
Definition set_lspReads (p : bool) (s : t) : t :=
  {| routing := routing s; lspWriter := lspWriter s; clientWriters := clientWriters s;
     backpressuredClients := backpressuredClients s;
     lspReadsPaused := p; clientReadsPaused := clientReadsPaused s;
     stdoutPaused := p; socketsPaused := socketsPaused s |}.

(** [this.clientReadsPaused = p], with the sockets that are paused after
    the loop over [this.clients.values()]. *)
Definition set_clientReads (p : bool) (sockets : gset Z) (s : t) : t :=
  {| routing := routing s; lspWriter := lspWriter s; clientWriters := clientWriters s;
     backpressuredClients := backpressuredClients s;
     lspReadsPaused := lspReadsPaused s; clientReadsPaused := p;
     stdoutPaused := stdoutPaused s; socketsPaused := sockets |}.

(** The constructor. *)
Definition new (sp : ServerSpec) : t := {|
  routing := MuxState_new sp;
  lspWriter := BufferedWriter.new;
  clientWriters := ∅;
  backpressuredClients := ∅;
  lspReadsPaused := false;
  clientReadsPaused := false;
  stdoutPaused := false;
  socketsPaused := ∅
|}.

Definition pauseLspReads (s : t) : t :=
  if lspReadsPaused s then s else set_lspReads true s.

Definition resumeLspReads (s : t) : t :=
  if negb (lspReadsPaused s) then s
  else if (0 <? size (backpressuredClients s))%nat then s
  else set_lspReads false s.

Definition markClientBackpressure (clientId : Z) (s : t) : t :=
  if bool_decide (clientId ∈ backpressuredClients s) then s
  else pauseLspReads
         (set_backpressuredClients ({[clientId]} ∪ backpressuredClients s) s).

Definition clearClientBackpressure (clientId : Z) (s : t) : t :=
  if negb (bool_decide (clientId ∈ backpressuredClients s)) then s
  else resumeLspReads
         (set_backpressuredClients (backpressuredClients s ∖ {[clientId]}) s).

Definition pauseClientReads (s : t) : t :=
  if clientReadsPaused s then s
  else set_clientReads true
         (socketsPaused s ∪ list_to_set (clients (routing s))) s.

Definition resumeClientReads (s : t) : t :=
  if negb (clientReadsPaused s) then s
  else set_clientReads false
         (socketsPaused s ∖ list_to_set (clients (routing s))) s.

(** The hooks the constructor gives the writer of the server's stdin. *)
Definition lspHook (s : t) (h : BufferedWriter.hook) : t :=
  match h with
  | BufferedWriter.onBackpressure => pauseClientReads s
  | BufferedWriter.onResume => resumeClientReads s
  end.

(** The hooks [addClient] gives the writer of a client's socket. *)
Definition clientHook (clientId : Z) (s : t) (h : BufferedWriter.hook) : t :=
  match h with
  | BufferedWriter.onBackpressure => markClientBackpressure clientId s
  | BufferedWriter.onResume => clearClientBackpressure clientId s
  end.

Section Streams.

Variable JSON_stringify : json -> list byte.

(** The answers of the streams to their writes: of the server's stdin
    ([None]) and of the socket of each client. *)
Variable accepts : option Z -> nat -> bool.

(** [this.lspWriter.write(encodeMessage(msg))] *)
Definition writeToServer (msg : JsonRpcMessage) (s : t) : t :=
  let '(w, hooks) :=
    BufferedWriter.write (accepts None) (encodeMessage JSON_stringify msg) (lspWriter s) in
  fold_left lspHook hooks (set_lspWriter w s).

(** [client.write(msg)], that is [writer.write(encodeMessage(msg))] on the
    writer [addClient] made for the connection. *)
Definition writeToClient (clientId : Z) (msg : JsonRpcMessage) (s : t) : t :=
  match clientWriters s !! clientId with
  | Some w =>
      let '(w, hooks) :=
        BufferedWriter.write (accepts (Some clientId))
          (encodeMessage JSON_stringify msg) w in
      fold_left (clientHook clientId) hooks
        (set_clientWriters (<[clientId := w]> (clientWriters s)) s)
  | None => s
  end.

Definition deliver (s : t) (o : output) : t :=
  match o with
  | ToServer msg => writeToServer msg s
  | ToClient c msg => writeToClient c msg s
  end.

(** What can happen: an event of the routing state, or ["drain"] on a
    client's socket or on the server's stdin. *)
Definition routingEvent : Type := event.

Inductive event :=
| Routing (e : routingEvent)
| SocketDrain (clientId : Z)
| StdinDrain.

Definition step (s : t) (e : event) : t :=
  match e with
  | Routing e =>
      let '(r, out) := step (routing s) e in
      let s' := set_routing r s in
      let s' := match e with
                | Accept =>
                    set_clientWriters
                      (<[nextClientId (routing s) := BufferedWriter.new]>
                         (clientWriters s')) s'
                | Close c =>
                    clearClientBackpressure c
                      (set_clientWriters (delete c (clientWriters s')) s')
                | _ => s'
                end in
      fold_left deliver out s'
  | SocketDrain c =>
      match clientWriters s !! c with
      | Some w =>
          let '(w, hooks) := BufferedWriter.onDrain (accepts (Some c)) w in
          fold_left (clientHook c) hooks
            (set_clientWriters (<[c := w]> (clientWriters s)) s)
      | None => s
      end
  | StdinDrain =>
      let '(w, hooks) := BufferedWriter.onDrain (accepts None) (lspWriter s) in
      fold_left lspHook hooks (set_lspWriter w s)
  end.

Definition run (s : t) (tr : list event) : t := fold_left step tr s.

End Streams.

End Backpressure.

(* ================================================================== *)
(** ** The server registry ([src/servers/index.ts]) *)
(* ================================================================== *)

Definition builtIns : list ServerSpec := [tsgoSpec; oxlintSpec].

(** The map the module fills when it is loaded: for each spec in turn,
    its name and then its aliases. *)
Definition byName : gmap string ServerSpec :=
  fold_left
    (fun m spec =>
       fold_left (fun m alias => <[alias := spec]> m) (aliases spec)
                 (<[name spec := spec]> m))
    builtIns ∅.

(** [byName.get(name) ?? null] *)
Definition resolveServer (name : string) : option ServerSpec := byName !! name.

Definition allServers : list ServerSpec := builtIns.



(* ================================================================== *)
(** ** Command lines ([src/main.ts], [src/cli/connect.ts],
       [src/cli/manage.ts], [parseDaemonArgs] of [src/daemon/daemon.ts]) *)
(* ================================================================== *)

(** A function that throws returns the message of its [Error] on the
    left. *)
Module Cli.






(** The loop of [parseDaemonArgs]: a flag takes the argument after it,
    [undefined] when there is none. *)
Fixpoint daemonOptions (argv : list string) (server projectRoot socketPath : option string)
  : option string * option string * option string :=
  match argv with
  | [] => (server, projectRoot, socketPath)
  | arg :: rest =>
      if String.eqb arg "--server" then
        match rest with
        | [] => (None, projectRoot, socketPath)
        | value :: rest' => daemonOptions rest' (Some value) projectRoot socketPath
        end
      else if String.eqb arg "--projectRoot" then
        match rest with
        | [] => (server, None, socketPath)
        | value :: rest' => daemonOptions rest' server (Some value) socketPath
        end
      else if String.eqb arg "--socket" then
        match rest with
        | [] => (server, projectRoot, None)
        | value :: rest' => daemonOptions rest' server projectRoot (Some value)
        end
      else daemonOptions rest server projectRoot socketPath
  end.

(** [!x] on a [string | undefined]. *)
Definition missing (x : option string) : bool :=
  match x with
  | None => true
  | Some s => String.eqb s ""
  end.

Definition parseDaemonArgs (argv : list string) : string + (string * string * string) :=
  let '(server, projectRoot, socketPath) := daemonOptions argv None None None in
  if missing server || missing projectRoot || missing socketPath then
    inl "Missing required daemon args"
  else
    match server, projectRoot, socketPath with
    | Some server, Some projectRoot, Some socketPath =>
        inr (server, projectRoot, socketPath)
    | _, _, _ => inl "Missing required daemon args"
    end.

(** What [main] does with its arguments: it prints the usage and sets the
    exit code, or runs a command on the remaining arguments. *)
Inductive dispatch :=
| usage (exitCode : Z)
| runConnect (rest : list string)
| runPs (rest : list string)
| runKill (rest : list string)
| runPrune (rest : list string)
| runDaemon (rest : list string).

Definition main (argv : list string) : dispatch :=
  match argv with
  | [] => usage 2
  | command :: rest =>
      if String.eqb command "" then usage 2
      else if String.eqb command "-h" || String.eqb command "--help"
              || String.eqb command "help" then usage 0
      else if String.eqb command "connect" then runConnect rest
      else if String.eqb command "ps" then runPs rest
      else if String.eqb command "kill" then runKill rest
      else if String.eqb command "prune" then runPrune rest
      else if String.eqb command "daemon" then runDaemon rest
      else usage 2
  end.

(** The arguments [spawnDaemon] gives the daemon process after the path of
    [main.ts]: what [process.argv.slice(2)] is there, the command and its
    flags. *)
Definition daemonFlags (server projectRoot socketPath : string) : list string :=
  ["--server"; server; "--projectRoot"; projectRoot; "--socket"; socketPath].

Definition spawnDaemonArgs (server projectRoot socketPath : string) : list string :=
  "daemon" :: daemonFlags server projectRoot socketPath.

End Cli.

(* ================================================================== *)
(** ** A JSON printer and parser for the values of [json] *)
(* ================================================================== *)

(** The framer is stated over any [JSON.stringify] and [JSON.parse]; this
    module gives one concrete pair, for the JSON texts whose numbers are
    integers, to run the framer on actual bytes. *)
Module MiniJSON.

Definition bytes (s : string) : list byte := list_byte_of_string s.

Definition hex_digit (n : N) : byte :=
  match Byte.of_N (if N.ltb n 10 then 48 + n else 87 + n) with
  | Some c => c
  | None => "0"%byte
  end.

Definition escape (c : byte) : list byte :=
  if Byte.eqb c x22 then [x5c; x22]
  else if Byte.eqb c "\"%byte then bytes "\\"
  else if Byte.eqb c x08 then bytes "\b"
  else if Byte.eqb c x0c then bytes "\f"
  else if Byte.eqb c x0a then bytes "\n"
  else if Byte.eqb c x0d then bytes "\r"
  else if Byte.eqb c x09 then bytes "\t"
  else if N.ltb (Byte.to_N c) 32 then
    bytes "\u00" ++ [hex_digit (N.div (Byte.to_N c) 16); hex_digit (N.modulo (Byte.to_N c) 16)]
  else [c].

Definition quote (s : string) : list byte :=
  x22 :: flat_map escape (bytes s) ++ [x22].

Fixpoint stringify (v : json) : list byte :=
  match v with
  | JNull => bytes "null"
  | JBool true => bytes "true"
  | JBool false => bytes "false"
  | JNum n => bytes (Z_to_string n)
  | JStr s => quote s
  | JArr l =>
      "["%byte ::
      (fix elems (l : list json) : list byte :=
         match l with
         | [] => []
         | x :: r =>
             stringify x ++ match r with [] => [] | _ => ","%byte :: elems r end
         end) l ++ ["]"%byte]
  | JObj fs =>
      "{"%byte ::
      (fix members (fs : list (string * json)) : list byte :=
         match fs with
         | [] => []
         | (k, x) :: r =>
             quote k ++ ":"%byte :: stringify x
               ++ match r with [] => [] | _ => ","%byte :: members r end
         end) fs ++ ["}"%byte]
  end.

(** JSON white space: space, TAB, LF, CR. *)
Definition is_ws (c : byte) : bool :=
  Byte.eqb c " "%byte || Byte.eqb c x09 || Byte.eqb c x0a || Byte.eqb c x0d.

Fixpoint skip_ws (b : list byte) : list byte :=
  match b with
  | c :: r => if is_ws c then skip_ws r else b
  | [] => []
  end.

Definition hex_value (c : byte) : option N :=
  if is_digit c then Some (Byte.to_N c - 48)%N
  else if in_range 97 102 (lower c) then Some (Byte.to_N (lower c) - 87)%N
  else None.

Definition unescape (e : byte) : option byte :=
  if Byte.eqb e x22 then Some x22
  else if Byte.eqb e "\"%byte then Some "\"%byte
  else if Byte.eqb e "/"%byte then Some "/"%byte
  else if Byte.eqb e "b"%byte then Some x08
  else if Byte.eqb e "f"%byte then Some x0c
  else if Byte.eqb e "n"%byte then Some x0a
  else if Byte.eqb e "r"%byte then Some x0d
  else if Byte.eqb e "t"%byte then Some x09
  else None.

(** The characters of a string literal after its opening quote, and what
    follows the closing quote; of the [\u] escapes only [\u00XX]. *)
Fixpoint parse_chars (b : list byte) : option (list byte * list byte) :=
  match b with
  | [] => None
  | c :: r =>
      if Byte.eqb c x22 then Some ([], r)
      else if N.ltb (Byte.to_N c) 32 then None
      else if Byte.eqb c "\"%byte then
        match r with
        | e :: r1 =>
            if Byte.eqb e "u"%byte then
              match r1 with
              | h1 :: h2 :: h3 :: h4 :: r2 =>
                  match hex_value h1, hex_value h2, hex_value h3, hex_value h4 with
                  | Some 0%N, Some 0%N, Some a, Some d =>
                      match Byte.of_N (16 * a + d), parse_chars r2 with
                      | Some x, Some (cs, rest) => Some (x :: cs, rest)
                      | _, _ => None
                      end
                  | _, _, _, _ => None
                  end
              | _ => None
              end
            else
              match unescape e, parse_chars r1 with
              | Some x, Some (cs, rest) => Some (x :: cs, rest)
              | _, _ => None
              end
        | [] => None
        end
      else
        match parse_chars r with
        | Some (cs, rest) => Some (c :: cs, rest)
        | None => None
        end
  end.

Definition parse_string (b : list byte) : option (string * list byte) :=
  match parse_chars b with
  | Some (cs, rest) => Some (string_of_list_byte cs, rest)
  | None => None
  end.

Definition expect (word : string) (v : json) (b : list byte)
  : option (json * list byte) :=
  if starts_with (bytes word) b then Some (v, drop (length (bytes word)) b)
  else None.

(** An integer: an optional minus sign, then [0] or digits without a
    leading zero. *)
Definition parse_number (b : list byte) : option (json * list byte) :=
  let '(negative, u) := match b with
                        | c :: r => if Byte.eqb c "-"%byte then (true, r) else (false, b)
                        | [] => (false, b)
                        end in
  let '(ds, rest) := span_digits u in
  match ds with
  | [] => None
  | d :: ds' =>
      if Byte.eqb d "0"%byte && nonempty ds' then None
      else
        match rest with
        | c :: _ =>
            if Byte.eqb c "."%byte || Byte.eqb (lower c) "e"%byte then None
            else Some (JNum (if negative then - digits_value ds else digits_value ds), rest)
        | [] => Some (JNum (if negative then - digits_value ds else digits_value ds), rest)
        end
  end.

Fixpoint parse_value (fuel : nat) (b : list byte) {struct fuel}
  : option (json * list byte) :=
  match fuel with
  | O => None
  | S fuel =>
      match skip_ws b with
      | [] => None
      | c :: r =>
          if Byte.eqb c "n"%byte then expect "null" JNull (c :: r)
          else if Byte.eqb c "t"%byte then expect "true" (JBool true) (c :: r)
          else if Byte.eqb c "f"%byte then expect "false" (JBool false) (c :: r)
          else if Byte.eqb c x22 then
            match parse_string r with
            | Some (s, rest) => Some (JStr s, rest)
            | None => None
            end
          else if Byte.eqb c "["%byte then
            match skip_ws r with
            | d :: r' =>
                if Byte.eqb d "]"%byte then Some (JArr [], r')
                else match parse_elements fuel r with
                     | Some (l, rest) => Some (JArr l, rest)
                     | None => None
                     end
            | [] => None
            end
          else if Byte.eqb c "{"%byte then
            match skip_ws r with
            | d :: r' =>
                if Byte.eqb d "}"%byte then Some (JObj [], r')
                else match parse_members fuel r with
                     | Some (l, rest) => Some (JObj l, rest)
                     | None => None
                     end
            | [] => None
            end
          else parse_number (c :: r)
      end
  end
with parse_elements (fuel : nat) (b : list byte) {struct fuel}
  : option (list json * list byte) :=
  match fuel with
  | O => None
  | S fuel =>
      match parse_value fuel b with
      | Some (v, r) =>
          match skip_ws r with
          | c :: r' =>
              if Byte.eqb c ","%byte then
                match parse_elements fuel r' with
                | Some (vs, rest) => Some (v :: vs, rest)
                | None => None
                end
              else if Byte.eqb c "]"%byte then Some ([v], r')
              else None
          | [] => None
          end
      | None => None
      end
  end
with parse_members (fuel : nat) (b : list byte) {struct fuel}
  : option (list (string * json) * list byte) :=
  match fuel with
  | O => None
  | S fuel =>
      match skip_ws b with
      | q :: r0 =>
          if Byte.eqb q x22 then
            match parse_string r0 with
            | Some (k, r1) =>
                match skip_ws r1 with
                | c :: r2 =>
                    if Byte.eqb c ":"%byte then
                      match parse_value fuel r2 with
                      | Some (v, r3) =>
                          match skip_ws r3 with
                          | d :: r4 =>
                              if Byte.eqb d ","%byte then
                                match parse_members fuel r4 with
                                | Some (ms, rest) => Some ((k, v) :: ms, rest)
                                | None => None
                                end
                              else if Byte.eqb d "}"%byte then Some ([(k, v)], r4)
                              else None
                          | [] => None
                          end
                      | None => None
                      end
                    else None
                | [] => None
                end
            | None => None
            end
          else None
      | [] => None
      end
  end.

Definition parse (b : list byte) : option json :=
  match parse_value (S (length b)) b with
  | Some (v, rest) =>
      match skip_ws rest with
      | [] => Some v
      | _ => None
      end
  | None => None
  end.

End MiniJSON.

Example MiniJSON_roundtrip_example :
  let m := JObj [("jsonrpc", JStr "2.0"); ("id", JNum (-7));
                 ("params", JObj [("items", JArr [JNull; JBool true; JStr "a\b c"])])] in
  MiniJSON.parse (MiniJSON.stringify m) = Some m.
Proof. vm_compute. reflexivity. Qed.

(* ================================================================== *)
(** ** The scenarios of the test suite, run on the model *)
(* ================================================================== *)

(** [test/daemon.test.ts], "tsgo injects pull-diagnostic capability and
    caches init response": the [initialize] that reaches the server
    advertises [textDocument.diagnostic], and the second client is answered
    from the cache. *)
Example tsgo_injects_capability_and_caches :
  let init1 := [("jsonrpc", JStr "2.0"); ("id", JNum 1); ("method", JStr "initialize");
                ("params", JObj [("processId", JNull); ("capabilities", JObj [])])] in
  let init2 := [("jsonrpc", JStr "2.0"); ("id", JNum 2); ("method", JStr "initialize");
                ("params", JObj [("processId", JNull); ("capabilities", JObj [])])] in
  let result := JObj [("capabilities", JObj []); ("initCount", JNum 1)] in
  snd (run (MuxState_new tsgoSpec)
         [Accept; FromClient 1 init1;
          FromServer [("jsonrpc", JStr "2.0"); ("id", JNum 1); ("result", result)];
          Accept; FromClient 2 init2])
  = [ToServer
       [("jsonrpc", JStr "2.0"); ("id", JNum 1); ("method", JStr "initialize");
        ("params",
         JObj [("processId", JNull);
               ("capabilities",
                JObj [("textDocument",
                       JObj [("diagnostic",
                              JObj [("dynamicRegistration", JBool false)])])])])];
     ToClient 1 [("jsonrpc", JStr "2.0"); ("id", JNum 1); ("result", result)];
     ToClient 2 [("jsonrpc", JStr "2.0"); ("id", JNum 2); ("result", result)]].
Proof. vm_compute. reflexivity. Qed.

(** [test/daemon.test.ts], "tsgo bridges pull diagnostics to non-pull
    clients only": [didOpen] and [didSave] are debounced into one pull
    request, and its result is published to client 1 only. *)
Example tsgo_bridges_to_non_pull_clients_only :
  let init caps i := [("id", JNum i); ("method", JStr "initialize");
                      ("params", JObj [("capabilities", caps)])] in
  let pull := JObj [("textDocument",
                     JObj [("diagnostic", JObj [("dynamicRegistration", JBool false)])])] in
  let file method := [("method", JStr method);
                      ("params", JObj [("textDocument", JObj [("uri", JStr "file:///x.ts")])])] in
  let items := [JObj [("message", JStr "from pull")]] in
  snd (run (fst (run (MuxState_new tsgoSpec)
                   [Accept; FromClient 1 (init (JObj []) 1);
                    FromServer [("id", JNum 1); ("result", JObj [])];
                    Accept; FromClient 2 (init pull 2)]))
         [FromClient 1 (file "textDocument/didOpen");
          FromClient 1 (file "textDocument/didSave");
          DebounceTimer "file:///x.ts";
          FromServer [("id", JNum 2);
                      ("result", JObj [("kind", JStr "full"); ("items", JArr items)])]])
  = [ToServer (file "textDocument/didOpen");
     ToServer (file "textDocument/didSave");
     ToServer (set_field "id" (JNum 2) (pullDiagnosticsRequest "file:///x.ts"));
     ToClient 1 (publishDiagnosticsNotification "file:///x.ts" items)].
Proof. vm_compute. reflexivity. Qed.

(** [test/diagnosticsBridge.test.ts], "queues before init and replays
    after init" and "no-ops when no non-pull clients". *)
Example bridge_queues_before_init :
  let b0 := DiagnosticsBridge.new {| mode := pullToPushBridge; debounceMs := Some 1;
                                     buildRequest := None |} in
  let b1 := DiagnosticsBridge.onFileEvent true "textDocument/didOpen" "file:///queued.ts" b0 in
  let b2 := DiagnosticsBridge.markInitDone true b1 in
  snd (DiagnosticsBridge.onDebounceTimer true "file:///queued.ts" b1) = None
  /\ snd (DiagnosticsBridge.onDebounceTimer true "file:///queued.ts" b2)
     = Some (DiagnosticsBridge.sendRequest "file:///queued.ts"
               (pullDiagnosticsRequest "file:///queued.ts"))
  /\ snd (DiagnosticsBridge.onDebounceTimer false "file:///skip.ts"
            (DiagnosticsBridge.onFileEvent false "textDocument/didOpen" "file:///skip.ts"
               (DiagnosticsBridge.markInitDone false b0))) = None.
Proof. vm_compute. repeat split. Qed.

(* ================================================================== *)
(** ** Vocabulary of the properties *)
(* ================================================================== *)

(** A request, as both [onClientMessage] and [onServerMessage] classify
    it: a method and an identifier, neither nullish; the method is given
    as the handlers receive it ([String(method)]). *)
Definition requestOf (msg : JsonRpcMessage) : option (string * JsonRpcId) :=
  match nonnull (field "method" msg), nonnull (field "id" msg) with
  | Some method, Some id => Some (js_String method, id)
  | _, _ => None
  end.

(** A response: an identifier and no method. *)
Definition responseOf (msg : JsonRpcMessage) : option JsonRpcId :=
  match nonnull (field "method" msg), nonnull (field "id" msg) with
  | None, Some id => Some id
  | _, _ => None
  end.

Definition isInitializeRequest (msg : JsonRpcMessage) : bool :=
  match requestOf msg with
  | Some (method, _) => String.eqb method "initialize"
  | None => false
  end.

(** A message whose [method] is the string [initialize], of any shape. *)
Definition hasMethodInitialize (msg : JsonRpcMessage) : bool :=
  match field "method" msg with
  | Some (JStr m) => String.eqb m "initialize"
  | _ => false
  end.

Definition count_if {A} (p : A -> bool) (l : list A) : nat := length (List.filter p l).

(** The states a mux can be in: those a sequence of events leads to from
    the constructor's. *)
Definition reachable (sp : ServerSpec) (s : MuxState) : Prop :=
  exists tr, fst (run (MuxState_new sp) tr) = s.

(** The method of a message is [initialize], as [onClientRequest] tests it. *)
Definition methodIsInitialize (msg : JsonRpcMessage) : bool :=
  match nonnull (field "method" msg) with
  | Some method => String.eqb (js_String method) "initialize"
  | None => false
  end.

Definition isClientInitialize (e : event) : bool :=
  match e with
  | FromClient _ msg => isInitializeRequest msg
  | _ => false
  end.

(** What a spec must respect for the mux to keep [initialize] to itself:
    its [prepareInitialize] hook leaves the method of the message alone, and
    its [buildRequest] does not build an [initialize]. *)
Definition keepsInitialize (sp : ServerSpec) : Prop :=
  (forall hook, prepareInitialize sp = Some hook ->
     forall msg, field "method" (hook msg) = field "method" msg)
  /\ (forall d build, diagnostics sp = Some d -> buildRequest d = Some build ->
        forall u, methodIsInitialize (build u) = false).

(** What the window of C10 leaves out: the client's own [initialize]
    request and its disconnection. *)
Definition keepsDefaultCapability (c : Z) (e : event) : Prop :=
  match e with
  | Close c' => c' <> c
  | FromClient c' msg => c' = c -> isInitializeRequest msg = false
  | _ => True
  end.

(** The identifiers the mux has minted and not yet consumed: those for the
    server are positive and below the next one, no identifier is in both
    server-facing tables, and those for clients are negative and above the
    next one. *)
Definition ids_fresh (s : MuxState) : Prop :=
  1 <= nextServerRequestId s
  /\ nextForwardedServerReqId s <= -1
  /\ (forall k, is_Some (pendingClientRequests s !! k) -> 1 <= k < nextServerRequestId s)
  /\ (forall k, is_Some (pendingInternalRequests s !! k) -> 1 <= k < nextServerRequestId s)
  /\ (forall k, is_Some (pendingServerRequests s !! k) ->
        nextForwardedServerReqId s < k <= -1).

(** [keepsInitialize], as it shows in a state: on its spec and on the
    configuration its bridge was built with. *)
Definition keepsInitializeState (s : MuxState) : Prop :=
  (forall hook, prepareInitialize (spec s) = Some hook ->
     forall msg, field "method" (hook msg) = field "method" msg)
  /\ (forall b build, diagnosticsBridge s = Some b ->
        buildRequest (DiagnosticsBridge.cfg b) = Some build ->
        forall u, methodIsInitialize (build u) = false).

(** The digits of a decimal number, most significant first. *)
Definition uint_bytes (d : Decimal.uint) : list byte :=
  list_byte_of_string (NilEmpty.string_of_uint d).

(** The header line [encodeMessage] writes. *)
Definition contentLengthHeader (n : nat) : list byte :=
  list_byte_of_string "Content-Length: " ++ decimal n.

(** [h] is a header block: in [h] followed by the blank line, the first
    ["\r\n\r\n"] is the one that ends it. *)
Definition headerBlock (h : list byte) : Prop :=
  indexOf CRLFCRLF (h ++ CRLFCRLF) = Some (length h).

(** A frame: a header block that declares the length of the body, the
    blank line, the body. *)
Definition frame (h body : list byte) : list byte := h ++ CRLFCRLF ++ body.

Definition framed (h body : list byte) : Prop :=
  headerBlock h /\ parseContentLength h = Length (Z.of_nat (length body)).

(** A message the runtime's JSON functions carry faithfully, within the
    size of a [Buffer]. *)
Definition wellEncoded (JSON_stringify : json -> list byte)
    (JSON_parse : list byte -> option json) (m : JsonRpcMessage) : Prop :=
  JSON_parse (JSON_stringify (JObj m)) = Some (JObj m)
  /\ Z.of_nat (length (JSON_stringify (JObj m))) <= 2 ^ 53.

Definition encodeAll (JSON_stringify : json -> list byte) (ms : list JsonRpcMessage)
  : list byte :=
  flat_map (encodeMessage JSON_stringify) ms.

(** The [textDocument/publishDiagnostics] notifications among the messages
    written, with the client each went to. *)
Definition published (out : list output) : list (Z * JsonRpcMessage) :=
  flat_map (fun o => match o with
                     | ToClient c m =>
                         match field "method" m with
                         | Some (JStr k) =>
                             if String.eqb k "textDocument/publishDiagnostics"
                             then [(c, m)] else []
                         | _ => []
                         end
                     | ToServer _ => []
                     end) out.

(* ================================================================== *)
(** ** Vocabulary for the framer that reuses its buffer, the writers and
       the command lines *)
(* ================================================================== *)

(** The bytes received and not yet consumed. *)
Definition pendingBytes (w : Windowed.window) : list byte :=
  Windowed.subarray (Windowed.buffer w) (Windowed.start w) (Windowed.end_ w).

Definition windowOk (w : Windowed.window) : Prop :=
  (Windowed.start w <= Windowed.end_ w <= length (Windowed.buffer w))%nat.

(** [scan], refusing a declared length below zero as the model of the
    reused buffer does. *)
Definition scan_nonneg (JSON_parse : list byte -> option json) (buffer : list byte)
  : scanned :=
  match indexOf CRLFCRLF buffer with
  | None => Break
  | Some headerEnd =>
      match parseContentLength (take headerEnd buffer) with
      | Length n => if n <? 0 then Throw LengthOutsideModel
                    else scan JSON_parse buffer
      | _ => scan JSON_parse buffer
      end
  end.

(** What is left of a stream of encoded messages when some of them have
    been consumed: [P] has been received, [Q] is still to come. *)
Definition inStream (JSON_stringify : json -> list byte)
    (JSON_parse : list byte -> option json) (P Q : list byte) : Prop :=
  exists ms, Forall (wellEncoded JSON_stringify JSON_parse) ms
             /\ P ++ Q = encodeAll JSON_stringify ms.

(** The buffers a trace asks a writer to write, in order. *)
Definition buffersOf (tr : list BufferedWriter.event) : list (list byte) :=
  flat_map (fun e => match e with
                     | BufferedWriter.Write buf => [buf]
                     | BufferedWriter.Drain => []
                     end) tr.

(** What a writer keeps between two calls: it is paused exactly while it
    waits for ["drain"], it queues only while it waits, and it has one
    ["drain"] listener registered while it waits and none otherwise. *)
Definition writerOk (w : BufferedWriter.t) : Prop :=
  BufferedWriter.paused w = BufferedWriter.waitingForDrain w
  /\ (BufferedWriter.waitingForDrain w = false -> BufferedWriter.queue w = [])
  /\ BufferedWriter.drainListeners w
     = (if BufferedWriter.waitingForDrain w then 1 else 0)%nat.

(** The hooks a call makes when it takes the writer from [before] to
    [after] (the values of [paused]). *)
Definition hooksBetween (before after : bool) : list BufferedWriter.hook :=
  match before, after with
  | false, true => [BufferedWriter.onBackpressure]
  | true, false => [BufferedWriter.onResume]
  | _, _ => []
  end.

(** Replays a sequence of hook calls from the paused state [p]: [None] if
    [onBackpressure] comes while paused or [onResume] while not. *)
Fixpoint pausedAfter (p : bool) (hooks : list BufferedWriter.hook) : option bool :=
  match hooks with
  | [] => Some p
  | BufferedWriter.onBackpressure :: hooks => if p then None else pausedAfter true hooks
  | BufferedWriter.onResume :: hooks => if p then pausedAfter false hooks else None
  end.

(** What the mux keeps between two events. *)
Record flowOk (s : Backpressure.t) : Prop := {
  ok_lspWriter : writerOk (Backpressure.lspWriter s);
  ok_clientWriters :
    forall c w, Backpressure.clientWriters s !! c = Some w -> writerOk w;
  ok_backpressured :
    forall c, c ∈ Backpressure.backpressuredClients s
              <-> exists w, Backpressure.clientWriters s !! c = Some w
                            /\ BufferedWriter.paused w = true;
  ok_lspReads :
    Backpressure.lspReadsPaused s = true
    <-> exists c, c ∈ Backpressure.backpressuredClients s;
  ok_stdout : Backpressure.stdoutPaused s = Backpressure.lspReadsPaused s;
  ok_clientReads :
    Backpressure.clientReadsPaused s = BufferedWriter.paused (Backpressure.lspWriter s);
  ok_sockets :
    forall c, c ∈ clients (Backpressure.routing s) ->
              c ∈ Backpressure.socketsPaused s ->
              Backpressure.clientReadsPaused s = true;
  ok_connected :
    forall c, c ∈ clients (Backpressure.routing s)
              <-> is_Some (Backpressure.clientWriters s !! c);
  ok_clientIds :
    forall c, c ∈ clients (Backpressure.routing s) ->
              c < nextClientId (Backpressure.routing s);
  ok_socketIds :
    forall c, c ∈ Backpressure.socketsPaused s ->
              c < nextClientId (Backpressure.routing s)
}.

(** The events of the routing state in a trace. *)
Definition routingEvents (tr : list Backpressure.event) : list event :=
  flat_map (fun e => match e with Backpressure.Routing e => [e] | _ => [] end) tr.

(** What a writer was asked to write: what it handed to its stream and,
    after it, what it still holds. *)
Definition handedOver (w : BufferedWriter.t) : list (list byte) :=
  BufferedWriter.written w ++ BufferedWriter.queue w.

(** What the writers were asked to write follows what the handlers wrote:
    [out] is what the handlers have written so far. *)
Definition delivered (JSON_stringify : json -> list byte)
    (s : Backpressure.t) (out : list output) : Prop :=
  handedOver (Backpressure.lspWriter s) = map (encodeMessage JSON_stringify) (toServer out)
  /\ (forall c, c ∈ clients (Backpressure.routing s) ->
        handedOver <$> Backpressure.clientWriters s !! c
        = Some (map (encodeMessage JSON_stringify) (toClient c out)))
  /\ (forall c, nextClientId (Backpressure.routing s) <= c -> toClient c out = []).

(** [caps?.textDocument?.diagnostic] of the [params.capabilities] of a
    message, as [recordClientCapabilities] reads it. *)
Definition declaredDiagnostic (msg : JsonRpcMessage) : option json :=
  prop "diagnostic" (prop "textDocument" (prop "capabilities" (field "params" msg))).

(** The identifiers of the requests among the messages. *)
Definition requestIds (msgs : list JsonRpcMessage) : list JsonRpcId :=
  flat_map (fun m => match requestOf m with
                     | Some (_, id) => [id]
                     | None => []
                     end) msgs.

(** Every message of a client in the trace comes while the client is
    connected. *)
Fixpoint fromConnected (s : MuxState) (tr : list event) : Prop :=
  match tr with
  | [] => True
  | e :: tr =>
      match e with
      | FromClient c _ => c ∈ clients s
      | _ => True
      end
      /\ fromConnected (fst (step s e)) tr
  end.

(** The bridge is idle: no timer armed, no request in flight. *)
Definition bridgeIdle (b : DiagnosticsBridge.t) : Prop :=
  DiagnosticsBridge.initDone b = false
  /\ DiagnosticsBridge.diagnosticDebounce b = ∅
  /\ DiagnosticsBridge.diagnosticsInFlight b = ∅.

(** As long as initialization is not done, no internal request is pending
    and the bridge is idle. *)
Definition initPending (s : MuxState) : bool :=
  match init s with
  | init_done _ => false
  | _ => true
  end.

Definition quietBeforeInit (s : MuxState) : Prop :=
  initPending s = true ->
  pendingInternalRequests s = ∅
  /\ forall b, diagnosticsBridge s = Some b -> bridgeIdle b.



(** The name of a header line: what comes before its first colon. *)
Definition headerName (line : list byte) : list byte := hd [] (split_colon line).

Definition noCR (l : list byte) : bool := forallb (fun c => negb (Byte.eqb c CR)) l.

(** A header line that [parseContentLength] passes over: it has no
    carriage return and is not named [Content-Length], in any case. *)
Definition otherField (line : list byte) : Prop :=
  noCR line = true
  /\ toLowerCase (headerName line) <> list_byte_of_string "content-length".

(* ================================================================== *)
(** ** Properties of the mux core *)
(* ================================================================== *)

Lemma field_set_field_eq k v o : field k (set_field k v o) = Some v.
Proof.
  induction o as [|[k' v'] o IH]; simpl.
  - now rewrite String.eqb_refl.
  - destruct (String.eqb k k') eqn:E; simpl; rewrite E; auto.
Qed.

Lemma field_set_field_ne k k' v o :
  k <> k' -> field k' (set_field k v o) = field k' o.
Proof.
  intros Hne. induction o as [|[k0 v0] o IH]; simpl.
  - destruct (String.eqb k' k) eqn:E; auto.
    apply String.eqb_eq in E. congruence.
  - destruct (String.eqb k k0) eqn:E; simpl.
    + apply String.eqb_eq in E. subst k0.
      destruct (String.eqb k' k) eqn:E'; auto.
      apply String.eqb_eq in E'. congruence.
    + now rewrite IH.
Qed.

Ltac handlers :=
  unfold step, onClientMessage, onServerMessage, onClientRequest,
    onClientNotification, onClientResponse, onServerResponse, onServerRequest,
    handleInitialize, onInternalServerResponse, onDebounceTimer, bridgeCall,
    sendDiagnosticsRequest, flushQueuedInitialize, maybeTriggerDiagnosticsBridge,
    recordClientCapabilities, addClient, onClose in *.

Ltac cases := repeat (case_match; simplify_eq/=; auto).

Lemma run_cons s e tr :
  run s (e :: tr) =
  (fst (run (fst (step s e)) tr), snd (step s e) ++ snd (run (fst (step s e)) tr)).
Proof. simpl. destruct (step s e) as [s1 o1]. simpl. now destruct (run s1 tr). Qed.

Lemma run_app tr1 : forall s tr2,
  run s (tr1 ++ tr2) =
  (fst (run (fst (run s tr1)) tr2), snd (run s tr1) ++ snd (run (fst (run s tr1)) tr2)).
Proof.
  induction tr1 as [|e tr1 IH]; intros s tr2.
  - simpl. now destruct (run s tr2).
  - rewrite <- app_comm_cons, !run_cons, IH. simpl. now rewrite app_assoc.
Qed.

(** Once the initialize response is cached, the cache never changes. *)
Lemma step_init_done s e cached :
  init s = init_done cached -> init (fst (step s e)) = init_done cached.
Proof.
  intros H. destruct e; handlers; simpl; auto.
  all: cases.
Qed.

Lemma run_init_done tr : forall s cached,
  init s = init_done cached -> init (fst (run s tr)) = init_done cached.
Proof.
  induction tr as [|e tr IH]; intros s cached H; [assumption|].
  rewrite run_cons. simpl. apply IH. now apply step_init_done.
Qed.

(** The response that ends the initialization is recognised by the client
    it answers ([pending.clientId === this.init.primaryClientId]), not by
    the request it answers: of the responses to the requests of the
    initializing client, the first to arrive is the one cached.  Here
    client 1 sends [initialize] and then a second request; the server
    answers the second request first, with an error, and that error is
    what client 2 is given for its [initialize]. *)
Example initialization_ends_at_first_response_to_its_client :
  let initialize i := [("id", JNum i); ("method", JStr "initialize")] in
  let notReady := JObj [("code", JNum (-32002))] in
  snd (run (MuxState_new oxlintSpec)
         [Accept; FromClient 1 (initialize 1);
          FromClient 1 [("id", JNum 2); ("method", JStr "workspace/symbol")];
          FromServer [("id", JNum 2); ("error", notReady)];
          FromServer [("id", JNum 1); ("result", JObj [])];
          Accept; FromClient 2 (initialize 5)])
  = [ToServer (initialize 1);
     ToServer [("id", JNum 2); ("method", JStr "workspace/symbol")];
     ToClient 1 [("id", JNum 2); ("error", notReady)];
     ToClient 1 [("id", JNum 1); ("result", JObj [])];
     ToClient 2 [("jsonrpc", JStr "2.0"); ("id", JNum 5); ("error", notReady)]].
Proof. vm_compute. reflexivity. Qed.

(** No handler writes to a client that is not in the client map. *)
Lemma step_writes_to_connected_only s e c :
  c ∉ clients s -> toClient c (snd (step s e)) = [].
Proof.
  intros Hc.
  assert (Hw : forall s1 m, clients s1 = clients s -> toClient c (writeToClient s1 c m) = []).
  { intros s1 m H1. unfold writeToClient, connected. rewrite H1.
    now rewrite bool_decide_eq_false_2. }
  assert (Hw' : forall s1 c' m, clients s1 = clients s -> toClient c (writeToClient s1 c' m) = []).
  { intros s1 c' m H1. destruct (decide (c = c')) as [<-|Hne]; [now apply Hw|].
    unfold writeToClient. destruct (connected c' s1); [|reflexivity].
    simpl. destruct (Z.eqb_spec c c'); [congruence|reflexivity]. }
  assert (Hmap : forall (l : list Z) (f : Z -> JsonRpcMessage),
             c ∉ l -> toClient c (map (fun c' => ToClient c' (f c')) l) = []).
  { induction l as [|x l IH]; intros f Hl; [reflexivity|].
    simpl. apply not_elem_of_cons in Hl as [Hx Hl].
    destruct (Z.eqb_spec c x); [congruence|]. simpl. now apply IH. }
  assert (Hflush : forall (s1 : MuxState) cached q, clients s1 = clients s ->
             toClient c (flat_map (fun entry => respondWithCachedInit s1 (fst entry) (snd entry) cached) q) = []).
  { intros s1 cached q H1. induction q as [|[c' i] q IH]; [reflexivity|].
    simpl. unfold toClient in *. rewrite flat_map_app, IH, app_nil_r.
    apply (Hw' s1 c' _ H1). }
  assert (Hpub : forall (s1 : MuxState) u d, clients s1 = clients s ->
             toClient c (publishDiagnosticsToNonPullClients s1 u d) = []).
  { intros s1 u d H1. unfold publishDiagnosticsToNonPullClients.
    apply (Hmap _ (fun _ => publishDiagnosticsNotification u d)).
    rewrite H1. intros Hin. apply list_elem_of_filter in Hin. tauto. }
  destruct e; simpl; try reflexivity.
  - handlers. cases; unfold respondWithCachedInit; try (apply Hw'; reflexivity).
  - handlers. unfold broadcast.
    cases;
      try (apply (Hmap _ (fun _ => msg)); assumption);
      try (apply Hpub; reflexivity);
      try (unfold toClient in *; rewrite flat_map_app;
           rewrite ?Hflush by reflexivity;
           apply (Hw' _ _ _ eq_refl)).
    all: try (unfold toClient; rewrite flat_map_app; simpl;
              exact (Hw' _ _ _ eq_refl)).
    all: match goal with
         | H : (?x =? ?z) = true, H' : connected ?z _ = true |- _ =>
             apply Z.eqb_eq in H; subst; apply bool_decide_eq_true in H'; contradiction
         end.
  - handlers. cases.
Qed.

Lemma step_keeps_default_capability s e c :
  keepsDefaultCapability c e ->
  c ∈ clients s -> clientSupportsPullDiagnostics s !! c = Some false ->
  c ∈ clients (fst (step s e))
  /\ clientSupportsPullDiagnostics (fst (step s e)) !! c = Some false.
Proof.
  intros Hk Hin Hcap. destruct e as [|c'|c' msg|msg|u]; simpl in *.
  - unfold addClient, with_clients. simpl. split.
    + unfold clients_set. case_bool_decide; [assumption|]. apply elem_of_app. now left.
    + rewrite lookup_insert. case_decide; [reflexivity|assumption].
  - unfold onClose, with_clients. simpl. split.
    + unfold clients_delete. apply list_elem_of_filter. split; [congruence|assumption].
    + rewrite lookup_delete_ne by assumption. assumption.
  - unfold isInitializeRequest, requestOf in Hk. handlers.
    cases; try (split; assumption).
    all: destruct (decide (c' = c)) as [->|Hne];
      [specialize (Hk eq_refl); congruence|].
    all: split; [assumption|rewrite lookup_insert_ne by assumption; assumption].
  - handlers. cases.
  - handlers. cases.
Qed.

Lemma run_keeps_default_capability tr : forall s c,
  Forall (keepsDefaultCapability c) tr ->
  c ∈ clients s -> clientSupportsPullDiagnostics s !! c = Some false ->
  c ∈ clients (fst (run s tr))
  /\ clientSupportsPullDiagnostics (fst (run s tr)) !! c = Some false.
Proof.
  induction tr as [|e tr IH]; intros s c Hall Hin Hcap; [now split|].
  rewrite run_cons. simpl. inversion Hall as [|? ? He Htr]; subst.
  destruct (step_keeps_default_capability s e c He Hin Hcap) as [H1 H2].
  now apply IH.
Qed.

Lemma publish_when_no_non_pull_client s u diags :
  hasNonPullClients s = false -> publishDiagnosticsToNonPullClients s u diags = [].
Proof.
  unfold hasNonPullClients, publishDiagnosticsToNonPullClients.
  induction (clients s) as [|c l IH]; [reflexivity|].
  simpl. intros H. apply orb_false_iff in H as [Hc Hl].
  rewrite filter_cons. rewrite decide_False by congruence. now apply IH.
Qed.

Lemma diagnosticsOf_unchanged u msg b :
  prop "kind" (field "result" msg) = Some (JStr "unchanged") ->
  DiagnosticsBridge.diagnosticsOf u msg b
  = match DiagnosticsBridge.lastPublishedDiagnostics b !! u with
    | Some items => items
    | None => []
    end.
Proof.
  intros Hk. unfold DiagnosticsBridge.diagnosticsOf, DiagnosticsBridge.is_kind.
  rewrite Hk. reflexivity.
Qed.

(** *** Identifiers minted for the server *)

Lemma step_keeps_pending_entry s e n pending :
  (forall m, e = FromServer m -> responseOf m <> Some (JNum n)) ->
  n < nextServerRequestId s ->
  pendingClientRequests s !! n = Some pending ->
  pendingInternalRequests s !! n = None ->
  n < nextServerRequestId (fst (step s e))
  /\ pendingClientRequests (fst (step s e)) !! n = Some pending
  /\ pendingInternalRequests (fst (step s e)) !! n = None.
Proof.
  intros Hne Hlt Hp Hi. destruct e as [|c'|c' msg|msg|u]; simpl.
  - auto.
  - auto.
  - handlers. cases.
    all: repeat split; try lia; try assumption.
    all: rewrite lookup_insert_ne by lia; assumption.
  - specialize (Hne msg eq_refl). unfold responseOf in Hne. handlers.
    cases.
    all: repeat split; try lia; try assumption.
    all: try (rewrite lookup_delete_ne by congruence; assumption).
    all: try (rewrite lookup_delete_ne by (intros ->; congruence); assumption).
    all: try (rewrite lookup_insert_ne by lia; assumption).
  - handlers. cases.
    all: repeat split; try lia; try assumption.
    all: try (rewrite lookup_insert_ne by lia; assumption).
Qed.

Ltac fresh_goal :=
  split_and!; try lia; try assumption;
  intros ? Hk;
  repeat first
    [ apply lookup_insert_is_Some in Hk as [<-|[? Hk]]
    | apply lookup_delete_is_Some in Hk as [? Hk] ];
  try lia;
  match goal with
  | H : forall k, is_Some (?m !! k) -> _, Hk : is_Some (?m !! _) |- _ =>
      specialize (H _ Hk); lia
  end.

Lemma step_ids_fresh s e : ids_fresh s -> ids_fresh (fst (step s e)).
Proof.
  unfold ids_fresh. intros (H1 & H2 & H3 & H4 & H5).
  destruct e as [|c'|c' msg|msg|u]; simpl.
  - auto.
  - auto.
  - handlers. cases; fresh_goal.
  - handlers. cases; fresh_goal.
  - handlers. cases; fresh_goal.
Qed.

Lemma reachable_ids_fresh sp s : reachable sp s -> ids_fresh s.
Proof.
  intros [tr <-]. 
  assert (H0 : ids_fresh (MuxState_new sp)).
  { unfold ids_fresh. simpl. split_and!; try lia; intros k [x Hx];
      rewrite lookup_empty in Hx; discriminate. }
  revert H0. generalize (MuxState_new sp).
  induction tr as [|e tr IH]; intros s H0; [assumption|].
  rewrite run_cons. simpl. apply IH. now apply step_ids_fresh.
Qed.

Lemma run_keeps_pending_entry tr : forall s n pending,
  Forall (fun e => forall m, e = FromServer m -> responseOf m <> Some (JNum n)) tr ->
  n < nextServerRequestId s ->
  pendingClientRequests s !! n = Some pending ->
  pendingInternalRequests s !! n = None ->
  pendingClientRequests (fst (run s tr)) !! n = Some pending
  /\ pendingInternalRequests (fst (run s tr)) !! n = None.
Proof.
  induction tr as [|e tr IH]; intros s n pending Hall Hlt Hp Hi; [now split|].
  rewrite run_cons. simpl. inversion Hall as [|? ? He Htr]; subst.
  destruct (step_keeps_pending_entry s e n pending He Hlt Hp Hi) as (H1 & H2 & H3).
  now apply IH.
Qed.

(** A client request that the mux forwards: any request but [initialize],
    and the [initialize] that arrives while initialization has not started. *)
Lemma forwarded_request s c req method id :
  requestOf req = Some (method, id) ->
  (method = "initialize" -> init s = not_started) ->
  let n := nextServerRequestId s in
  let s1 := fst (step s (FromClient c req)) in
  nextServerRequestId s1 = n + 1
  /\ pendingClientRequests s1
     = <[n := {| clientId := c; originalId := id |}]> (pendingClientRequests s)
  /\ pendingInternalRequests s1 = pendingInternalRequests s
  /\ exists forwarded,
       snd (step s (FromClient c req)) = [ToServer forwarded]
       /\ field "id" forwarded = Some (JNum n).
Proof.
  intros Hreq Hinit n s1. subst n s1. unfold requestOf in Hreq.
  destruct (nonnull (field "method" req)) as [m|] eqn:Hm; [|discriminate].
  destruct (nonnull (field "id" req)) as [i|] eqn:Hi; [|discriminate].
  injection Hreq as <- <-.
  simpl. unfold onClientMessage. rewrite Hm, Hi. unfold onClientRequest.
  destruct (String.eqb_spec (js_String m) "initialize") as [He|He].
  - specialize (Hinit He). unfold handleInitialize.
    change (init (recordClientCapabilities c req s)) with (init s). rewrite Hinit.
    simpl. destruct (primaryClientId s); simpl; split_and!; try reflexivity.
    + eexists. split; [reflexivity|]. apply field_set_field_eq.
    + eexists. split; [reflexivity|]. apply field_set_field_eq.
  - simpl. split_and!; try reflexivity.
    eexists. split; [reflexivity|]. apply field_set_field_eq.
Qed.

(** *** The [initialize] requests the server sees *)

Lemma toServer_app a b : toServer (a ++ b) = toServer a ++ toServer b.
Proof. unfold toServer. apply flat_map_app. Qed.

Lemma toServer_writeToClient s c m : toServer (writeToClient s c m) = [].
Proof. unfold writeToClient. now destruct (connected c s). Qed.

Lemma toServer_to_clients (l : list Z) (f : Z -> JsonRpcMessage) :
  toServer (map (fun c => ToClient c (f c)) l) = [].
Proof. induction l; simpl; auto. Qed.

Lemma toServer_broadcast s m : toServer (broadcast s m) = [].
Proof. apply (toServer_to_clients _ (fun _ => m)). Qed.

Lemma toServer_publish s u d : toServer (publishDiagnosticsToNonPullClients s u d) = [].
Proof. apply (toServer_to_clients _ (fun _ => publishDiagnosticsNotification u d)). Qed.

Lemma toServer_flush s cached q :
  toServer (flat_map (fun entry : Z * JsonRpcId =>
              respondWithCachedInit s (fst entry) (snd entry) cached) q) = [].
Proof.
  induction q as [|[c i] q IH]; [reflexivity|].
  simpl. rewrite toServer_app, IH. unfold respondWithCachedInit.
  now rewrite toServer_writeToClient.
Qed.

Lemma isInitializeRequest_set_id n m :
  isInitializeRequest (set_field "id" (JNum n) m) = methodIsInitialize m.
Proof.
  unfold isInitializeRequest, requestOf, methodIsInitialize.
  rewrite field_set_field_eq, field_set_field_ne by discriminate. simpl.
  now destruct (nonnull (field "method" m)).
Qed.

Lemma isInitializeRequest_no_method m :
  nonnull (field "method" m) = None -> isInitializeRequest m = false.
Proof. unfold isInitializeRequest, requestOf. now intros ->. Qed.

Lemma isInitializeRequest_no_id m :
  nonnull (field "id" m) = None -> isInitializeRequest m = false.
Proof.
  unfold isInitializeRequest, requestOf. intros ->.
  now destruct (nonnull (field "method" m)).
Qed.

Lemma isInitializeRequest_set_id_no_method i m :
  nonnull (field "method" m) = None ->
  isInitializeRequest (set_field "id" i m) = false.
Proof.
  intros H. apply isInitializeRequest_no_method.
  now rewrite field_set_field_ne by discriminate.
Qed.

Lemma spec_step s e : spec (fst (step s e)) = spec s.
Proof. destruct e; handlers; simpl; auto; cases. Qed.

Lemma bridge_cfg_step s e b' :
  diagnosticsBridge (fst (step s e)) = Some b' ->
  exists b, diagnosticsBridge s = Some b
            /\ DiagnosticsBridge.cfg b' = DiagnosticsBridge.cfg b.
Proof.
  assert (Hsched : forall h u b,
             DiagnosticsBridge.cfg (DiagnosticsBridge.schedule h u b)
             = DiagnosticsBridge.cfg b).
  { intros h u b. unfold DiagnosticsBridge.schedule. cases. }
  assert (Hmark : forall h b,
             DiagnosticsBridge.cfg (DiagnosticsBridge.markInitDone h b)
             = DiagnosticsBridge.cfg b).
  { intros h b. unfold DiagnosticsBridge.markInitDone.
    assert (Hfold : forall q b0,
               DiagnosticsBridge.cfg
                 (fold_left (fun acc uri => DiagnosticsBridge.schedule h uri acc) q b0)
               = DiagnosticsBridge.cfg b0).
    { induction q as [|u q IH]; intros b0; [reflexivity|].
      simpl. rewrite IH. apply Hsched. }
    now rewrite Hfold. }
  intros H. destruct e as [|c'|c' msg|msg|u]; simpl in H.
  - eauto.
  - eauto.
  - handlers. unfold DiagnosticsBridge.onFileEvent, DiagnosticsBridge.onDidClose in *.
    revert H. cases; intros; simplify_eq/=; eauto.
    all: try (eexists; split; [reflexivity|]; simpl; rewrite ?Hsched; reflexivity).
  - handlers. unfold DiagnosticsBridge.onServerResponse in *.
    revert H. cases; intros; simplify_eq/=; eauto.
    all: try (eexists; split; [reflexivity|]; simpl; rewrite ?Hmark; reflexivity).
  - handlers.
    unfold DiagnosticsBridge.onDebounceTimer, DiagnosticsBridge.request in *.
    revert H. cases; intros; simplify_eq/=; eauto.
Qed.

Lemma step_keepsInitializeState s e :
  keepsInitializeState s -> keepsInitializeState (fst (step s e)).
Proof.
  intros [Hh Hb]. split.
  - rewrite spec_step. exact Hh.
  - intros b' build Hb' Hbuild.
    destruct (bridge_cfg_step s e b' Hb') as (b & H1 & H2).
    rewrite H2 in Hbuild. exact (Hb b build H1 Hbuild).
Qed.

Lemma new_keepsInitializeState sp :
  keepsInitialize sp -> keepsInitializeState (MuxState_new sp).
Proof.
  intros [Hh Hb]. split; [exact Hh|].
  intros b build. simpl.
  destruct (diagnostics sp) as [d|] eqn:Hd; [|discriminate].
  destruct d as [[] deb br]; [discriminate|].
  intros [= <-]. simpl. intros Hbr. eapply Hb; eauto.
Qed.

Lemma count_if_nil {A} (p : A -> bool) : count_if p [] = 0%nat.
Proof. reflexivity. Qed.

Lemma count_if_one {A} (p : A -> bool) x :
  count_if p [x] = if p x then 1%nat else 0%nat.
Proof. unfold count_if. simpl. now destruct (p x). Qed.

Lemma count_if_app {A} (p : A -> bool) l1 l2 :
  count_if p (l1 ++ l2) = (count_if p l1 + count_if p l2)%nat.
Proof. unfold count_if. now rewrite List.filter_app, length_app. Qed.

Ltac to_server :=
  rewrite ?toServer_app, ?toServer_writeToClient, ?toServer_broadcast,
    ?toServer_publish, ?toServer_flush;
  unfold respondWithCachedInit; rewrite ?toServer_writeToClient;
  unfold writeToServer; simpl toServer;
  rewrite ?count_if_nil, ?count_if_one.

Lemma step_initialize_count s e :
  keepsInitializeState s ->
  count_if isInitializeRequest (toServer (snd (step s e)))
  = (if isClientInitialize e
     then match init s with not_started => 1%nat | _ => 0%nat end
     else 0%nat)
  /\ (init (fst (step s e)) = not_started
      <-> init s = not_started /\ isClientInitialize e = false).
Proof.
  intros [Hh Hb]. destruct e as [|c'|c' msg|msg|u]; simpl.
  - tauto.
  - tauto.
  - unfold onClientMessage.
    destruct (nonnull (field "method" msg)) as [m|] eqn:Hm;
      destruct (nonnull (field "id" msg)) as [i|] eqn:Hi.
    + assert (Hir : isInitializeRequest msg = String.eqb (js_String m) "initialize").
      { unfold isInitializeRequest, requestOf. now rewrite Hm, Hi. }
      rewrite Hir. unfold onClientRequest.
      destruct (String.eqb (js_String m) "initialize") eqn:He.
      * unfold handleInitialize.
        change (init (recordClientCapabilities c' msg s)) with (init s).
        destruct (init s) eqn:Hinit; simpl.
        -- to_server. rewrite isInitializeRequest_set_id.
           assert (Hmi : forall s1, spec s1 = spec s ->
                     methodIsInitialize (prepareInitializeForServer s1 msg) = true).
           { intros s1 H1. unfold prepareInitializeForServer, methodIsInitialize.
             rewrite H1. destruct (prepareInitialize (spec s)) as [hook|].
             - rewrite (Hh hook eq_refl msg), Hm. exact He.
             - rewrite Hm. exact He. }
           destruct (primaryClientId s); rewrite Hmi by reflexivity;
             (split; [reflexivity|]); simpl; split; intros; try discriminate;
             destruct H; discriminate.
        -- to_server. split; [reflexivity|]. rewrite Hinit. split; intros; try discriminate.
           destruct H; discriminate.
        -- to_server. split; [reflexivity|]. rewrite Hinit. split; intros; try discriminate.
           destruct H; discriminate.
      * simpl. to_server. rewrite isInitializeRequest_set_id.
        unfold methodIsInitialize. rewrite Hm, He. tauto.
    + rewrite (isInitializeRequest_no_id msg Hi).
      unfold onClientNotification, maybeTriggerDiagnosticsBridge.
      cases; to_server; rewrite ?(isInitializeRequest_no_id msg Hi); tauto.
    + rewrite (isInitializeRequest_no_method msg Hm).
      unfold onClientResponse.
      cases; to_server;
        rewrite ?(isInitializeRequest_no_method msg Hm),
                ?(isInitializeRequest_set_id_no_method _ msg Hm); tauto.
    + rewrite (isInitializeRequest_no_method msg Hm). to_server.
      rewrite (isInitializeRequest_no_method msg Hm). tauto.
  - handlers. cases; to_server; try tauto.
    all: simpl; (split; [reflexivity|]); split; [intros ?|intros [? ?]]; congruence.
  - handlers. cases; to_server; try tauto.
    all: rewrite isInitializeRequest_set_id.
    + match goal with
      | H : diagnosticsBridge s = Some ?b |- _ =>
          unfold DiagnosticsBridge.onDebounceTimer, DiagnosticsBridge.request in *;
          repeat (case_match; simplify_eq/=)
      end.
      all: try tauto.
      match goal with
      | H : buildRequest _ = Some ?l, H' : methodIsInitialize (?l ?u) = true |- _ =>
          rewrite (Hb _ l eq_refl H u) in H'; discriminate
      end.
Qed.

Lemma run_initialize_count tr : forall s,
  keepsInitializeState s ->
  count_if isInitializeRequest (toServer (snd (run s tr)))
  = match init s with
    | not_started => if existsb isClientInitialize tr then 1%nat else 0%nat
    | _ => 0%nat
    end.
Proof.
  induction tr as [|e tr IH]; intros s Hs.
  - simpl. now destruct (init s).
  - rewrite run_cons. simpl snd. rewrite toServer_app, count_if_app.
    destruct (step_initialize_count s e Hs) as [Hcount Hinit].
    rewrite Hcount, (IH _ (step_keepsInitializeState s e Hs)). simpl existsb.
    destruct (init s) eqn:Hi.
    + destruct (isClientInitialize e) eqn:He; simpl.
      * destruct (init (fst (step s e))) eqn:Hi'; [|reflexivity..].
        destruct (proj1 Hinit eq_refl). discriminate.
      * rewrite (proj2 Hinit (conj eq_refl eq_refl)). reflexivity.
    + destruct (init (fst (step s e))) eqn:Hi'.
      * destruct (proj1 Hinit eq_refl). discriminate.
      * now destruct (isClientInitialize e).
      * now destruct (isClientInitialize e).
    + destruct (init (fst (step s e))) eqn:Hi'.
      * destruct (proj1 Hinit eq_refl). discriminate.
      * now destruct (isClientInitialize e).
      * now destruct (isClientInitialize e).
Qed.

Lemma run_keepsInitializeState tr : forall s,
  keepsInitializeState s -> keepsInitializeState (fst (run s tr)).
Proof.
  induction tr as [|e tr IH]; intros s Hs; [assumption|].
  rewrite run_cons. simpl. apply IH. now apply step_keepsInitializeState.
Qed.

Lemma oxlintSpec_keepsInitialize : keepsInitialize oxlintSpec.
Proof. split; [discriminate|]. intros d build [= <-]. discriminate. Qed.

Lemma tsgoSpec_keepsInitialize : keepsInitialize tsgoSpec.
Proof.
  split.
  - intros hook [= <-] msg. unfold injectPullDiagnostics.
    destruct (truthy _); [reflexivity|]. apply field_set_field_ne. discriminate.
  - intros d build [= <-] [= <-] u. reflexivity.
Qed.

(* ================================================================== *)
(** ** Properties of the framer *)
(* ================================================================== *)

(** *** Decimal lengths *)

Lemma uint_bytes_digits d : forallb is_digit (uint_bytes d) = true.
Proof. induction d; simpl; auto. Qed.

Lemma uint_bytes_value d : forall acc : nat,
  fold_left (fun a c => 10 * a + digit_value c) (uint_bytes d) (Z.of_nat acc)
  = Z.of_nat (Nat.of_uint_acc d acc).
Proof.
  induction d; intros acc; simpl; try reflexivity.
  all: rewrite Nat.tail_mul_spec.
  all: match goal with
       | |- fold_left _ _ ?z = Z.of_nat (Nat.of_uint_acc _ ?k) =>
           replace z with (Z.of_nat k)
             by (unfold digit_value; simpl Byte.to_N; lia)
       end.
  all: apply IHd.
Qed.

Lemma decimal_digits n : forallb is_digit (decimal n) = true.
Proof.
  unfold decimal, NilZero.string_of_uint.
  destruct (Nat.to_uint n) eqn:E; try reflexivity.
  all: rewrite <- E; apply (uint_bytes_digits (Nat.to_uint n)).
Qed.

Lemma decimal_nonempty n : nonempty (decimal n) = true.
Proof.
  unfold decimal, NilZero.string_of_uint.
  destruct (Nat.to_uint n); reflexivity.
Qed.

Lemma decimal_value n : digits_value (decimal n) = Z.of_nat n.
Proof.
  unfold decimal, digits_value, NilZero.string_of_uint.
  rewrite <- (Unsigned.of_to n) at 2. unfold Nat.of_uint.
  destruct (Nat.to_uint n) eqn:E; try reflexivity.
  all: rewrite <- E; apply (uint_bytes_value (Nat.to_uint n) 0).
Qed.

Lemma digit_facts c :
  is_digit c = true ->
  is_space c = false /\ is_sign c = false /\ in_range 0 127 c = true
  /\ Byte.eqb c CR = false /\ Byte.eqb c ":"%byte = false.
Proof. destruct c; intros H; try discriminate H; repeat split. Qed.

Lemma digit_not_CR c : is_digit c = true -> negb (Byte.eqb c CR) = true.
Proof. intros H. now rewrite (proj1 (proj2 (proj2 (proj2 (digit_facts c H))))). Qed.

Lemma digit_not_colon c : is_digit c = true -> negb (Byte.eqb c ":"%byte) = true.
Proof. intros H. now rewrite (proj2 (proj2 (proj2 (proj2 (digit_facts c H))))). Qed.

(** *** Splitting and trimming *)

Lemma split_crlf_no_CR l :
  forallb (fun c => negb (Byte.eqb c CR)) l = true -> split_crlf l = [l].
Proof.
  induction l as [|c l IH]; [reflexivity|].
  simpl. intros H. apply andb_true_iff in H as [Hc Hl].
  apply negb_true_iff in Hc. rewrite Hc. simpl.
  destruct l as [|d l']; [reflexivity|].
  now rewrite (IH Hl).
Qed.

Lemma split_colon_no_colon l :
  forallb (fun c => negb (Byte.eqb c ":"%byte)) l = true -> split_colon l = [l].
Proof.
  induction l as [|c l IH]; [reflexivity|].
  simpl. intros H. apply andb_true_iff in H as [Hc Hl].
  apply negb_true_iff in Hc. rewrite Hc. now rewrite (IH Hl).
Qed.

Lemma forallb_digit_impl (p : byte -> bool) l :
  (forall c, is_digit c = true -> p c = true) ->
  forallb is_digit l = true -> forallb p l = true.
Proof.
  intros Hp H. rewrite forallb_forall in *. intros c Hc. apply Hp, H, Hc.
Qed.

Lemma trimStart_not_space c l : is_space c = false -> trimStart (c :: l) = c :: l.
Proof. simpl. now intros ->. Qed.

Lemma trim_digits l : forallb is_digit l = true -> trim l = l.
Proof.
  intros H. unfold trim.
  assert (Hts : forall l', forallb is_digit l' = true -> trimStart l' = l').
  { intros [|c l'] H'; [reflexivity|].
    simpl in H'. apply andb_true_iff in H' as [Hc _].
    apply trimStart_not_space. now apply digit_facts. }
  rewrite (Hts l H). rewrite Hts; [apply rev_involutive|].
  rewrite forallb_forall in *. intros c Hc. apply H. now apply in_rev.
Qed.

Lemma Number_decimal n :
  Z.of_nat n <= 2 ^ 53 -> Number (decimal n) = NumInt (Z.of_nat n).
Proof.
  intros Hn. unfold Number.
  pose proof (decimal_digits n) as Hd. pose proof (decimal_nonempty n) as Hne.
  rewrite (forallb_digit_impl (in_range 0 127) _ (fun c H => proj1 (proj2 (proj2 (digit_facts c H)))) Hd).
  simpl negb. cbv iota. rewrite (trim_digits _ Hd).
  destruct (decimal n) as [|c r] eqn:E; [discriminate|].
  assert (Hc : is_digit c = true) by (simpl in Hd; now apply andb_true_iff in Hd).
  destruct (digit_facts c Hc) as (_ & Hsign & _).
  rewrite Hsign. rewrite Hd. simpl nonempty. simpl andb.
  rewrite <- E, decimal_value.
  destruct (Z.leb_spec (Z.of_nat n) (2 ^ 53)); [|lia].
  destruct (Byte.eqb c "-"%byte) eqn:Hm; [|reflexivity].
  unfold is_sign in Hsign. rewrite Hm in Hsign. now rewrite orb_true_r in Hsign.
Qed.

Lemma contentLengthHeader_no_CR n :
  forallb (fun c => negb (Byte.eqb c CR)) (contentLengthHeader n) = true.
Proof.
  unfold contentLengthHeader. rewrite forallb_app. apply andb_true_iff. split.
  - reflexivity.
  - apply (forallb_digit_impl _ _ digit_not_CR), decimal_digits.
Qed.

Lemma parseContentLength_header n :
  Z.of_nat n <= 2 ^ 53 ->
  parseContentLength (contentLengthHeader n) = Length (Z.of_nat n).
Proof.
  intros Hn. unfold parseContentLength.
  rewrite (split_crlf_no_CR _ (contentLengthHeader_no_CR n)).
  unfold contentLengthHeader. simpl.
  assert (Hsplit : split_colon (decimal n) = [decimal n]).
  { apply split_colon_no_colon.
    apply (forallb_digit_impl _ _ digit_not_colon), decimal_digits. }
  rewrite Hsplit. simpl.
  assert (Htrim : trim (" "%byte :: decimal n) = decimal n).
  { unfold trim. simpl trimStart at 2.
    pose proof (trim_digits _ (decimal_digits n)) as H. unfold trim in H.
    exact H. }
  rewrite Htrim, (Number_decimal n Hn). reflexivity.
Qed.

(** *** Finding the end of the header block *)

Lemma starts_with_app p : forall b c,
  starts_with p b = true -> starts_with p (b ++ c) = true.
Proof.
  induction p as [|x p IH]; intros [|y b] c H; simpl in *; try congruence.
  apply andb_true_iff in H as [H1 H2]. now rewrite H1, (IH b c H2).
Qed.

Lemma starts_with_length p : forall b,
  starts_with p b = true -> (length p <= length b)%nat.
Proof.
  induction p as [|x p IH]; intros [|y b] H; simpl in *; try lia; try discriminate.
  apply andb_true_iff in H as [_ H]. specialize (IH b H). lia.
Qed.

Lemma indexOf_bound p b : forall i,
  indexOf p b = Some i -> (i + length p <= length b)%nat.
Proof.
  induction b as [|y b IH]; intros j H; simpl in H.
  - destruct (starts_with p []) eqn:E; [|discriminate]. injection H as <-.
    apply starts_with_length in E. simpl in *. lia.
  - destruct (starts_with p (y :: b)) eqn:E.
    + injection H as <-. apply starts_with_length in E. simpl in *. lia.
    + destruct (indexOf p b) as [k|] eqn:Ek; [|discriminate].
      injection H as <-. specialize (IH k eq_refl). simpl. lia.
Qed.

Lemma starts_with_prefix p : forall b c,
  starts_with p (b ++ c) = true -> (length p <= length b)%nat ->
  starts_with p b = true.
Proof.
  induction p as [|x p IH]; intros [|y b] c H Hl; simpl in *; try lia; auto.
  apply andb_true_iff in H as [H1 H2]. rewrite H1. simpl.
  apply (IH b c H2). lia.
Qed.

Lemma indexOf_app p b : forall c i,
  indexOf p b = Some i -> indexOf p (b ++ c) = Some i.
Proof.
  induction b as [|y b IH]; intros c i H.
  - simpl in H. destruct (starts_with p []) eqn:E; [|discriminate].
    injection H as <-. destruct p; [|discriminate].
    destruct c; reflexivity.
  - simpl in H. destruct (starts_with p (y :: b)) eqn:E.
    + injection H as <-.
      change ((y :: b) ++ c) with (y :: (b ++ c)). simpl.
      change (y :: (b ++ c)) with ((y :: b) ++ c).
      now rewrite (starts_with_app p (y :: b) c E).
    + destruct (indexOf p b) as [j|] eqn:Ej; [|discriminate].
      injection H as <-.
      change ((y :: b) ++ c) with (y :: (b ++ c)).
      simpl. rewrite (IH c j eq_refl). simpl.
      destruct (starts_with p (y :: b ++ c)) eqn:E'; [|reflexivity].
      apply indexOf_bound in Ej.
      rewrite (starts_with_prefix p (y :: b) c E') in E; [discriminate|].
      simpl. lia.
Qed.

Lemma headerBlock_no_CR h :
  forallb (fun c => negb (Byte.eqb c CR)) h = true -> headerBlock h.
Proof.
  unfold headerBlock. induction h as [|c h IH]; intros H; [reflexivity|].
  simpl in H. apply andb_true_iff in H as [Hc Hh]. apply negb_true_iff in Hc.
  assert (Hc' : Byte.eqb CR c = false).
  { destruct (Byte.eqb CR c) eqn:E; [|reflexivity].
    apply byte_dec_bl in E. subst c. discriminate. }
  change ((c :: h) ++ CRLFCRLF) with (c :: (h ++ CRLFCRLF)).
  simpl. rewrite Hc'. simpl. now rewrite (IH Hh).
Qed.

Lemma headerBlock_found h rest :
  headerBlock h -> indexOf CRLFCRLF (h ++ CRLFCRLF ++ rest) = Some (length h).
Proof. intros H. rewrite app_assoc. now apply indexOf_app. Qed.

Lemma headerBlock_incomplete h P Q :
  headerBlock h -> P ++ Q = h ++ CRLFCRLF -> Q <> [] -> indexOf CRLFCRLF P = None.
Proof.
  intros Hh HPQ HQ. destruct (indexOf CRLFCRLF P) as [i|] eqn:E; [|reflexivity].
  pose proof (indexOf_bound _ _ _ E) as Hb.
  apply (indexOf_app _ _ Q) in E. rewrite HPQ, Hh in E. injection E as <-.
  apply (f_equal (@length byte)) in HPQ. rewrite !length_app in HPQ. simpl in *.
  destruct Q; [congruence|]. simpl in HPQ. lia.
Qed.

Lemma prefix_split {A} (P Q X Y : list A) :
  P ++ Q = X ++ Y ->
  ((length P < length X)%nat -> exists Q', P ++ Q' = X /\ Q' <> [])
  /\ ((length X <= length P)%nat -> exists P', P = X ++ P' /\ P' ++ Q = Y).
Proof.
  intros H. apply app_eq_app in H as [l [[-> ->]|[-> ->]]].
  - split.
    + intros Hl. rewrite length_app in Hl. lia.
    + intros _. now exists l.
  - split.
    + intros Hl. exists l. split; [reflexivity|].
      intros ->. rewrite app_nil_r in Hl. lia.
    + intros Hl. rewrite length_app in Hl. destruct l; [|simpl in Hl; lia].
      exists []. now rewrite !app_nil_r.
Qed.

(** *** Slices that stay inside the buffer *)

Lemma slice_inside b (i j : nat) :
  (i <= j <= length b)%nat ->
  slice b (Z.of_nat i) (Z.of_nat j) = take (j - i) (drop i b).
Proof.
  intros H. unfold slice, clamp.
  destruct (Z.ltb_spec (Z.of_nat i) 0); [lia|].
  destruct (Z.ltb_spec (Z.of_nat j) 0); [lia|].
  rewrite !Z.min_l by lia. rewrite <- Nat2Z.inj_sub by lia.
  now rewrite !Nat2Z.id.
Qed.

Lemma slice_middle (x body rest : list byte) :
  slice (x ++ body ++ rest) (Z.of_nat (length x))
        (Z.of_nat (length x) + Z.of_nat (length body)) = body.
Proof.
  rewrite <- Nat2Z.inj_add. rewrite slice_inside by (rewrite !length_app; lia).
  rewrite drop_app_length.
  replace (length x + length body - length x)%nat with (length body) by lia.
  apply take_app_length.
Qed.

Lemma slice_rest (x rest : list byte) :
  slice (x ++ rest) (Z.of_nat (length x)) (Z.of_nat (length (x ++ rest))) = rest.
Proof.
  rewrite slice_inside by (rewrite !length_app; lia).
  rewrite drop_app_length. apply take_ge. rewrite length_app. lia.
Qed.

(** *** One pass of the loop *)

Section FramerProperties.

Variable JSON_stringify : json -> list byte.
Variable JSON_parse : list byte -> option json.

Lemma scan_header_incomplete h P Q :
  headerBlock h -> P ++ Q = h ++ CRLFCRLF -> Q <> [] -> scan JSON_parse P = Break.
Proof.
  intros Hh HPQ HQ. unfold scan.
  now rewrite (headerBlock_incomplete h P Q Hh HPQ HQ).
Qed.

Lemma scan_header_complete h rest :
  headerBlock h ->
  scan JSON_parse (h ++ CRLFCRLF ++ rest)
  = match parseContentLength h with
    | NoLength => Throw (MissingContentLength h)
    | LengthNotModelled => Throw LengthOutsideModel
    | Length n =>
        let b := h ++ CRLFCRLF ++ rest in
        let messageStart := Z.of_nat (length h) + 4 in
        if Z.of_nat (length b) <? messageStart + n then Break
        else match JSON_parse (slice b messageStart (messageStart + n)) with
             | None => Throw (JsonSyntaxError (slice b messageStart (messageStart + n)))
             | Some m => Yield m (slice b (messageStart + n) (Z.of_nat (length b)))
             end
    end.
Proof.
  intros Hh. unfold scan. rewrite (headerBlock_found h rest Hh).
  now rewrite take_app_length.
Qed.

Lemma scan_frame h body rest :
  framed h body ->
  scan JSON_parse (frame h body ++ rest)
  = match JSON_parse body with
    | Some m => Yield m rest
    | None => Throw (JsonSyntaxError body)
    end.
Proof.
  intros [Hh Hn]. unfold frame. rewrite <- !app_assoc.
  rewrite (scan_header_complete h (body ++ rest) Hh), Hn. cbv zeta.
  rewrite (app_assoc h CRLFCRLF (body ++ rest)).
  assert (Hlen : Z.of_nat (length h) + 4 = Z.of_nat (length (h ++ CRLFCRLF))).
  { rewrite length_app. simpl. lia. }
  rewrite Hlen, slice_middle.
  destruct (Z.ltb_spec (Z.of_nat (length ((h ++ CRLFCRLF) ++ body ++ rest)))
              (Z.of_nat (length (h ++ CRLFCRLF)) + Z.of_nat (length body))) as [Hlt|_].
  { rewrite !length_app in Hlt. lia. }
  destruct (JSON_parse body); [|reflexivity].
  rewrite <- Nat2Z.inj_add, <- length_app, (app_assoc (h ++ CRLFCRLF) body rest).
  now rewrite slice_rest.
Qed.

Lemma scan_frame_incomplete h body P Q :
  framed h body -> P ++ Q = frame h body -> Q <> [] -> scan JSON_parse P = Break.
Proof.
  intros [Hh Hn] HPQ HQ. unfold frame in HPQ. rewrite app_assoc in HPQ.
  destruct (prefix_split _ _ _ _ HPQ) as [Hshort Hlong].
  destruct (Nat.lt_ge_cases (length P) (length (h ++ CRLFCRLF))) as [Hl|Hl].
  - destruct (Hshort Hl) as (Q' & HQ' & Hne).
    exact (scan_header_incomplete h P Q' Hh HQ' Hne).
  - destruct (Hlong Hl) as (body' & -> & Hbody).
    rewrite <- app_assoc, (scan_header_complete h body' Hh), Hn. cbv zeta.
    destruct (Z.ltb_spec (Z.of_nat (length (h ++ CRLFCRLF ++ body')))
                (Z.of_nat (length h) + 4 + Z.of_nat (length body))) as [_|Hge];
      [reflexivity|].
    apply (f_equal (@length byte)) in Hbody. rewrite !length_app in *.
    destruct Q; [congruence|]. simpl in *. lia.
Qed.

End FramerProperties.

(** *** The loop terminates *)

Section Termination.

Variable JSON_parse : list byte -> option json.

(** [JSON.parse("")] throws. *)
Hypothesis parse_empty : JSON_parse [] = None.

(** A pass that yields a message leaves a strictly shorter buffer, whatever
    length the header declared. *)
Lemma scan_yield_shrinks b m rest :
  scan JSON_parse b = Yield m rest -> (length rest < length b)%nat.
Proof.
  unfold scan. destruct (indexOf CRLFCRLF b) as [headerEnd|] eqn:Hidx; [|discriminate].
  destruct (parseContentLength (take headerEnd b)) as [n| |]; try discriminate.
  destruct (Z.ltb_spec (Z.of_nat (length b)) (Z.of_nat headerEnd + 4 + n)); [discriminate|].
  destruct (JSON_parse (slice b (Z.of_nat headerEnd + 4) (Z.of_nat headerEnd + 4 + n)))
    as [m'|] eqn:Hparse; [|discriminate].
  intros [= <- <-].
  assert (Hbody : slice b (Z.of_nat headerEnd + 4) (Z.of_nat headerEnd + 4 + n) <> [])
    by (intros Hnil; rewrite Hnil, parse_empty in Hparse; discriminate).
  pose proof (indexOf_bound _ _ _ Hidx) as Hb. simpl in Hb.
  unfold slice in *.
  set (len := Z.of_nat (length b)) in *.
  set (e := clamp len (Z.of_nat headerEnd + 4 + n)) in *.
  assert (He : 0 < e <= len).
  { assert (Hs : clamp len (Z.of_nat headerEnd + 4) = Z.of_nat headerEnd + 4).
    { unfold clamp. destruct (Z.ltb_spec (Z.of_nat headerEnd + 4) 0); lia. }
    rewrite Hs in Hbody.
    assert (0 <= e <= len).
    { unfold e, clamp. destruct (Z.ltb_spec (Z.of_nat headerEnd + 4 + n) 0); lia. }
    destruct (Z.le_gt_cases e (Z.of_nat headerEnd + 4)) as [Hle|Hgt]; [|lia].
    exfalso. apply Hbody.
    replace (Z.to_nat (e - (Z.of_nat headerEnd + 4))) with 0%nat by lia.
    reflexivity. }
  assert (Hlen : clamp len len = len).
  { unfold clamp. destruct (Z.ltb_spec len 0); lia. }
  rewrite Hlen. rewrite length_take, length_drop. lia.
Qed.

(** With fuel beyond the length of the buffer, [drain] does not run out. *)
Lemma drain_fuel_suffices fuel : forall b,
  (length b < fuel)%nat -> snd (drain JSON_parse fuel b) <> inr OutOfFuel.
Proof.
  induction fuel as [|fuel IH]; intros b Hlt; [lia|].
  simpl. destruct (scan JSON_parse b) as [|e|m rest] eqn:Hscan; simpl; try discriminate.
  - unfold scan in Hscan. repeat case_match; simplify_eq; discriminate.
  - pose proof (scan_yield_shrinks b m rest Hscan) as Hshrink.
    specialize (IH rest ltac:(lia)).
    destruct (drain JSON_parse fuel rest). exact IH.
Qed.

(** [readMessages] never gives up for lack of fuel. *)
Lemma readLoop_fuel_suffices chunks : forall b,
  ended (readLoop JSON_parse b chunks) <> OutOfFuel.
Proof.
  induction chunks as [|c chunks IH]; intros b; [discriminate|].
  cbn [readLoop].
  pose proof (drain_fuel_suffices (S (length (b ++ c))) (b ++ c) (Nat.lt_succ_diag_r _)) as H.
  destruct (drain JSON_parse (S (length (b ++ c))) (b ++ c)) as [ms [b'|e]]; simpl in *.
  - apply IH.
  - congruence.
Qed.

End Termination.

(** *** Streams of encoded messages *)

Lemma encodeMessage_frame JSON_stringify m :
  encodeMessage JSON_stringify m
  = frame (contentLengthHeader (length (JSON_stringify (JObj m))))
          (JSON_stringify (JObj m)).
Proof. unfold encodeMessage, frame, contentLengthHeader. now rewrite <- !app_assoc. Qed.

Lemma encodeMessage_framed JSON_stringify m :
  Z.of_nat (length (JSON_stringify (JObj m))) <= 2 ^ 53 ->
  framed (contentLengthHeader (length (JSON_stringify (JObj m))))
         (JSON_stringify (JObj m)).
Proof.
  intros Hn. split.
  - apply headerBlock_no_CR, contentLengthHeader_no_CR.
  - now apply parseContentLength_header.
Qed.

Lemma encodeAll_cons JSON_stringify m ms :
  encodeAll JSON_stringify (m :: ms)
  = encodeMessage JSON_stringify m ++ encodeAll JSON_stringify ms.
Proof. reflexivity. Qed.

Section Streams.

Variable JSON_stringify : json -> list byte.
Variable JSON_parse : list byte -> option json.

(** What follows the complete messages of the stream: every prefix of
    [tail] shorter than [k] makes the loop wait for more bytes, every
    longer one makes it throw [e]. *)
Variable tail : list byte.
Variable k : nat.
Variable e : ending.
Hypothesis tail_scan : forall P Q,
  P ++ Q = tail ->
  ((length P < k)%nat -> scan JSON_parse P = Break)
  /\ ((k <= length P)%nat -> scan JSON_parse P = Throw e).

Lemma drain_stream ms :
  Forall (wellEncoded JSON_stringify JSON_parse) ms ->
  forall P Q fuel,
    P ++ Q = encodeAll JSON_stringify ms ++ tail ->
    (length P < fuel)%nat ->
    (exists ms1 ms2 P',
        ms = ms1 ++ ms2
        /\ drain JSON_parse fuel P = (map JObj ms1, inl P')
        /\ scan JSON_parse P' = Break
        /\ P' ++ Q = encodeAll JSON_stringify ms2 ++ tail)
    \/ (drain JSON_parse fuel P = (map JObj ms, inr e) /\ (k <= length tail)%nat).
Proof.
  induction ms as [|m ms IH]; intros Hms P Q fuel HPQ Hfuel.
  - simpl in HPQ. destruct fuel as [|fuel]; [lia|].
    destruct (tail_scan P Q HPQ) as [Hshort Hlong].
    destruct (Nat.lt_ge_cases (length P) k) as [Hl|Hl].
    + left. exists [], [], P. simpl. rewrite (Hshort Hl). auto.
    + right. simpl. rewrite (Hlong Hl). split; [reflexivity|].
      apply (f_equal (@length byte)) in HPQ. rewrite length_app in HPQ. lia.
  - inversion Hms as [|? ? [Hparse Hsize] Hms']; subst.
    rewrite encodeAll_cons, <- app_assoc in HPQ.
    pose proof (encodeMessage_framed JSON_stringify m Hsize) as Hframed.
    rewrite encodeMessage_frame in HPQ.
    destruct fuel as [|fuel]; [lia|].
    destruct (prefix_split _ _ _ _ HPQ) as [Hshort Hlong].
    destruct (Nat.lt_ge_cases (length P)
                (length (frame (contentLengthHeader (length (JSON_stringify (JObj m))))
                               (JSON_stringify (JObj m))))) as [Hl|Hl].
    + destruct (Hshort Hl) as (Q' & HQ' & Hne).
      pose proof (scan_frame_incomplete JSON_parse _ _ P Q' Hframed HQ' Hne) as Hscan.
      left. exists [], (m :: ms), P. cbn [drain map app]. rewrite Hscan.
      split_and!; try reflexivity.
      rewrite encodeAll_cons, encodeMessage_frame, <- app_assoc. exact HPQ.
    + destruct (Hlong Hl) as (P1 & -> & HP1).
      assert (Hf1 : (length P1 < fuel)%nat).
      { rewrite length_app in Hfuel. unfold frame in Hfuel.
        rewrite !length_app in Hfuel. simpl in Hfuel. lia. }
      cbn [drain]. rewrite (scan_frame JSON_parse _ _ P1 Hframed), Hparse.
      destruct (IH Hms' P1 Q fuel HP1 Hf1)
        as [(ms1 & ms2 & P' & -> & Hd & Hs & HP')|[Hd Hk]].
      * left. exists (m :: ms1), ms2, P'. rewrite Hd. auto.
      * right. rewrite Hd. auto.
Qed.

Lemma readLoop_stream chunks : forall b ms,
  Forall (wellEncoded JSON_stringify JSON_parse) ms ->
  scan JSON_parse b = Break ->
  b ++ concat chunks = encodeAll JSON_stringify ms ++ tail ->
  readLoop JSON_parse b chunks
  = {| yielded := map JObj ms;
       ended := if (k <=? length tail)%nat then e else EndOfStream |}.
Proof.
  induction chunks as [|c chunks IH]; intros b ms Hms Hb Hstream.
  - simpl in Hstream. rewrite app_nil_r in Hstream. subst b.
    destruct ms as [|m ms].
    + simpl in *. destruct (tail_scan tail [] (app_nil_r _)) as [_ Hlong].
      destruct (Nat.leb_spec k (length tail)) as [Hl|_]; [|reflexivity].
      rewrite (Hlong Hl) in Hb. discriminate.
    + inversion Hms as [|? ? [Hparse Hsize] Hms']; subst.
      rewrite encodeAll_cons, <- app_assoc, encodeMessage_frame in Hb.
      rewrite (scan_frame JSON_parse _ _ _
                 (encodeMessage_framed JSON_stringify m Hsize)), Hparse in Hb.
      discriminate.
  - simpl in Hstream. rewrite app_assoc in Hstream.
    cbn [readLoop].
    destruct (drain_stream ms Hms (b ++ c) (concat chunks)
                (S (length (b ++ c))) Hstream (Nat.lt_succ_diag_r _))
      as [(ms1 & ms2 & P' & -> & Hd & Hs & HP')|[Hd Hk]].
    + rewrite Hd. apply Forall_app in Hms as [_ Hms2].
      rewrite (IH P' ms2 Hms2 Hs HP'). unfold yield_first. simpl.
      now rewrite map_app.
    + rewrite Hd. apply Nat.leb_le in Hk. now rewrite Hk.
Qed.

End Streams.

Lemma trim_spaces_around pre l :
  forallb is_space pre = true ->
  (match l with c :: _ => is_space c | [] => false end) = false ->
  (exists c r, rev l = c :: r /\ is_space c = false) ->
  trim (pre ++ l) = l.
Proof.
  intros Hpre Hhead (c & r & Hrev & Hc). unfold trim.
  assert (Hts : trimStart (pre ++ l) = l).
  { induction pre as [|x pre IH].
    - destruct l as [|y l']; [reflexivity|]. now apply trimStart_not_space.
    - simpl in Hpre. apply andb_true_iff in Hpre as [Hx Hpre].
      simpl. rewrite Hx. now apply IH. }
  rewrite Hts, Hrev, (trimStart_not_space c r Hc), <- Hrev.
  apply rev_involutive.
Qed.

(** The header check accepts every value that [Number] converts to a finite
    number, negative ones included. *)
Lemma parseContentLength_negative n :
  Z.of_nat n <= 2 ^ 53 ->
  parseContentLength (list_byte_of_string "Content-Length: -" ++ decimal n)
  = Length (- Z.of_nat n).
Proof.
  intros Hn. unfold parseContentLength.
  pose proof (decimal_digits n) as Hd.
  rewrite split_crlf_no_CR.
  2:{ rewrite forallb_app. apply andb_true_iff. split; [reflexivity|].
      apply (forallb_digit_impl _ _ digit_not_CR), Hd. }
  simpl.
  rewrite (split_colon_no_colon (decimal n))
    by apply (forallb_digit_impl _ _ digit_not_colon), Hd.
  simpl.
  assert (Htrim : forall pre, forallb is_space pre = true ->
             trim (pre ++ "-"%byte :: decimal n) = "-"%byte :: decimal n).
  { intros pre Hpre.
    apply trim_spaces_around; [exact Hpre|reflexivity|].
    pose proof (decimal_nonempty n) as Hne.
    destruct (rev (decimal n)) as [|c r] eqn:E.
    { apply (f_equal (@rev byte)) in E. rewrite rev_involutive in E.
      rewrite E in Hne. discriminate. }
    exists c, (r ++ ["-"%byte]). split.
    - simpl. now rewrite E.
    - apply digit_facts. rewrite forallb_forall in Hd. apply Hd, in_rev.
      rewrite E. now left. }
  change (" "%byte :: "-"%byte :: decimal n)
    with ([" "%byte] ++ "-"%byte :: decimal n).
  rewrite (Htrim [" "%byte] eq_refl).
  unfold Number.
  assert (Hascii : forallb (in_range 0 127) ("-"%byte :: decimal n) = true).
  { simpl. apply (forallb_digit_impl _ _
      (fun c H => proj1 (proj2 (proj2 (digit_facts c H))))), Hd. }
  rewrite Hascii. simpl negb. cbv iota.
  change ("-"%byte :: decimal n) with ([] ++ "-"%byte :: decimal n) at 1.
  rewrite (Htrim [] eq_refl).
  replace (is_sign "-"%byte) with true by reflexivity.
  replace (Byte.eqb "-"%byte "-"%byte) with true by reflexivity. cbv iota.
  rewrite (decimal_nonempty n), Hd. simpl andb. cbv iota.
  rewrite decimal_value.
  destruct (Z.leb_spec (Z.of_nat n) (2 ^ 53)); [reflexivity|lia].
Qed.

(* ================================================================== *)
(** ** The claims of the specification *)
(* ================================================================== *)

(** C1, as stated, fails: the number of messages with method
    [initialize] written to the server is not always one.  It is zero
    before any client has sent [initialize]; and a client that sends
    [initialize] as a notification (no identifier) has it forwarded like
    any other notification, so that the server sees a second message with
    that method. *)
Lemma C1_counterexample :
  let request := [("id", JNum 1); ("method", JStr "initialize")] in
  let notification := [("method", JStr "initialize")] in
  count_if hasMethodInitialize
    (toServer (snd (run (MuxState_new oxlintSpec) [Accept]))) = 0%nat
  /\ toServer (snd (run (MuxState_new oxlintSpec)
                      [Accept; FromClient 1 request; FromClient 1 notification]))
     = [request; notification]
  /\ count_if hasMethodInitialize
       (toServer (snd (run (MuxState_new oxlintSpec)
                         [Accept; FromClient 1 request; FromClient 1 notification])))
     = 2%nat.
Proof. vm_compute. repeat split. Qed.

(** C1, amended.  With a spec whose hook leaves the method of the message
    alone and whose bridge requests are not [initialize] (the bundled
    specs are such), the server is sent at most one [initialize] request,
    in every execution and across all clients; it is sent exactly one as
    soon as some client has sent an [initialize] request.  The request of
    the first client to send one, arriving while initialization has not
    started, is the one forwarded; an [initialize] request that arrives
    while initialization is in progress or done writes nothing to the
    server. *)
Theorem C1_initialize_request_forwarded_once (sp : ServerSpec) :
  keepsInitialize sp ->
  (forall tr,
      count_if isInitializeRequest (toServer (snd (run (MuxState_new sp) tr)))
      = if existsb isClientInitialize tr then 1%nat else 0%nat)
  /\ (forall tr c msg,
         let s := fst (run (MuxState_new sp) tr) in
         isInitializeRequest msg = true ->
         (init s = not_started ->
          init (fst (step s (FromClient c msg))) = in_progress c
          /\ exists forwarded,
               snd (step s (FromClient c msg)) = [ToServer forwarded]
               /\ isInitializeRequest forwarded = true)
         /\ (init s <> not_started ->
             toServer (snd (step s (FromClient c msg))) = [])).
Proof.
  intros Hsp. pose proof (new_keepsInitializeState sp Hsp) as H0. split.
  - intros tr. now rewrite (run_initialize_count tr _ H0).
  - intros tr c msg s Hreq.
    assert (Hs : keepsInitializeState s) by (apply run_keepsInitializeState; exact H0).
    unfold isInitializeRequest, requestOf in Hreq.
    destruct (nonnull (field "method" msg)) as [m|] eqn:Hm; [|discriminate].
    destruct (nonnull (field "id" msg)) as [i|] eqn:Hi; [|discriminate].
    simpl. unfold onClientMessage. rewrite Hm, Hi.
    unfold onClientRequest. rewrite Hreq. unfold handleInitialize.
    change (init (recordClientCapabilities c msg s)) with (init s).
    split.
    + intros ->. simpl.
      assert (Hmi : forall s1, spec s1 = spec s ->
                methodIsInitialize (prepareInitializeForServer s1 msg) = true).
      { intros s1 H1. unfold prepareInitializeForServer, methodIsInitialize.
        rewrite H1. destruct Hs as [Hh _].
        destruct (prepareInitialize (spec s)) as [hook|].
        - rewrite (Hh hook eq_refl msg), Hm. exact Hreq.
        - rewrite Hm. exact Hreq. }
      destruct (primaryClientId s); simpl; (split; [reflexivity|]);
        eexists; (split; [reflexivity|]);
        rewrite isInitializeRequest_set_id; apply Hmi; reflexivity.
    + intros Hne. destruct (init s); [congruence| |]; simpl; [reflexivity|].
      unfold respondWithCachedInit. apply toServer_writeToClient.
Qed.

(** Scenario S1 with the tsgo spec: two clients initialize, one
    [initialize] request reaches the server. *)
Lemma C1_witness :
  let init1 := [("id", JNum 1); ("method", JStr "initialize");
                ("params", JObj [("capabilities", JObj [])])] in
  let init2 := [("id", JNum 2); ("method", JStr "initialize");
                ("params", JObj [("capabilities", JObj [])])] in
  let answer := [("id", JNum 1); ("result", JObj [("capabilities", JObj [])])] in
  count_if isInitializeRequest
    (toServer (snd (run (MuxState_new tsgoSpec)
                      [Accept; FromClient 1 init1; Accept; FromClient 2 init2;
                       FromServer answer; Accept; FromClient 3 init1])))
  = 1%nat.
Proof.
  intros init1 init2 answer.
  now rewrite (proj1 (C1_initialize_request_forwarded_once tsgoSpec
                        tsgoSpec_keepsInitialize)).
Defined.

(** C2 fails on the code, by a slip in [onServerResponse].  Under the
    comment [Initialize response caching] the handler tests that the
    pending entry belongs to the initializing client, not that it is the
    entry of the [initialize] request: the first response to any pending
    request of that client ends the initialization and is cached.  Client
    1 sends a hover request and then [initialize]; the server refuses the
    hover before it answers [initialize].  The refusal is cached: client
    1 receives the server's result for its [initialize], and client 2,
    which initializes later, is answered with the refusal of the hover. *)
Lemma C2_initialize_cache_failing_input :
  let refusal := JObj [("code", JNum (-32002)); ("message", JStr "not initialized")] in
  let capabilities := JObj [("capabilities", JObj [])] in
  let hover := [("jsonrpc", JStr "2.0"); ("id", JNum 5); ("method", JStr "textDocument/hover")] in
  let initialize id := [("jsonrpc", JStr "2.0"); ("id", JNum id); ("method", JStr "initialize");
                        ("params", JObj [("capabilities", JObj [])])] in
  let tr := [Accept; FromClient 1 hover; FromClient 1 (initialize 1);
             FromServer [("jsonrpc", JStr "2.0"); ("id", JNum 1); ("error", refusal)];
             FromServer [("jsonrpc", JStr "2.0"); ("id", JNum 2); ("result", capabilities)];
             Accept] in
  let s := fst (run (MuxState_new oxlintSpec) tr) in
  init s = init_done {| result := None; error := Some refusal |}
  /\ primaryClientId s = Some 1
  /\ toClient 1 (snd (run (MuxState_new oxlintSpec) tr))
     = [ [("jsonrpc", JStr "2.0"); ("id", JNum 5); ("error", refusal)];
         [("jsonrpc", JStr "2.0"); ("id", JNum 1); ("result", capabilities)] ]
  /\ step s (FromClient 2 (initialize 9))
     = (s, [ToClient 2 [("jsonrpc", JStr "2.0"); ("id", JNum 9); ("error", refusal)]]).
Proof. vm_compute. split_and!; reflexivity. Qed.

(** C3, as stated, fails in two ways.  Clients 1 and 2 both send
    [initialize] with identifier 1; the first is forwarded (as request 1),
    the second deferred.  When the server answers, client 2, which is not
    the issuing client, receives a response carrying the identifier 1.
    And when the issuing client has disconnected before the response
    arrives, the response is delivered to nobody. *)
Lemma C3_counterexample :
  let init1 := [("id", JNum 1); ("method", JStr "initialize")] in
  let answer := [("id", JNum 1); ("result", JObj [])] in
  (let s := fst (run (MuxState_new oxlintSpec)
                   [Accept; Accept; FromClient 1 init1; FromClient 2 init1]) in
   pendingClientRequests s !! 1 = Some {| clientId := 1; originalId := JNum 1 |}
   /\ snd (step s (FromServer answer))
      = [ToClient 2 [("jsonrpc", JStr "2.0"); ("id", JNum 1); ("result", JObj [])];
         ToClient 1 [("id", JNum 1); ("result", JObj [])]])
  /\ (let s := fst (run (MuxState_new oxlintSpec)
                      [Accept; Accept;
                       FromClient 1 [("id", JNum 7); ("method", JStr "textDocument/hover")];
                       Close 1]) in
      pendingClientRequests s !! 1 = Some {| clientId := 1; originalId := JNum 7 |}
      /\ snd (step s (FromServer answer)) = []).
Proof. vm_compute. repeat split. Qed.

(** C3, amended.  A client request with identifier [I] that the mux
    forwards goes to the server under a freshly minted positive integer
    [n], an identifier that is in neither server-facing table.  When the
    server's response to [n] arrives, it is written, with
    its identifier replaced by [I], to the issuing client if that client is
    still connected (and dropped otherwise), and to no other client.  The
    only other messages of that step are the cached [initialize] replies to
    deferred initializers, each to the deferred client under that client's
    own identifier; there are none unless the response ends the
    initialization.  Nothing is written to the server. *)
Theorem C3_identifier_round_trip
    (sp : ServerSpec) (before between : list event) (c : Z)
    (req resp : JsonRpcMessage) (method : string) (I : JsonRpcId) :
  let s := fst (run (MuxState_new sp) before) in
  let n := nextServerRequestId s in
  let s' := fst (run (fst (step s (FromClient c req))) between) in
  requestOf req = Some (method, I) ->
  (method = "initialize" -> init s = not_started) ->
  Forall (fun e => forall m, e = FromServer m -> responseOf m <> Some (JNum n)) between ->
  responseOf resp = Some (JNum n) ->
  0 < n
  /\ pendingClientRequests s !! n = None
  /\ pendingInternalRequests s !! n = None
  /\ (exists forwarded,
         snd (step s (FromClient c req)) = [ToServer forwarded]
         /\ field "id" forwarded = Some (JNum n))
  /\ exists flushed,
       snd (step s' (FromServer resp))
       = flushed ++ (if connected c s' then [ToClient c (set_field "id" I resp)] else [])
       /\ Forall (fun o => exists c' id',
                   (c', id') ∈ queuedInitialize s' /\ c' ∈ clients s'
                   /\ o = ToClient c' (cachedInitReply id'
                            {| result := field "result" resp;
                               error := field "error" resp |})) flushed
       /\ (init s' <> in_progress c -> flushed = []).
Proof.
  intros s n s' Hreq Hinit Hall Hresp.
  assert (Hfresh : ids_fresh s) by (apply (reachable_ids_fresh sp); now exists before).
  destruct Hfresh as (Hn1 & _ & Hpc & Hpi & _).
  destruct (forwarded_request s c req method I Hreq Hinit) as (Hnext & Hp1 & Hi1 & Hfwd).
  fold n in Hnext, Hp1, Hfwd |- *.
  assert (Hi0 : pendingInternalRequests s !! n = None).
  { destruct (pendingInternalRequests s !! n) eqn:E; [|reflexivity].
    specialize (Hpi n (ex_intro _ _ E)). lia. }
  assert (Hc0 : pendingClientRequests s !! n = None).
  { destruct (pendingClientRequests s !! n) eqn:E; [|reflexivity].
    specialize (Hpc n (ex_intro _ _ E)). lia. }
  split; [lia|]. split; [exact Hc0|]. split; [exact Hi0|]. split; [exact Hfwd|].
  destruct (run_keeps_pending_entry between (fst (step s (FromClient c req))) n
              {| clientId := c; originalId := I |} Hall) as [Hp Hi].
  { lia. }
  { rewrite Hp1. apply lookup_insert_eq. }
  { now rewrite Hi1. }
  fold s' in Hp, Hi.
  unfold responseOf in Hresp.
  destruct (nonnull (field "method" resp)) eqn:Hm;
    [destruct (nonnull (field "id" resp)); discriminate|].
  destruct (nonnull (field "id" resp)) as [i|] eqn:Hid; [|discriminate].
  injection Hresp as ->.
  simpl. unfold onServerMessage. rewrite Hm, Hid.
  unfold onServerResponse. rewrite Hi, Hp. simpl.
  assert (Hflush : forall (s1 : MuxState) cached q,
             clients s1 = clients s' ->
             Forall (fun o => exists c' id',
                       (c', id') ∈ q /\ c' ∈ clients s'
                       /\ o = ToClient c' (cachedInitReply id' cached))
                    (flat_map (fun entry =>
                       respondWithCachedInit s1 (fst entry) (snd entry) cached) q)).
  { intros s1 cached q H1. induction q as [|[c' i'] q IH]; [constructor|].
    simpl. apply Forall_app. split.
    - unfold respondWithCachedInit, writeToClient, connected. rewrite H1.
      case_bool_decide; constructor; [|constructor].
      exists c', i'. split_and!; [apply list_elem_of_here|assumption|reflexivity].
    - eapply Forall_impl; [exact IH|]. intros o (c'' & i'' & Hin & Hc'' & ->).
      exists c'', i''. split_and!; [now apply list_elem_of_further|assumption|reflexivity]. }
  destruct (init s') as [|p|cached] eqn:Hinit'.
  - exists []. split_and!; [reflexivity|constructor|reflexivity].
  - destruct (Z.eqb_spec c p) as [<-|Hne].
    + unfold flushQueuedInitialize. simpl.
      eexists. split_and!.
      * destruct (diagnosticsBridge s'); reflexivity.
      * apply Hflush. reflexivity.
      * congruence.
    + exists []. split_and!; [reflexivity|constructor|reflexivity].
  - exists []. split_and!; [reflexivity|constructor|reflexivity].
Qed.

(** Scenario S6 of the specification: clients 1 and 2 both send request
    42; the server answers client 2's request (forwarded as 2) first. *)
Lemma C3_witness :
  let req := [("id", JNum 42); ("method", JStr "textDocument/diagnostic")] in
  let resp := [("id", JNum 2); ("result", JObj [("kind", JStr "full")])] in
  let s := fst (run (MuxState_new oxlintSpec) [Accept; Accept; FromClient 1 req]) in
  let s' := fst (run (fst (step s (FromClient 2 req))) [Accept]) in
  nextServerRequestId s = 2
  /\ snd (step s' (FromServer resp))
     = [ToClient 2 [("id", JNum 42); ("result", JObj [("kind", JStr "full")])]].
Proof.
  intros req resp s s'. split; [reflexivity|].
  destruct (C3_identifier_round_trip oxlintSpec [Accept; Accept; FromClient 1 req]
              [Accept] 2 req resp "textDocument/diagnostic" (JNum 42))
    as (_ & _ & _ & _ & flushed & Hout & _ & Hnone).
  - reflexivity.
  - discriminate.
  - repeat constructor. discriminate.
  - reflexivity.
  - fold s s' in Hout, Hnone. rewrite Hout, Hnone; [reflexivity|discriminate].
Defined.

(** C4, as stated, fails: a client response whose identifier is not
    registered in the forwarded-server-origin table is not dropped.  Here
    client 1 answers with the unregistered identifiers [99] and ["abc"];
    both responses are written to the server unchanged. *)
Lemma C4_counterexample :
  let s := addClient (MuxState_new oxlintSpec) in
  let stray := [("jsonrpc", JStr "2.0"); ("id", JNum 99); ("result", JObj [])] in
  let stray' := [("jsonrpc", JStr "2.0"); ("id", JStr "abc"); ("result", JObj [])] in
  (responseOf stray = Some (JNum 99)
   /\ pendingServerRequests s !! 99 = None
   /\ step s (FromClient 1 stray) = (s, [ToServer stray]))
  /\ (responseOf stray' = Some (JStr "abc")
      /\ step s (FromClient 1 stray') = (s, [ToServer stray'])).
Proof. vm_compute. repeat split. Qed.

(** C4, amended.  When a client sends a response: if its identifier is a
    number registered in the forwarded-server-origin table, the entry is
    consumed and the response goes to the server with the identifier
    rewritten to the server's original one; every other client response
    (an identifier that is not a number, or a number not in the table) is
    written to the server unchanged, and the state does not change.  No
    client is written to in either case.  The identifiers registered in
    the table of a reachable state are negative integers. *)
Theorem C4_client_response
    (s : MuxState) (c : Z) (msg : JsonRpcMessage) (id : JsonRpcId) :
  responseOf msg = Some id ->
  (forall n pending,
      id = JNum n -> pendingServerRequests s !! n = Some pending ->
      step s (FromClient c msg) =
      (set_forwarded (nextForwardedServerReqId s) (delete n (pendingServerRequests s)) s,
       [ToServer (set_field "id" (serverId pending) msg)]))
  /\ ((forall n, id = JNum n -> pendingServerRequests s !! n = None) ->
      step s (FromClient c msg) = (s, [ToServer msg]))
  /\ (forall sp n, reachable sp s -> is_Some (pendingServerRequests s !! n) -> n < 0).
Proof.
  intros Hresp. unfold responseOf in Hresp.
  destruct (nonnull (field "method" msg)) eqn:Hm; [destruct (nonnull (field "id" msg)); discriminate|].
  destruct (nonnull (field "id" msg)) as [i|] eqn:Hi; [|discriminate].
  injection Hresp as ->.
  split_and!.
  - intros n pending -> Hp. simpl. unfold onClientMessage. rewrite Hm, Hi.
    unfold onClientResponse. now rewrite Hp.
  - intros Hnone. simpl. unfold onClientMessage. rewrite Hm, Hi.
    unfold onClientResponse. destruct id; try reflexivity.
    now rewrite (Hnone n eq_refl).
  - intros sp n Hreach Hn.
    destruct (reachable_ids_fresh sp s Hreach) as (_ & _ & _ & _ & Hneg).
    specialize (Hneg n Hn). lia.
Qed.

(** Scenario S4 of the specification: the server's request 5 was forwarded
    to the primary client as request -1, and the client's answer goes back
    under 5. *)
Lemma C4_witness :
  let s := fst (run (MuxState_new oxlintSpec)
                  [Accept;
                   FromServer [("id", JNum 5); ("method", JStr "custom/ping");
                               ("params", JObj [("value", JNum 123)])]]) in
  let answer := [("id", JNum (-1)); ("result", JObj [("pong", JBool true)])] in
  pendingServerRequests s !! (-1) = Some {| serverId := JNum 5 |}
  /\ snd (step s (FromClient 1 answer))
     = [ToServer [("id", JNum 5); ("result", JObj [("pong", JBool true)])]].
Proof.
  intros s answer. split; [reflexivity|].
  rewrite (proj1 (C4_client_response s 1 answer (JNum (-1)) eq_refl)
             (-1) {| serverId := JNum 5 |} eq_refl eq_refl).
  reflexivity.
Defined.

(** C5, as stated, fails.  A stream that ends before the declared body
    length has been received ends the decoding silently: here 5 bytes are
    declared, 2 arrive, and [readMessages] ends without error and without
    a message.  And a declared length that is negative is not refused:
    here the header declares -30, the slice of the body counts from the
    end of the buffer, a message is yielded and the decoding ends without
    error. *)
Lemma C5_counterexample :
  let truncated :=
    list_byte_of_string "Content-Length: 5" ++ CRLFCRLF ++ list_byte_of_string "{}" in
  let negative :=
    list_byte_of_string "Content-Length: -30" ++ CRLFCRLF
      ++ list_byte_of_string "{}xxxxxxx" in
  (parseContentLength (list_byte_of_string "Content-Length: 5") = Length 5
   /\ readMessages MiniJSON.parse [truncated]
      = {| yielded := []; ended := EndOfStream |})
  /\ (parseContentLength (list_byte_of_string "Content-Length: -30") = Length (-30)
      /\ readMessages MiniJSON.parse [negative]
         = {| yielded := [JObj []]; ended := EndOfStream |}).
Proof. vm_compute. repeat split. Qed.

(** C5, amended.  Take a stream that starts with complete encoded messages
    [ms], cut into chunks in any way.
    - If the stream then ends, between two messages or anywhere inside the
      header or the body of a further message, decoding yields [ms] and
      ends without error: the incomplete message is dropped.
    - If a complete header block follows in which [parseContentLength]
      finds no [Content-Length] line whose value [Number] converts to a
      finite number, decoding yields [ms] and throws the
      [Missing Content-Length header] error.
    - If a complete frame follows whose body [JSON.parse] rejects, decoding
      yields [ms] and throws that syntax error. *)
Theorem C5_decoding_errors
    (JSON_stringify : json -> list byte) (JSON_parse : list byte -> option json)
    (ms : list JsonRpcMessage) (chunks : list (list byte)) :
  Forall (wellEncoded JSON_stringify JSON_parse) ms ->
  let sent := encodeAll JSON_stringify ms in
  (forall m received missing,
      Z.of_nat (length (JSON_stringify (JObj m))) <= 2 ^ 53 ->
      received ++ missing = encodeMessage JSON_stringify m -> missing <> [] ->
      concat chunks = sent ++ received ->
      readMessages JSON_parse chunks
      = {| yielded := map JObj ms; ended := EndOfStream |})
  /\ (forall h rest,
         headerBlock h -> parseContentLength h = NoLength ->
         concat chunks = sent ++ h ++ CRLFCRLF ++ rest ->
         readMessages JSON_parse chunks
         = {| yielded := map JObj ms; ended := MissingContentLength h |})
  /\ (forall h body rest,
         framed h body -> JSON_parse body = None ->
         concat chunks = sent ++ frame h body ++ rest ->
         readMessages JSON_parse chunks
         = {| yielded := map JObj ms; ended := JsonSyntaxError body |}).
Proof.
  intros Hms sent. split_and!.
  - intros m received missing Hsize Hsplit Hmissing Hstream.
    unfold readMessages.
    rewrite (readLoop_stream JSON_stringify JSON_parse received
               (S (length received)) EndOfStream) with (ms := ms); auto.
    + now destruct (Nat.leb_spec (S (length received)) (length received)); [lia|].
    + intros P Q HPQ. split; [|intros Hl].
      * intros _. rewrite encodeMessage_frame in Hsplit.
        apply (scan_frame_incomplete JSON_parse _ _ P (Q ++ missing)
                 (encodeMessage_framed JSON_stringify m Hsize)).
        -- now rewrite app_assoc, HPQ.
        -- intros H. apply app_eq_nil in H as [_ H]. contradiction.
      * apply (f_equal (@length byte)) in HPQ. rewrite length_app in HPQ. lia.
  - intros h rest Hh Hno Hstream. unfold readMessages.
    rewrite (readLoop_stream JSON_stringify JSON_parse (h ++ CRLFCRLF ++ rest)
               (length (h ++ CRLFCRLF)) (MissingContentLength h)) with (ms := ms); auto.
    + destruct (Nat.leb_spec (length (h ++ CRLFCRLF)) (length (h ++ CRLFCRLF ++ rest)))
        as [_|Hl]; [reflexivity|].
      rewrite !length_app in Hl. lia.
    + intros P Q HPQ. rewrite app_assoc in HPQ.
      destruct (prefix_split _ _ _ _ HPQ) as [Hshort Hlong]. split; intros Hl.
      * destruct (Hshort Hl) as (Q' & HQ' & Hne).
        exact (scan_header_incomplete JSON_parse h P Q' Hh HQ' Hne).
      * destruct (Hlong Hl) as (P' & -> & _).
        rewrite <- app_assoc, (scan_header_complete JSON_parse h P' Hh), Hno.
        reflexivity.
  - intros h body rest Hf Hbad Hstream. unfold readMessages.
    rewrite (readLoop_stream JSON_stringify JSON_parse (frame h body ++ rest)
               (length (frame h body)) (JsonSyntaxError body)) with (ms := ms); auto.
    + destruct (Nat.leb_spec (length (frame h body)) (length (frame h body ++ rest)))
        as [_|Hl]; [reflexivity|].
      rewrite !length_app in Hl. lia.
    + intros P Q HPQ.
      destruct (prefix_split _ _ _ _ HPQ) as [Hshort Hlong]. split; intros Hl.
      * destruct (Hshort Hl) as (Q' & HQ' & Hne).
        exact (scan_frame_incomplete JSON_parse h body P Q' Hf HQ' Hne).
      * destruct (Hlong Hl) as (P' & -> & _).
        now rewrite (scan_frame JSON_parse h body P' Hf), Hbad.
Qed.

(** One message, then a header block that names no length: the message is
    yielded and the framing error thrown, here with the chunk boundary
    inside the message. *)
Lemma C5_witness :
  let m := [("jsonrpc", JStr "2.0"); ("method", JStr "initialized")] in
  let bad := list_byte_of_string "Content-Type: application/json" in
  let stream := encodeMessage MiniJSON.stringify m ++ bad ++ CRLFCRLF
                  ++ list_byte_of_string "{}" in
  readMessages MiniJSON.parse [take 25 stream; drop 25 stream]
  = {| yielded := [JObj m]; ended := MissingContentLength bad |}.
Proof.
  intros m bad stream.
  apply (proj1 (proj2 (C5_decoding_errors MiniJSON.stringify MiniJSON.parse [m]
                         [take 25 stream; drop 25 stream]
                         ltac:(repeat constructor; vm_compute; congruence)))
           bad (list_byte_of_string "{}")).
  - vm_compute. reflexivity.
  - vm_compute. reflexivity.
  - vm_compute. reflexivity.
Defined.

(** C6. For a message that the runtime's JSON functions carry faithfully
    (parsing its serialization gives it back), [encodeMessage] writes the
    header [Content-Length: n], where [n] is the number of bytes of the
    UTF-8 serialization, a blank line, and those bytes; and however the
    resulting bytes are cut into chunks, [readMessages] yields exactly one
    message, equal to the original, and ends without error. *)
Theorem C6_encode_then_decode
    (JSON_stringify : json -> list byte) (JSON_parse : list byte -> option json)
    (m : JsonRpcMessage) (chunks : list (list byte)) :
  JSON_parse (JSON_stringify (JObj m)) = Some (JObj m) ->
  Z.of_nat (length (JSON_stringify (JObj m))) <= 2 ^ 53 ->
  concat chunks = encodeMessage JSON_stringify m ->
  let body := JSON_stringify (JObj m) in
  encodeMessage JSON_stringify m
  = list_byte_of_string "Content-Length: " ++ decimal (length body) ++ CRLFCRLF ++ body
  /\ parseContentLength (list_byte_of_string "Content-Length: " ++ decimal (length body))
     = Length (Z.of_nat (length body))
  /\ readMessages JSON_parse chunks = {| yielded := [JObj m]; ended := EndOfStream |}.
Proof.
  intros Hparse Hsize Hchunks body. split_and!.
  - unfold encodeMessage. now rewrite <- !app_assoc.
  - apply (parseContentLength_header _ Hsize).
  - unfold readMessages.
    apply (readLoop_stream JSON_stringify JSON_parse [] 1 EndOfStream) with (ms := [m]).
    + intros P Q HPQ. apply app_eq_nil in HPQ as [-> ->]. split; [reflexivity|].
      simpl. lia.
    + constructor; [now split|constructor].
    + reflexivity.
    + simpl. now rewrite !app_nil_r.
Qed.

(** An [initialize] request cut into three chunks, inside the header and
    inside the body. *)
Lemma C6_witness :
  let m := [("jsonrpc", JStr "2.0"); ("id", JNum 1); ("method", JStr "initialize");
            ("params", JObj [("capabilities", JObj [])])] in
  let wire := encodeMessage MiniJSON.stringify m in
  readMessages MiniJSON.parse [take 9 wire; take 30 (drop 9 wire); drop 39 wire]
  = {| yielded := [JObj m]; ended := EndOfStream |}.
Proof.
  intros m wire.
  apply (C6_encode_then_decode MiniJSON.stringify MiniJSON.parse m).
  - vm_compute. reflexivity.
  - vm_compute. discriminate.
  - vm_compute. reflexivity.
Defined.

(** C7. A server request whose method is [client/registerCapability] or
    [client/unregisterCapability] is answered to the server with
    [result: null] under the server's identifier; a
    [workspace/configuration] request is answered with one [null] per
    element of [params.items], and with the empty array when [items] is
    missing or not an array.  In each case the reply is the only message
    written, the state is unchanged, and no client is written to. *)
Theorem C7_server_requests_answered_locally
    (s : MuxState) (msg : JsonRpcMessage) (method : string) (id : JsonRpcId) :
  requestOf msg = Some (method, id) ->
  let reply r := [ToServer [("jsonrpc", JStr "2.0"); ("id", id); ("result", r)]] in
  (method = "client/registerCapability" \/ method = "client/unregisterCapability" ->
   step s (FromServer msg) = (s, reply JNull))
  /\ (method = "workspace/configuration" ->
      step s (FromServer msg) =
      (s, reply (JArr (match as_array (prop "items" (field "params" msg)) with
                       | Some items => repeat JNull (length items)
                       | None => []
                       end))))
  /\ (method = "client/registerCapability" \/ method = "client/unregisterCapability"
      \/ method = "workspace/configuration" ->
      forall c, toClient c (snd (step s (FromServer msg))) = []).
Proof.
  intros Hreq reply. unfold requestOf in Hreq.
  destruct (nonnull (field "method" msg)) as [m|] eqn:Hm; [|discriminate].
  destruct (nonnull (field "id" msg)) as [i|] eqn:Hi; [|discriminate].
  injection Hreq as <- <-.
  assert (Hmap : forall l : list json, map (fun _ => JNull) l = repeat JNull (length l)).
  { induction l; simpl; congruence. }
  assert (H1 : js_String m = "client/registerCapability"
               \/ js_String m = "client/unregisterCapability" ->
               step s (FromServer msg) = (s, reply JNull)).
  { intros H. simpl. unfold onServerMessage. rewrite Hm, Hi. unfold onServerRequest.
    destruct H as [-> | ->]; reflexivity. }
  assert (H2 : js_String m = "workspace/configuration" ->
               step s (FromServer msg) =
               (s, reply (JArr (match as_array (prop "items" (field "params" msg)) with
                                | Some items => repeat JNull (length items)
                                | None => []
                                end)))).
  { intros H. simpl. unfold onServerMessage. rewrite Hm, Hi. unfold onServerRequest.
    rewrite H. simpl.
    destruct (as_array (prop "items" (field "params" msg))); [rewrite Hmap|]; reflexivity. }
  split; [exact H1|]. split; [exact H2|].
  intros [H | [H | H]] c.
  - rewrite H1 by auto. reflexivity.
  - rewrite H1 by auto. reflexivity.
  - rewrite H2 by auto. reflexivity.
Qed.

(** Scenario S5 of the specification. *)
Lemma C7_witness :
  let s := addClient (MuxState_new tsgoSpec) in
  let msg := [("id", JNum 7); ("method", JStr "workspace/configuration");
              ("params", JObj [("items", JArr [JObj []; JObj []; JObj []])])] in
  step s (FromServer msg) =
  (s, [ToServer [("jsonrpc", JStr "2.0"); ("id", JNum 7);
                 ("result", JArr [JNull; JNull; JNull])]]).
Proof.
  intros s msg.
  exact (proj1 (proj2 (C7_server_requests_answered_locally s msg
                         "workspace/configuration" (JNum 7) eq_refl)) eq_refl).
Defined.

(** C8, as stated, fails.  Client 1 sends a request and disconnects: its
    entry stays in the client-origin table.  The server's request 5 is
    forwarded to client 1, which disconnects: the forwarded-server-origin
    entry stays. *)
Lemma C8_counterexample :
  (let s := fst (run (MuxState_new oxlintSpec)
                   [Accept;
                    FromClient 1 [("id", JNum 7); ("method", JStr "textDocument/hover")];
                    Close 1]) in
   clients s = []
   /\ pendingClientRequests s !! 1 = Some {| clientId := 1; originalId := JNum 7 |})
  /\ (let s := fst (run (MuxState_new oxlintSpec)
                      [Accept;
                       FromServer [("id", JNum 5); ("method", JStr "custom/ping")];
                       Close 1]) in
      clients s = []
      /\ pendingServerRequests s !! (-1) = Some {| serverId := JNum 5 |}).
Proof. vm_compute. repeat split. Qed.

(** C8, amended.  When a client disconnects, the close handler removes it
    from the client map and from the capability table, keeping every other
    client in its place, and, if it was the primary, hands that role to
    the first remaining client ([null] when none remains); it writes
    nothing and leaves the three pending-request tables and the queue of
    deferred initializers as they are, so the entries of a departed client
    remain.  They are dealt with when they are used: no handler ever writes
    to a client that is not connected, and when the server response for a
    client-origin entry of a departed client arrives, the entry is
    consumed. *)
Theorem C8_close_keeps_pending_entries :
  (forall (s : MuxState) (c : Z),
      let s' := fst (step s (Close c)) in
      snd (step s (Close c)) = []
      /\ clients s' = filter (fun c' => c' <> c) (clients s)
      /\ clientSupportsPullDiagnostics s' = delete c (clientSupportsPullDiagnostics s)
      /\ primaryClientId s'
         = (if bool_decide (primaryClientId s = Some c)
            then head (filter (fun c' => c' <> c) (clients s))
            else primaryClientId s)
      /\ (c ∉ clients s')
      /\ (forall c', c' <> c -> c' ∈ clients s -> c' ∈ clients s')
      /\ clientSupportsPullDiagnostics s' !! c = None
      /\ primaryClientId s' <> Some c
      /\ pendingClientRequests s' = pendingClientRequests s
      /\ pendingInternalRequests s' = pendingInternalRequests s
      /\ pendingServerRequests s' = pendingServerRequests s
      /\ queuedInitialize s' = queuedInitialize s)
  /\ (forall (s : MuxState) (e : event) (c : Z),
      c ∉ clients s -> toClient c (snd (step s e)) = [])
  /\ (forall (s : MuxState) (n : Z) (pending : PendingRequest) (msg : JsonRpcMessage),
      responseOf msg = Some (JNum n) ->
      pendingInternalRequests s !! n = None ->
      pendingClientRequests s !! n = Some pending ->
      pendingClientRequests (fst (step s (FromServer msg)))
      = delete n (pendingClientRequests s)).
Proof.
  split; [|split].
  - intros s c s'. subst s'. simpl. unfold onClose, with_clients, clients_delete. simpl.
    assert (Hnot : c ∉ filter (fun c' => c' <> c) (clients s)).
    { intros Hin. apply list_elem_of_filter in Hin. tauto. }
    split_and!; auto.
    + intros c' Hne Hin. apply list_elem_of_filter. auto.
    + apply lookup_delete_eq.
    + case_bool_decide as Hp; [|congruence].
      intros Hhead. apply Hnot. destruct (filter _ (clients s)); [discriminate|].
      simpl in Hhead. injection Hhead as ->. apply list_elem_of_here.
  - intros s e c. apply step_writes_to_connected_only.
  - intros s n pending msg Hresp Hint Hpend. unfold responseOf in Hresp.
    destruct (nonnull (field "method" msg)) eqn:Hm;
      [destruct (nonnull (field "id" msg)); discriminate|].
    destruct (nonnull (field "id" msg)) as [i|] eqn:Hi; [|discriminate].
    injection Hresp as ->.
    simpl. unfold onServerMessage. rewrite Hm, Hi.
    unfold onServerResponse. rewrite Hint, Hpend. handlers. cases.
Qed.

(** After the first scenario of the counterexample, the server's late
    response consumes the entry of the departed client 1 and reaches nobody. *)
Lemma C8_witness :
  let s := fst (run (MuxState_new oxlintSpec)
                  [Accept;
                   FromClient 1 [("id", JNum 7); ("method", JStr "textDocument/hover")];
                   Close 1]) in
  let late := [("id", JNum 1); ("result", JNull)] in
  pendingClientRequests (fst (step s (FromServer late))) = ∅
  /\ toClient 1 (snd (step s (FromServer late))) = [].
Proof.
  intros s late. split.
  - rewrite (proj2 (proj2 C8_close_keeps_pending_entries) s 1
               {| clientId := 1; originalId := JNum 7 |} late eq_refl eq_refl eq_refl).
    apply map_eq. intros i. rewrite lookup_delete, lookup_empty.
    case_decide; [reflexivity|]. unfold s. simpl. rewrite lookup_insert_ne by congruence.
    apply lookup_empty.
  - apply (proj1 (proj2 C8_close_keeps_pending_entries)). vm_compute. set_solver.
Defined.

(** The cache [lastPublishedDiagnostics] is written in two places:
    [onServerResponse] sets the entry of its URI and [onDidClose] deletes
    it.  No other method of the bridge touches it. *)
Lemma lastPublishedDiagnostics_frame (h : bool) (u : string) (b : DiagnosticsBridge.t) :
  DiagnosticsBridge.lastPublishedDiagnostics (DiagnosticsBridge.schedule h u b)
  = DiagnosticsBridge.lastPublishedDiagnostics b
  /\ DiagnosticsBridge.lastPublishedDiagnostics (DiagnosticsBridge.markInitDone h b)
     = DiagnosticsBridge.lastPublishedDiagnostics b
  /\ (forall method,
        DiagnosticsBridge.lastPublishedDiagnostics (DiagnosticsBridge.onFileEvent h method u b)
        = DiagnosticsBridge.lastPublishedDiagnostics b)
  /\ DiagnosticsBridge.lastPublishedDiagnostics (fst (DiagnosticsBridge.request h u b))
     = DiagnosticsBridge.lastPublishedDiagnostics b
  /\ DiagnosticsBridge.lastPublishedDiagnostics (fst (DiagnosticsBridge.onDebounceTimer h u b))
     = DiagnosticsBridge.lastPublishedDiagnostics b
  /\ DiagnosticsBridge.lastPublishedDiagnostics (DiagnosticsBridge.onDidClose u b)
     = delete u (DiagnosticsBridge.lastPublishedDiagnostics b)
  /\ (forall msg,
        DiagnosticsBridge.lastPublishedDiagnostics
          (fst (DiagnosticsBridge.onServerResponse h u msg b))
        = <[u := DiagnosticsBridge.diagnosticsOf u msg b]>
            (DiagnosticsBridge.lastPublishedDiagnostics b)).
Proof.
  assert (Hs : forall u' b', DiagnosticsBridge.lastPublishedDiagnostics
                               (DiagnosticsBridge.schedule h u' b')
                             = DiagnosticsBridge.lastPublishedDiagnostics b').
  { intros u' b'. unfold DiagnosticsBridge.schedule. now repeat case_match. }
  split_and!; auto.
  - assert (Hfold : forall queued b0,
              DiagnosticsBridge.lastPublishedDiagnostics
                (fold_left (fun acc uri => DiagnosticsBridge.schedule h uri acc) queued b0)
              = DiagnosticsBridge.lastPublishedDiagnostics b0).
    { induction queued as [|q queued IH]; intros b0; simpl; [reflexivity|].
      now rewrite IH, Hs. }
    unfold DiagnosticsBridge.markInitDone. now rewrite Hfold.
  - intros method. unfold DiagnosticsBridge.onFileEvent. now case_match.
  - unfold DiagnosticsBridge.request. now repeat case_match.
  - unfold DiagnosticsBridge.onDebounceTimer, DiagnosticsBridge.request.
    now repeat case_match.
Qed.

(** C9, as stated, fails.  The items [X] of a full report are published
    to client 1, the only client; client 1 leaves while a second pull is in
    flight, and the full report [Y] that answers it is cached and, no
    client being there, published to nobody.  Client 2 joins and opens the
    document; the server answers the pull with ["unchanged"]: client 2 is
    sent [Y], while the items last published for the document are [X]. *)
Lemma C9_counterexample :
  let u := "file:///a.ts" in
  let init1 := [("id", JNum 1); ("method", JStr "initialize");
                ("params", JObj [("capabilities", JObj [])])] in
  let didOpen := [("method", JStr "textDocument/didOpen");
                  ("params", JObj [("textDocument", JObj [("uri", JStr u)])])] in
  let didChange := [("method", JStr "textDocument/didChange");
                    ("params", JObj [("textDocument", JObj [("uri", JStr u)])])] in
  let X := [JObj [("message", JStr "X")]] in
  let Y := [JObj [("message", JStr "Y")]] in
  let full n items := [("id", JNum n);
                       ("result", JObj [("kind", JStr "full"); ("items", JArr items)])] in
  let unchanged := [("id", JNum 4); ("result", JObj [("kind", JStr "unchanged")])] in
  let tr := [Accept; FromClient 1 init1; FromServer [("id", JNum 1); ("result", JObj [])];
             FromClient 1 didOpen; DebounceTimer u; FromServer (full 2 X);
             FromClient 1 didChange; DebounceTimer u; Close 1; FromServer (full 3 Y);
             Accept; FromClient 2 didOpen; DebounceTimer u] in
  let s := fst (run (MuxState_new tsgoSpec) tr) in
  pendingInternalRequests s !! 4 = Some {| uri := u |}
  /\ published (snd (run (MuxState_new tsgoSpec) tr))
     = [(1, publishDiagnosticsNotification u X)]
  /\ snd (step s (FromServer unchanged))
     = [ToClient 2 (publishDiagnosticsNotification u Y)]
  /\ X <> Y.
Proof. vm_compute. split_and!; try reflexivity. discriminate. Qed.

(** C9, amended.  A response to one of the bridge's pull requests whose
    [result.kind] is ["unchanged"] publishes, for the URI of the request,
    the items cached for that URI in [lastPublishedDiagnostics], or the
    empty array when nothing is cached: a [textDocument/publishDiagnostics]
    notification with these items is written to every connected client
    that lacks the pull capability, and nothing else is written.  The
    cache holds, for a URI, the items the bridge computed at its previous
    response for that URI, whether they were published then (a client
    without the pull capability was connected) or only cached (none was):
    an ["unchanged"] response that follows replays these items.  Between
    two responses for a URI only [onDidClose] for that URI touches its
    entry, and deletes it. *)
Theorem C9_unchanged_replay
    (s : MuxState) (b : DiagnosticsBridge.t) (n : Z)
    (internal : PendingInternalRequest) (msg : JsonRpcMessage) :
  diagnosticsBridge s = Some b ->
  responseOf msg = Some (JNum n) ->
  pendingInternalRequests s !! n = Some internal ->
  prop "kind" (field "result" msg) = Some (JStr "unchanged") ->
  let u := uri internal in
  let replayed := match DiagnosticsBridge.lastPublishedDiagnostics b !! u with
                  | Some items => items
                  | None => []
                  end in
  snd (step s (FromServer msg))
  = map (fun c => ToClient c (publishDiagnosticsNotification u replayed))
        (filter (fun c => lacksPull s c = true) (clients s))
  /\ (forall hasNonPull,
         snd (DiagnosticsBridge.onServerResponse hasNonPull u msg b)
         = if hasNonPull then Some (DiagnosticsBridge.publish u replayed) else None)
  /\ (forall hasNonPull previous,
         let items := DiagnosticsBridge.diagnosticsOf u previous b in
         let b' := fst (DiagnosticsBridge.onServerResponse hasNonPull u previous b) in
         DiagnosticsBridge.lastPublishedDiagnostics b' !! u = Some items
         /\ snd (DiagnosticsBridge.onServerResponse hasNonPull u previous b)
            = (if hasNonPull then Some (DiagnosticsBridge.publish u items) else None)
         /\ (forall hasNonPull',
               snd (DiagnosticsBridge.onServerResponse hasNonPull' u msg b')
               = if hasNonPull' then Some (DiagnosticsBridge.publish u items) else None))
  /\ (forall hasNonPull u' method other b0,
         let cache := DiagnosticsBridge.lastPublishedDiagnostics in
         cache (DiagnosticsBridge.schedule hasNonPull u' b0) = cache b0
         /\ cache (DiagnosticsBridge.markInitDone hasNonPull b0) = cache b0
         /\ cache (DiagnosticsBridge.onFileEvent hasNonPull method u' b0) = cache b0
         /\ cache (fst (DiagnosticsBridge.request hasNonPull u' b0)) = cache b0
         /\ cache (fst (DiagnosticsBridge.onDebounceTimer hasNonPull u' b0)) = cache b0
         /\ cache (DiagnosticsBridge.onDidClose u' b0) = delete u' (cache b0)
         /\ cache (fst (DiagnosticsBridge.onServerResponse hasNonPull u' other b0))
            = <[u' := DiagnosticsBridge.diagnosticsOf u' other b0]> (cache b0)).
Proof.
  intros Hb Hresp Hint Hkind u replayed.
  pose proof (diagnosticsOf_unchanged u msg b Hkind) as Hd. fold replayed in Hd.
  split; [|split; [|split]].
  - unfold responseOf in Hresp.
    destruct (nonnull (field "method" msg)) eqn:Hm;
      [destruct (nonnull (field "id" msg)); discriminate|].
    destruct (nonnull (field "id" msg)) as [i|] eqn:Hi; [|discriminate].
    injection Hresp as ->.
    simpl. unfold onServerMessage. rewrite Hm, Hi.
    unfold onServerResponse. rewrite Hint.
    unfold onInternalServerResponse. simpl. rewrite Hb.
    unfold DiagnosticsBridge.onServerResponse. fold u. rewrite Hd.
    change (hasNonPullClients (set_pendingInternalRequests
              (delete n (pendingInternalRequests s)) s)) with (hasNonPullClients s).
    destruct (hasNonPullClients s) eqn:Hn; simpl.
    + reflexivity.
    + symmetry. apply (publish_when_no_non_pull_client s u replayed Hn).
  - intros h. unfold DiagnosticsBridge.onServerResponse. simpl. rewrite Hd.
    now destruct h.
  - intros h previous items b'. split_and!.
    + subst b'. simpl. apply lookup_insert_eq.
    + unfold DiagnosticsBridge.onServerResponse. simpl. now destruct h.
    + intros h'. unfold DiagnosticsBridge.onServerResponse at 1. simpl.
      rewrite (diagnosticsOf_unchanged u msg b' Hkind).
      subst b'. simpl. rewrite lookup_insert_eq. now destruct h'.
  - intros h u' method other b0 cache.
    destruct (lastPublishedDiagnostics_frame h u' b0) as (H1 & H2 & H3 & H4 & H5 & H6 & H7).
    split_and!; auto.
Qed.

(** The bridge's own test: a full response with one item, then an
    unchanged one, which republishes that item to the one client. *)
Lemma C9_witness :
  let init1 := [("id", JNum 1); ("method", JStr "initialize");
                ("params", JObj [("capabilities", JObj [])])] in
  let didOpen := [("method", JStr "textDocument/didOpen");
                  ("params", JObj [("textDocument", JObj [("uri", JStr "file:///a.ts")])])] in
  let full := [("id", JNum 2);
               ("result", JObj [("kind", JStr "full");
                                ("items", JArr [JObj [("message", JStr "first")]])])] in
  let unchanged := [("id", JNum 3); ("result", JObj [("kind", JStr "unchanged")])] in
  let s := fst (run (MuxState_new tsgoSpec)
                  [Accept; FromClient 1 init1; FromServer [("id", JNum 1); ("result", JObj [])];
                   FromClient 1 didOpen; DebounceTimer "file:///a.ts"; FromServer full;
                   FromClient 1 didOpen; DebounceTimer "file:///a.ts"]) in
  snd (step s (FromServer unchanged))
  = [ToClient 1 (publishDiagnosticsNotification "file:///a.ts"
                   [JObj [("message", JStr "first")]])].
Proof.
  intros init1 didOpen full unchanged s.
  destruct (diagnosticsBridge s) as [b|] eqn:Hb; [|discriminate].
  rewrite (proj1 (C9_unchanged_replay s b 3 {| uri := "file:///a.ts" |} unchanged
                    Hb eq_refl eq_refl eq_refl)).
  vm_compute in Hb. injection Hb as <-. vm_compute. reflexivity.
Defined.

(** C10. A client that has just been accepted is recorded as not
    advertising pull diagnostics, and stays so through every event up to
    its own [initialize] request (or its disconnection): in every state of
    that window it is connected, its capability flag is [false],
    [hasNonPullClients()] answers [true],
    [publishDiagnosticsToNonPullClients] writes the synthesized
    [textDocument/publishDiagnostics] notification to it, and so does the
    mux when a response to one of the bridge's pull requests arrives. *)
Theorem C10_accepted_client_counts_as_non_pull
    (s : MuxState) (tr : list event) (u : string) (diags : list json) :
  let c := nextClientId s in
  Forall (keepsDefaultCapability c) tr ->
  let s' := fst (run (fst (step s Accept)) tr) in
  c ∈ clients s'
  /\ clientSupportsPullDiagnostics s' !! c = Some false
  /\ hasNonPullClients s' = true
  /\ ToClient c (publishDiagnosticsNotification u diags)
       ∈ publishDiagnosticsToNonPullClients s' u diags
  /\ (forall b n internal msg,
         diagnosticsBridge s' = Some b ->
         responseOf msg = Some (JNum n) ->
         pendingInternalRequests s' !! n = Some internal ->
         ToClient c (publishDiagnosticsNotification (uri internal)
                       (DiagnosticsBridge.diagnosticsOf (uri internal) msg b))
           ∈ snd (step s' (FromServer msg))).
Proof.
  intros c Hall s'.
  assert (H0 : c ∈ clients (fst (step s Accept))
               /\ clientSupportsPullDiagnostics (fst (step s Accept)) !! c = Some false).
  { simpl. unfold addClient, with_clients. simpl. split.
    - unfold clients_set. case_bool_decide; [assumption|].
      apply elem_of_app. right. apply list_elem_of_here.
    - apply lookup_insert_eq. }
  destruct H0 as [Hin0 Hcap0].
  destruct (run_keeps_default_capability tr _ c Hall Hin0 Hcap0) as [Hin Hcap].
  fold s' in Hin, Hcap.
  assert (Hlacks : lacksPull s' c = true) by (unfold lacksPull; now rewrite Hcap).
  assert (Hnon : hasNonPullClients s' = true).
  { unfold hasNonPullClients. apply existsb_exists. exists c. split; [|assumption].
    now apply list_elem_of_In. }
  assert (Hpub : forall u d,
             ToClient c (publishDiagnosticsNotification u d)
               ∈ publishDiagnosticsToNonPullClients s' u d).
  { intros u' d. unfold publishDiagnosticsToNonPullClients.
    apply (list_elem_of_fmap_2 (fun c => ToClient c (publishDiagnosticsNotification u' d))).
    apply list_elem_of_filter. now split. }
  split_and!; try assumption.
  - apply Hpub.
  - intros b n internal msg Hb Hresp Hint. unfold responseOf in Hresp.
    destruct (nonnull (field "method" msg)) eqn:Hm;
      [destruct (nonnull (field "id" msg)); discriminate|].
    destruct (nonnull (field "id" msg)) as [i|] eqn:Hi; [|discriminate].
    injection Hresp as ->.
    simpl. unfold onServerMessage. rewrite Hm, Hi.
    unfold onServerResponse. rewrite Hint.
    unfold onInternalServerResponse. simpl. rewrite Hb.
    unfold DiagnosticsBridge.onServerResponse.
    change (hasNonPullClients (set_pendingInternalRequests
              (delete n (pendingInternalRequests s')) s')) with (hasNonPullClients s').
    rewrite Hnon. simpl. apply Hpub.
Qed.

(** Scenario S3 of the specification with a third client: client 2
    advertises pull diagnostics, client 3 has connected and sent a
    [didOpen] but no [initialize] yet; the notification goes to clients 1
    and 3. *)
Lemma C10_witness :
  let pullInit := [("id", JNum 1); ("method", JStr "initialize");
                   ("params", JObj [("capabilities",
                      JObj [("textDocument", JObj [("diagnostic", JObj [])])])])] in
  let didOpen := [("method", JStr "textDocument/didOpen");
                  ("params", JObj [("textDocument", JObj [("uri", JStr "file:///x.ts")])])] in
  let s := fst (run (MuxState_new tsgoSpec) [Accept; Accept; FromClient 2 pullInit]) in
  let s' := fst (run (fst (step s Accept)) [FromClient 3 didOpen; FromClient 2 didOpen]) in
  nextClientId s = 3
  /\ ToClient 3 (publishDiagnosticsNotification "file:///x.ts" [])
       ∈ publishDiagnosticsToNonPullClients s' "file:///x.ts" []
  /\ publishDiagnosticsToNonPullClients s' "file:///x.ts" []
     = [ToClient 1 (publishDiagnosticsNotification "file:///x.ts" []);
        ToClient 3 (publishDiagnosticsNotification "file:///x.ts" [])].
Proof.
  intros pullInit didOpen s s'. split; [reflexivity|]. split.
  - apply (C10_accepted_client_counts_as_non_pull s
             [FromClient 3 didOpen; FromClient 2 didOpen] "file:///x.ts" []).
    repeat constructor; simpl; intros; try reflexivity.
  - vm_compute. reflexivity.
Defined.

(* ================================================================== *)
(** ** Properties of the framer that reuses its buffer *)
(* ================================================================== *)

Lemma copy_fits (source target : list byte) (ts ss se : nat) :
  (ts + (se - ss) <= length target)%nat -> (se <= length source)%nat ->
  Windowed.copy source target ts ss se
  = take ts target ++ Windowed.subarray source ss se ++ drop (ts + (se - ss)) target.
Proof.
  intros Ht Hs. unfold Windowed.copy, Windowed.subarray.
  assert (Hl : length (take (se - ss) (drop ss source)) = (se - ss)%nat).
  { rewrite length_take, length_drop. lia. }
  rewrite (take_ge (take (se - ss) (drop ss source))) by lia.
  now rewrite Hl.
Qed.

Lemma copy_length (source target : list byte) (ts ss se : nat) :
  length (Windowed.copy source target ts ss se) = length target.
Proof.
  unfold Windowed.copy. rewrite !length_app, !length_take, !length_drop. lia.
Qed.

Section WindowedProperties.

Variable JSON_parse : list byte -> option json.
Variable allocUnsafe : nat -> nat -> list byte.
Hypothesis allocUnsafe_length : forall k n, length (allocUnsafe k n) = n.

Lemma ensureCapacity_ok incoming w :
  windowOk w ->
  let w' := Windowed.ensureCapacity allocUnsafe incoming w in
  windowOk w'
  /\ pendingBytes w' = pendingBytes w
  /\ (Windowed.end_ w' + incoming <= length (Windowed.buffer w'))%nat.
Proof.
  intros Hw. unfold Windowed.ensureCapacity.
  destruct w as [b s e k]. unfold windowOk, pendingBytes in *. simpl in *.
  cbv zeta.
  destruct (Nat.leb_spec incoming (length b - e)) as [H1|H1];
    [simpl; split_and!; [lia|lia|reflexivity|lia]|].
  assert (Hslide :
    forall b1 s1 e1,
      {| Windowed.buffer := b1; Windowed.start := s1; Windowed.end_ := e1;
         Windowed.allocations := k |}
      = (if (0 <? s)%nat
         then {| Windowed.buffer := Windowed.copy b b 0 s e; Windowed.start := 0;
                 Windowed.end_ := e - s; Windowed.allocations := k |}
         else {| Windowed.buffer := b; Windowed.start := s; Windowed.end_ := e;
                 Windowed.allocations := k |}) ->
      (s1 <= e1 <= length b1)%nat
      /\ Windowed.subarray b1 s1 e1 = Windowed.subarray b s e
      /\ length b1 = length b).
  { intros b1 s1 e1 E. destruct (Nat.ltb_spec 0 s) as [Hs|Hs].
    - injection E as -> -> ->. rewrite copy_length. split; [lia|]. split; [|reflexivity].
      rewrite copy_fits by lia. simpl. unfold Windowed.subarray at 1.
      rewrite drop_0, Nat.sub_0_r. apply take_app_length'.
      unfold Windowed.subarray. rewrite length_take, length_drop. lia.
    - injection E as -> -> ->. auto. }
  destruct (if (0 <? s)%nat then _ else _) as [b1 s1 e1 k1] eqn:E.
  assert (k1 = k) as -> by (destruct (0 <? s)%nat; now injection E).
  destruct (Hslide b1 s1 e1 eq_refl) as (Hok1 & Hpb1 & Hlen1). simpl.
  destruct (Nat.leb_spec incoming (length b1 - e1)) as [H2|H2]; simpl.
  { split; [lia|]. split; [assumption|lia]. }
  rewrite copy_length, allocUnsafe_length.
  split; [lia|]. split; [|lia].
  rewrite copy_fits by (rewrite ?allocUnsafe_length; lia). simpl.
  rewrite <- Hpb1. unfold Windowed.subarray at 1. rewrite drop_0, Nat.sub_0_r.
  apply take_app_length'. unfold Windowed.subarray.
  rewrite length_take, length_drop. lia.
Qed.

Lemma receive_ok chunk w :
  windowOk w ->
  windowOk (Windowed.receive allocUnsafe chunk w)
  /\ pendingBytes (Windowed.receive allocUnsafe chunk w) = pendingBytes w ++ chunk.
Proof.
  intros Hw. unfold Windowed.receive.
  destruct (ensureCapacity_ok (length chunk) w Hw) as (Hok & Hpb & Hcap).
  destruct (Windowed.ensureCapacity allocUnsafe (length chunk) w) as [b s e k].
  unfold windowOk, pendingBytes in *. simpl in *. rewrite <- Hpb.
  rewrite copy_length. split; [lia|].
  rewrite copy_fits by lia.
  unfold Windowed.subarray. rewrite Nat.sub_0_r, drop_0, firstn_all.
  rewrite drop_app_le by (rewrite length_take; lia).
  rewrite app_assoc, skipn_firstn_comm.
  apply take_app_length'. rewrite length_app, length_take, length_drop. lia.
Qed.

Lemma scan_window w :
  windowOk w ->
  match Windowed.scan JSON_parse w with
  | Windowed.Break => scan_nonneg JSON_parse (pendingBytes w) = Break
  | Windowed.Throw e => scan_nonneg JSON_parse (pendingBytes w) = Throw e
  | Windowed.Yield m w' =>
      scan_nonneg JSON_parse (pendingBytes w) = Yield m (pendingBytes w')
      /\ windowOk w'
      /\ (length (pendingBytes w') < length (pendingBytes w))%nat
  end.
Proof.
  intros Hw. unfold Windowed.scan, scan_nonneg, scan.
  destruct w as [b s e k]. unfold windowOk, pendingBytes in *. simpl in *.
  destruct (indexOf CRLFCRLF (Windowed.subarray b s e)) as [i|] eqn:Ei; [|reflexivity].
  pose proof (indexOf_bound _ _ _ Ei) as Hi. simpl in Hi.
  assert (Hlen : length (Windowed.subarray b s e) = (e - s)%nat).
  { unfold Windowed.subarray. rewrite length_take, length_drop. lia. }
  rewrite Hlen in Hi.
  assert (Hheader : Windowed.subarray b s (s + i) = take i (Windowed.subarray b s e)).
  { unfold Windowed.subarray. rewrite take_take.
    replace (s + i - s)%nat with i by lia. f_equal. lia. }
  rewrite Hheader.
  destruct (parseContentLength (take i (Windowed.subarray b s e))) as [n| |];
    [|reflexivity|reflexivity].
  destruct (Z.ltb_spec n 0) as [Hneg|Hpos]; [reflexivity|].
  rewrite Hlen.
  destruct (Z.ltb_spec (Z.of_nat e) (Z.of_nat (s + i + 4) + n)) as [Hshort|Hfull].
  { destruct (Z.ltb_spec (Z.of_nat (e - s)) (Z.of_nat i + 4 + n)); [reflexivity|lia]. }
  destruct (Z.ltb_spec (Z.of_nat (e - s)) (Z.of_nat i + 4 + n)); [lia|].
  assert (Hbody :
    slice (Windowed.subarray b s e) (Z.of_nat i + 4) (Z.of_nat i + 4 + n)
    = Windowed.subarray b (s + i + 4) (Z.to_nat (Z.of_nat (s + i + 4) + n))).
  { replace (Z.of_nat i + 4) with (Z.of_nat (i + 4)) by lia.
    replace (Z.of_nat (i + 4) + n) with (Z.of_nat (i + 4 + Z.to_nat n)) by lia.
    rewrite slice_inside by lia. unfold Windowed.subarray.
    rewrite skipn_firstn_comm, drop_drop, take_take. f_equal; [lia|f_equal; lia]. }
  rewrite Hbody.
  destruct (JSON_parse _) as [m|]; [|reflexivity].
  assert (Hrest :
    slice (Windowed.subarray b s e) (Z.of_nat i + 4 + n) (Z.of_nat (e - s))
    = drop (i + 4 + Z.to_nat n) (Windowed.subarray b s e)).
  { replace (Z.of_nat i + 4 + n) with (Z.of_nat (i + 4 + Z.to_nat n)) by lia.
    rewrite slice_inside by lia. apply take_ge. rewrite length_drop. lia. }
  rewrite Hrest.
  destruct (Nat.eqb_spec (Z.to_nat (Z.of_nat (s + i + 4) + n)) e) as [Heq|Hne]; simpl.
  - split_and!; try lia.
    f_equal. rewrite drop_ge by (rewrite Hlen; lia). reflexivity.
  - split_and!; try lia.
    + f_equal. unfold Windowed.subarray.
      rewrite skipn_firstn_comm, drop_drop. f_equal; [lia|f_equal; lia].
    + unfold Windowed.subarray. rewrite length_take, length_drop. lia.
Qed.

Lemma scan_nonneg_scan b r :
  scan_nonneg JSON_parse b = r -> r <> Throw LengthOutsideModel ->
  scan JSON_parse b = r.
Proof.
  unfold scan_nonneg. intros H Hr.
  destruct (indexOf CRLFCRLF b) as [i|] eqn:Ei.
  - destruct (parseContentLength (take i b)) as [n| |] eqn:En; auto.
    destruct (n <? 0); [congruence|assumption].
  - unfold scan. now rewrite Ei.
Qed.

Lemma drain_window fuel : forall w,
  windowOk w ->
  match Windowed.drain JSON_parse fuel w with
  | (ms, inl w') =>
      drain JSON_parse fuel (pendingBytes w) = (ms, inl (pendingBytes w'))
      /\ windowOk w'
  | (ms, inr e) =>
      e <> LengthOutsideModel ->
      drain JSON_parse fuel (pendingBytes w) = (ms, inr e)
  end.
Proof.
  induction fuel as [|fuel IH]; intros w Hw; simpl; [auto|].
  pose proof (scan_window w Hw) as Hs.
  destruct (Windowed.scan JSON_parse w) as [|e|m w'].
  - rewrite (scan_nonneg_scan _ _ Hs) by discriminate. auto.
  - intros He. rewrite (scan_nonneg_scan _ _ Hs) by congruence. reflexivity.
  - destruct Hs as (Hs & Hw' & _).
    rewrite (scan_nonneg_scan _ _ Hs) by discriminate.
    specialize (IH w' Hw').
    destruct (Windowed.drain JSON_parse fuel w') as [ms [w''|e]].
    + destruct IH as [-> ?]. auto.
    + intros He. now rewrite (IH He).
Qed.

Lemma readLoop_window chunks : forall w,
  windowOk w ->
  ended (Windowed.readLoop JSON_parse allocUnsafe w chunks) <> LengthOutsideModel ->
  Windowed.readLoop JSON_parse allocUnsafe w chunks
  = readLoop JSON_parse (pendingBytes w) chunks.
Proof.
  induction chunks as [|c chunks IH]; intros w Hw Hend; [reflexivity|].
  cbn [Windowed.readLoop readLoop] in *.
  destruct (receive_ok c w Hw) as [Hw1 Hpb1].
  set (w1 := Windowed.receive allocUnsafe c w) in *.
  assert (Hlen : (Windowed.end_ w1 - Windowed.start w1)%nat = length (pendingBytes w ++ c)).
  { rewrite <- Hpb1. unfold pendingBytes, Windowed.subarray.
    rewrite length_take, length_drop. unfold windowOk in Hw1. lia. }
  rewrite Hlen in *. rewrite <- Hpb1.
  pose proof (drain_window (S (length (pendingBytes w ++ c))) w1 Hw1) as Hd.
  rewrite <- Hpb1 in *.
  destruct (Windowed.drain JSON_parse (S (length (pendingBytes w1))) w1) as [ms [w2|e]].
  - destruct Hd as [-> Hw2]. rewrite IH; auto.
  - simpl in Hend. now rewrite (Hd Hend).
Qed.

End WindowedProperties.

(** X1 (the second [readMessages], with [ensureCapacity]): whatever the
    chunks and whatever the content of freshly allocated buffers, the
    decoder that reuses its buffer yields the messages and ends as the
    decoder that concatenates does, as long as it does not end on a
    declared length outside the model. *)
Theorem windowed_readMessages_agrees
    (JSON_parse : list byte -> option json) (allocUnsafe : nat -> nat -> list byte)
    (chunks : list (list byte)) :
  (forall k n, length (allocUnsafe k n) = n) ->
  ended (Windowed.readMessages JSON_parse allocUnsafe chunks) <> LengthOutsideModel ->
  Windowed.readMessages JSON_parse allocUnsafe chunks = readMessages JSON_parse chunks.
Proof.
  intros Halloc Hend. unfold Windowed.readMessages, readMessages in *.
  rewrite (readLoop_window JSON_parse allocUnsafe Halloc); auto.
  unfold windowOk. simpl. rewrite Halloc. lia.
Qed.

Lemma windowed_readMessages_agrees_witness :
  let m1 := [("jsonrpc", JStr "2.0"); ("method", JStr "initialized")] in
  let m2 := [("id", JNum 7); ("result", JNull)] in
  let stream := encodeAll MiniJSON.stringify [m1; m2] in
  let chunks := [take 30 stream; take 40 (drop 30 stream); drop 70 stream] in
  let allocUnsafe := fun (_ n : nat) => repeat x7b n in
  Windowed.readMessages MiniJSON.parse allocUnsafe chunks
  = readMessages MiniJSON.parse chunks.
Proof.
  intros m1 m2 stream chunks allocUnsafe.
  apply (windowed_readMessages_agrees MiniJSON.parse allocUnsafe chunks).
  - intros k n. apply repeat_length.
  - vm_compute. discriminate.
Defined.

Section WindowedStreams.

Variable JSON_stringify : json -> list byte.
Variable JSON_parse : list byte -> option json.
Variable allocUnsafe : nat -> nat -> list byte.
Hypothesis allocUnsafe_length : forall k n, length (allocUnsafe k n) = n.

Lemma scan_nonneg_frame h body rest P Q :
  framed h body -> P ++ Q = frame h body ++ rest ->
  scan_nonneg JSON_parse P = scan JSON_parse P.
Proof.
  intros [Hh Hn] HPQ. unfold scan_nonneg.
  destruct (indexOf CRLFCRLF P) as [i|] eqn:Ei; [|unfold scan; now rewrite Ei].
  pose proof (indexOf_bound _ _ _ Ei) as Hi.
  pose proof (indexOf_app _ _ Q _ Ei) as Ei'.
  unfold frame in HPQ. rewrite <- !app_assoc in HPQ.
  rewrite HPQ, (headerBlock_found h (body ++ rest) Hh) in Ei'. injection Ei' as <-.
  assert (Hhead : take (length h) P = h).
  { rewrite <- (take_app_le P Q) by lia. rewrite HPQ. apply take_app_length. }
  rewrite Hhead, Hn.
  now destruct (Z.ltb_spec (Z.of_nat (length body)) 0); [lia|].
Qed.

Lemma inStream_scan P Q :
  inStream JSON_stringify JSON_parse P Q ->
  scan_nonneg JSON_parse P = scan JSON_parse P
  /\ (forall m rest, scan JSON_parse P = Yield m rest -> inStream JSON_stringify JSON_parse rest Q).
Proof.
  intros (ms & Hms & HPQ). destruct ms as [|m ms].
  - simpl in HPQ. apply app_eq_nil in HPQ as [-> ->]. split; [reflexivity|].
    intros m rest H. discriminate.
  - inversion Hms as [|? ? [Hparse Hsize] Hms']; subst.
    rewrite encodeAll_cons, encodeMessage_frame in HPQ.
    pose proof (encodeMessage_framed JSON_stringify m Hsize) as Hframed.
    split; [exact (scan_nonneg_frame _ _ _ P Q Hframed HPQ)|].
    intros m' rest Hscan.
    destruct (prefix_split _ _ _ _ HPQ) as [Hshort Hlong].
    destruct (Nat.lt_ge_cases (length P)
                (length (frame (contentLengthHeader (length (JSON_stringify (JObj m))))
                               (JSON_stringify (JObj m))))) as [Hl|Hl].
    + destruct (Hshort Hl) as (Q' & HQ' & Hne).
      rewrite (scan_frame_incomplete JSON_parse _ _ P Q' Hframed HQ' Hne) in Hscan.
      discriminate.
    + destruct (Hlong Hl) as (P1 & -> & HP1).
      rewrite (scan_frame JSON_parse _ _ P1 Hframed), Hparse in Hscan.
      injection Hscan as _ <-. now exists ms.
Qed.

Lemma drain_window_stream Q fuel : forall w,
  windowOk w -> inStream JSON_stringify JSON_parse (pendingBytes w) Q ->
  match Windowed.drain JSON_parse fuel w with
  | (out, inl w') =>
      drain JSON_parse fuel (pendingBytes w) = (out, inl (pendingBytes w'))
      /\ windowOk w' /\ inStream JSON_stringify JSON_parse (pendingBytes w') Q
  | (out, inr e) => drain JSON_parse fuel (pendingBytes w) = (out, inr e)
  end.
Proof.
  induction fuel as [|fuel IH]; intros w Hw Hin; simpl; [reflexivity|].
  pose proof (scan_window JSON_parse w Hw) as Hs.
  destruct (inStream_scan _ _ Hin) as [Heq Hnext]. rewrite Heq in Hs.
  destruct (Windowed.scan JSON_parse w) as [|e|m w'].
  - rewrite Hs. auto.
  - now rewrite Hs.
  - destruct Hs as (Hs & Hw' & _). rewrite Hs.
    specialize (IH w' Hw' (Hnext _ _ Hs)).
    destruct (Windowed.drain JSON_parse fuel w') as [out [w''|e]].
    + destruct IH as (-> & ? & ?). auto.
    + now rewrite IH.
Qed.

Lemma readLoop_window_stream chunks : forall w,
  windowOk w -> inStream JSON_stringify JSON_parse (pendingBytes w) (concat chunks) ->
  Windowed.readLoop JSON_parse allocUnsafe w chunks
  = readLoop JSON_parse (pendingBytes w) chunks.
Proof.
  induction chunks as [|c chunks IH]; intros w Hw Hin; [reflexivity|].
  cbn [Windowed.readLoop readLoop].
  destruct (receive_ok allocUnsafe allocUnsafe_length c w Hw) as [Hw1 Hpb1].
  set (w1 := Windowed.receive allocUnsafe c w) in *.
  assert (Hlen : (Windowed.end_ w1 - Windowed.start w1)%nat = length (pendingBytes w1)).
  { unfold pendingBytes, Windowed.subarray.
    rewrite length_take, length_drop. unfold windowOk in Hw1. lia. }
  rewrite Hlen, <- Hpb1.
  assert (Hin1 : inStream JSON_stringify JSON_parse (pendingBytes w1) (concat chunks)).
  { destruct Hin as (ms & Hms & HPQ). exists ms. split; [assumption|].
    rewrite Hpb1, <- app_assoc. exact HPQ. }
  pose proof (drain_window_stream (concat chunks) (S (length (pendingBytes w1)))
                w1 Hw1 Hin1) as Hd.
  destruct (Windowed.drain JSON_parse (S (length (pendingBytes w1))) w1) as [ms [w2|e]].
  - destruct Hd as (-> & Hw2 & Hin2). now rewrite IH.
  - now rewrite Hd.
Qed.

End WindowedStreams.

(** X2 (the second [readMessages] after [encodeMessage]): a stream of
    encoded messages, cut into chunks anywhere, is decoded by the decoder
    that reuses its buffer into these messages, in order, and the decoder
    ends with the stream. *)
Theorem windowed_encode_then_decode
    (JSON_stringify : json -> list byte) (JSON_parse : list byte -> option json)
    (allocUnsafe : nat -> nat -> list byte)
    (ms : list JsonRpcMessage) (chunks : list (list byte)) :
  (forall k n, length (allocUnsafe k n) = n) ->
  Forall (wellEncoded JSON_stringify JSON_parse) ms ->
  concat chunks = encodeAll JSON_stringify ms ->
  Windowed.readMessages JSON_parse allocUnsafe chunks
  = {| yielded := map JObj ms; ended := EndOfStream |}.
Proof.
  intros Halloc Hms Hchunks. unfold Windowed.readMessages.
  rewrite (readLoop_window_stream JSON_stringify JSON_parse allocUnsafe Halloc).
  - apply (readLoop_stream JSON_stringify JSON_parse [] 1 EndOfStream); auto.
    + intros P Q HPQ. apply app_eq_nil in HPQ as [-> ->]. split; [reflexivity|].
      simpl. lia.
    + simpl. now rewrite app_nil_r.
  - unfold windowOk. simpl. rewrite Halloc. lia.
  - exists ms. split; [assumption|]. exact Hchunks.
Qed.

Lemma windowed_encode_then_decode_witness :
  let m1 := [("jsonrpc", JStr "2.0"); ("method", JStr "initialized")] in
  let m2 := [("id", JNum 7); ("result", JNull)] in
  let stream := encodeAll MiniJSON.stringify [m1; m2] in
  let chunks := [take 30 stream; take 40 (drop 30 stream); drop 70 stream] in
  let allocUnsafe := fun (_ n : nat) => repeat x0d n in
  Windowed.readMessages MiniJSON.parse allocUnsafe chunks
  = {| yielded := [JObj m1; JObj m2]; ended := EndOfStream |}.
Proof.
  intros m1 m2 stream chunks allocUnsafe.
  apply (windowed_encode_then_decode MiniJSON.stringify MiniJSON.parse allocUnsafe
           [m1; m2] chunks).
  - intros k n. apply repeat_length.
  - repeat constructor; vm_compute; congruence.
  - vm_compute. reflexivity.
Defined.

Lemma ensureCapacity_never_shrinks allocUnsafe incoming w :
  (forall k n, length (allocUnsafe k n) = n) ->
  (length (Windowed.buffer w)
   <= length (Windowed.buffer (Windowed.ensureCapacity allocUnsafe incoming w)))%nat.
Proof.
  intros Halloc. unfold Windowed.ensureCapacity.
  repeat case_match; simpl; rewrite ?copy_length, ?Halloc; lia.
Qed.

(** X3 ([ensureCapacity] and the copy of a chunk): receiving a chunk
    keeps [start <= end <= buffer.length], appends the chunk to the bytes
    not yet consumed, whether the buffer was kept, compacted or replaced by
    a larger one, and never makes the buffer shorter. *)
Theorem windowed_receive_keeps_bytes
    (allocUnsafe : nat -> nat -> list byte) (chunk : list byte) (w : Windowed.window) :
  (forall k n, length (allocUnsafe k n) = n) ->
  windowOk w ->
  let w' := Windowed.receive allocUnsafe chunk w in
  windowOk w'
  /\ pendingBytes w' = pendingBytes w ++ chunk
  /\ (length (Windowed.buffer w) <= length (Windowed.buffer w'))%nat.
Proof.
  intros Halloc Hw w'.
  destruct (receive_ok allocUnsafe Halloc chunk w Hw) as [H1 H2].
  split_and!; [assumption..|].
  unfold w', Windowed.receive. simpl. rewrite copy_length.
  now apply ensureCapacity_never_shrinks.
Qed.

Lemma windowed_receive_keeps_bytes_witness :
  let w := {| Windowed.buffer := list_byte_of_string "abcdefgh";
              Windowed.start := 5; Windowed.end_ := 8;
              Windowed.allocations := 1 |} in
  let allocUnsafe := fun (_ n : nat) => repeat x2a n in
  let w' := Windowed.receive allocUnsafe (list_byte_of_string "1234567") w in
  windowOk w'
  /\ pendingBytes w' = list_byte_of_string "fgh1234567"
  /\ (8 <= length (Windowed.buffer w'))%nat.
Proof.
  intros w allocUnsafe.
  apply (windowed_receive_keeps_bytes allocUnsafe (list_byte_of_string "1234567") w).
  - intros k n. apply repeat_length.
  - unfold windowOk. simpl. lia.
Defined.


(* ================================================================== *)
(** ** Properties of the buffered writers *)
(* ================================================================== *)

Section WriterProperties.

Variable accepts : nat -> bool.

Lemma write_ok buf w :
  writerOk w ->
  let '(w', hooks) := BufferedWriter.write accepts buf w in
  writerOk w'
  /\ hooks = hooksBetween (BufferedWriter.paused w) (BufferedWriter.paused w')
  /\ BufferedWriter.written w' ++ BufferedWriter.queue w'
     = BufferedWriter.written w ++ BufferedWriter.queue w ++ [buf].
Proof.
  destruct w as [wr n q wt p]. unfold writerOk. simpl. intros (-> & Hq & ->).
  unfold BufferedWriter.write, BufferedWriter.waitForDrain, BufferedWriter.pauseIfNeeded,
    BufferedWriter.stream_write.
  simpl. destruct wt; simpl.
  - split_and!; auto; discriminate.
  - rewrite (Hq eq_refl). destruct (accepts (length wr)); simpl.
    + split_and!; auto. now rewrite !app_nil_r.
    + split_and!; auto; try discriminate. now rewrite !app_nil_r.
Qed.

Lemma flush_loop_ok q : forall w,
  BufferedWriter.queue w = q ->
  BufferedWriter.paused w = true ->
  BufferedWriter.waitingForDrain w = false ->
  BufferedWriter.drainListeners w = 0%nat ->
  let '(w', hooks) := BufferedWriter.flush_loop accepts q w in
  writerOk w'
  /\ hooks = hooksBetween true (BufferedWriter.paused w')
  /\ BufferedWriter.written w' ++ BufferedWriter.queue w'
     = BufferedWriter.written w ++ q.
Proof.
  induction q as [|next rest IH]; intros [wr n q' wt p]; simpl; intros -> -> -> ->.
  - unfold writerOk. simpl. split_and!; auto.
  - unfold BufferedWriter.stream_write. simpl.
    destruct (accepts (length wr)).
    + specialize (IH {| BufferedWriter.written := wr ++ [next];
                        BufferedWriter.drainListeners := 0;
                        BufferedWriter.queue := rest;
                        BufferedWriter.waitingForDrain := false;
                        BufferedWriter.paused := true |}
                     eq_refl eq_refl eq_refl eq_refl).
      destruct (BufferedWriter.flush_loop accepts rest _) as [w' hooks].
      destruct IH as (? & ? & ->). simpl. now rewrite <- app_assoc.
    + unfold writerOk. simpl. split_and!; auto; try discriminate.
      now rewrite <- app_assoc.
Qed.

Lemma onDrain_ok w :
  writerOk w ->
  let '(w', hooks) := BufferedWriter.onDrain accepts w in
  writerOk w'
  /\ hooks = hooksBetween (BufferedWriter.paused w) (BufferedWriter.paused w')
  /\ BufferedWriter.written w' ++ BufferedWriter.queue w'
     = BufferedWriter.written w ++ BufferedWriter.queue w.
Proof.
  destruct w as [wr n q wt p]. unfold writerOk. simpl. intros (-> & Hq & ->).
  unfold BufferedWriter.onDrain. simpl. destruct wt; simpl.
  - unfold BufferedWriter.flush. simpl.
    pose proof (flush_loop_ok q
      {| BufferedWriter.written := wr; BufferedWriter.drainListeners := 0;
         BufferedWriter.queue := q; BufferedWriter.waitingForDrain := false;
         BufferedWriter.paused := true |} eq_refl eq_refl eq_refl eq_refl) as H.
    destruct (BufferedWriter.flush_loop accepts q _) as [w' hooks]. exact H.
  - rewrite (Hq eq_refl). split_and!; auto.
Qed.

Lemma step_ok w e :
  writerOk w ->
  let '(w', hooks) := BufferedWriter.step accepts w e in
  writerOk w'
  /\ hooks = hooksBetween (BufferedWriter.paused w) (BufferedWriter.paused w')
  /\ BufferedWriter.written w' ++ BufferedWriter.queue w'
     = BufferedWriter.written w ++ BufferedWriter.queue w ++ buffersOf [e].
Proof.
  intros Hw. destruct e as [buf|]; simpl.
  - pose proof (write_ok buf w Hw) as H.
    destruct (BufferedWriter.write accepts buf w). exact H.
  - pose proof (onDrain_ok w Hw) as H.
    destruct (BufferedWriter.onDrain accepts w). now rewrite app_nil_r.
Qed.

Lemma run_ok tr : forall w,
  writerOk w ->
  let '(w', hooks) := BufferedWriter.run accepts w tr in
  writerOk w'
  /\ pausedAfter (BufferedWriter.paused w) hooks = Some (BufferedWriter.paused w')
  /\ BufferedWriter.written w' ++ BufferedWriter.queue w'
     = BufferedWriter.written w ++ BufferedWriter.queue w ++ buffersOf tr.
Proof.
  induction tr as [|e tr IH]; intros w Hw.
  - simpl. now rewrite !app_nil_r.
  - cbn [BufferedWriter.run]. pose proof (step_ok w e Hw) as Hs.
    destruct (BufferedWriter.step accepts w e) as [w1 h1].
    destruct Hs as (Hw1 & -> & Hb1). specialize (IH w1 Hw1).
    destruct (BufferedWriter.run accepts w1 tr) as [w2 h2].
    destruct IH as (Hw2 & Hp & Hb2). split_and!; [assumption| |].
    + destruct (BufferedWriter.paused w), (BufferedWriter.paused w1); simpl; assumption.
    + rewrite Hb2, app_assoc, Hb1. destruct e; simpl; now rewrite ?app_nil_r, <- !app_assoc.
Qed.

End WriterProperties.

(** X4 ([BufferedWriter.write] and [flush]): what a writer has handed to
    its stream, followed by what it still queues, is what it was asked to
    write, in order: nothing is lost, repeated or reordered, whatever the
    stream answers and whenever it drains. *)
Theorem writer_keeps_order (accepts : nat -> bool) (tr : list BufferedWriter.event) :
  handedOver (fst (BufferedWriter.run accepts BufferedWriter.new tr)) = buffersOf tr.
Proof.
  assert (Hnew : writerOk BufferedWriter.new) by (unfold writerOk; simpl; auto).
  pose proof (run_ok accepts tr BufferedWriter.new Hnew) as H.
  destruct (BufferedWriter.run accepts BufferedWriter.new tr) as [w hooks].
  destruct H as (_ & _ & H). exact H.
Qed.

(** X5 ([pauseIfNeeded], [waitForDrain], [flush]): a writer is paused
    exactly while it waits for [drain], queues only while it waits, has one
    [drain] listener while it waits and none otherwise; its calls of
    [onBackpressure] and [onResume] alternate, starting with
    [onBackpressure], and leave it paused exactly after [onBackpressure]. *)
Theorem writer_signals_backpressure (accepts : nat -> bool)
    (tr : list BufferedWriter.event) :
  let w := fst (BufferedWriter.run accepts BufferedWriter.new tr) in
  let hooks := snd (BufferedWriter.run accepts BufferedWriter.new tr) in
  writerOk w /\ pausedAfter false hooks = Some (BufferedWriter.paused w).
Proof.
  assert (Hnew : writerOk BufferedWriter.new) by (unfold writerOk; simpl; auto).
  pose proof (run_ok accepts tr BufferedWriter.new Hnew) as H.
  destruct (BufferedWriter.run accepts BufferedWriter.new tr) as [w hooks].
  destruct H as (H1 & H2 & _). split; assumption.
Qed.

Lemma flush_loop_accepted accepts q : forall w,
  (forall k, (length (BufferedWriter.written w) <= k)%nat -> accepts k = true) ->
  BufferedWriter.queue w = q ->
  BufferedWriter.waitingForDrain w = false ->
  BufferedWriter.paused w = true ->
  BufferedWriter.flush_loop accepts q w
  = ({| BufferedWriter.written := BufferedWriter.written w ++ q;
        BufferedWriter.drainListeners := BufferedWriter.drainListeners w;
        BufferedWriter.queue := [];
        BufferedWriter.waitingForDrain := false;
        BufferedWriter.paused := false |}, [BufferedWriter.onResume]).
Proof.
  induction q as [|next rest IH]; intros [wr n q' wt p] Hacc; simpl; intros -> -> ->.
  - now rewrite app_nil_r.
  - unfold BufferedWriter.stream_write. simpl in *.
    rewrite (Hacc (length wr) (le_n _)).
    rewrite IH; simpl; auto.
    + now rewrite <- app_assoc.
    + intros k Hk. apply Hacc. rewrite length_app in Hk. simpl in Hk. lia.
Qed.

(** X6 ([flush] on [drain]): when a waiting writer's stream drains and
    accepts every write from then on, the whole queue goes to the stream in
    order, the writer stops waiting and calls [onResume] once. *)
Theorem writer_drain_empties_queue (accepts : nat -> bool) (w : BufferedWriter.t) :
  writerOk w ->
  BufferedWriter.waitingForDrain w = true ->
  (forall k, (length (BufferedWriter.written w) <= k)%nat -> accepts k = true) ->
  BufferedWriter.onDrain accepts w
  = ({| BufferedWriter.written := BufferedWriter.written w ++ BufferedWriter.queue w;
        BufferedWriter.drainListeners := 0;
        BufferedWriter.queue := [];
        BufferedWriter.waitingForDrain := false;
        BufferedWriter.paused := false |}, [BufferedWriter.onResume]).
Proof.
  destruct w as [wr n q wt p]. unfold writerOk. simpl.
  intros (-> & _ & ->) -> Hacc.
  unfold BufferedWriter.onDrain, BufferedWriter.flush. simpl.
  now rewrite flush_loop_accepted.
Qed.

Lemma writer_drain_empties_queue_witness :
  let accepts := fun k : nat => negb (k =? 0)%nat in
  let a := list_byte_of_string "a" in
  let b := list_byte_of_string "b" in
  let c := list_byte_of_string "c" in
  let w := fst (BufferedWriter.run accepts BufferedWriter.new
                  [BufferedWriter.Write a; BufferedWriter.Write b; BufferedWriter.Write c]) in
  (BufferedWriter.written w = [a] /\ BufferedWriter.queue w = [b; c])
  /\ BufferedWriter.onDrain accepts w
     = ({| BufferedWriter.written := [a; b; c];
           BufferedWriter.drainListeners := 0;
           BufferedWriter.queue := [];
           BufferedWriter.waitingForDrain := false;
           BufferedWriter.paused := false |}, [BufferedWriter.onResume]).
Proof.
  intros accepts a b c w. split; [split; reflexivity|].
  apply (writer_drain_empties_queue accepts w).
  - unfold writerOk. simpl. split_and!; [reflexivity|discriminate|reflexivity].
  - reflexivity.
  - intros k Hk. destruct k; [simpl in Hk; lia|reflexivity].
Defined.


(* ================================================================== *)
(** ** Properties of the mux with its writers *)
(* ================================================================== *)

Ltac flow :=
  unfold Backpressure.lspHook, Backpressure.clientHook, Backpressure.markClientBackpressure, Backpressure.clearClientBackpressure,
    Backpressure.pauseLspReads, Backpressure.resumeLspReads, Backpressure.pauseClientReads, Backpressure.resumeClientReads,
    Backpressure.set_lspReads, Backpressure.set_clientReads, Backpressure.set_backpressuredClients, Backpressure.set_clientWriters,
    Backpressure.set_lspWriter, Backpressure.set_routing in *.

(** A client's writer goes from [w0] to [w1] and calls its hooks. *)
Lemma client_writer_step c w0 w1 s :
  flowOk s -> Backpressure.clientWriters s !! c = Some w0 -> writerOk w1 ->
  let s' := fold_left (Backpressure.clientHook c)
              (hooksBetween (BufferedWriter.paused w0) (BufferedWriter.paused w1))
              (Backpressure.set_clientWriters (<[c := w1]> (Backpressure.clientWriters s)) s) in
  flowOk s' /\ Backpressure.routing s' = Backpressure.routing s /\ Backpressure.lspWriter s' = Backpressure.lspWriter s
  /\ Backpressure.clientWriters s' = <[c := w1]> (Backpressure.clientWriters s).
Proof.
  intros [H1 H2 H3 H4 H5 H6 H7 H8 H9 H10] Hc Hw1.
  assert (Hin : c ∈ Backpressure.backpressuredClients s <-> BufferedWriter.paused w0 = true).
  { rewrite H3. split; [intros (w & Hw & Hp); congruence|eauto]. }
  destruct s as [r lw cw bp lp cp sp sk]. simpl in *. subst sp.
  assert (A2 : forall c' w, <[c := w1]> cw !! c' = Some w -> writerOk w).
  { intros c' w. rewrite lookup_insert_Some. intros [[_ <-]|[_ ?]]; eauto. }
  assert (A8 : forall c', c' ∈ clients r <-> is_Some (<[c := w1]> cw !! c')).
  { intros c'. rewrite H8, lookup_insert_is_Some. split.
    - intros ?. destruct (decide (c = c')); auto.
    - intros [<-|[_ ?]]; [eauto|assumption]. }
  assert (A3 : forall bp' : gset Z,
    (forall c', c' ∈ bp' <-> (c' <> c /\ c' ∈ bp) \/ (c' = c /\ BufferedWriter.paused w1 = true)) ->
    forall c', c' ∈ bp' <-> exists w, <[c := w1]> cw !! c' = Some w
                                      /\ BufferedWriter.paused w = true).
  { intros bp' Hbp' c'. rewrite Hbp', H3. setoid_rewrite lookup_insert_Some. split.
    - intros [[Hne (w & Hw & Hp)]|[-> Hp]]; eauto 7.
    - intros (w & [[<- <-]|[Hne Hw]] & Hp); [now right|left; eauto]. }
  destruct (BufferedWriter.paused w0) eqn:E0, (BufferedWriter.paused w1) eqn:E1;
    simpl; flow; simpl.
  - split_and!; try reflexivity. constructor; simpl; try assumption; try reflexivity.
    apply A3. intros c'. destruct (decide (c' = c)) as [->|]; tauto.
  - rewrite bool_decide_eq_true_2 by tauto. simpl.
    assert (Hlp : lp = true) by (apply H4; exists c; tauto).
    subst lp. simpl.
    assert (B3 : forall c', c' ∈ bp ∖ {[c]}
                 <-> (c' <> c /\ c' ∈ bp) \/ (c' = c /\ false = true)).
    { intros c'. rewrite elem_of_difference, elem_of_singleton.
      split; [tauto|]. intros [?|[_ ?]]; [tauto|discriminate]. }
    destruct (Nat.ltb_spec 0 (size (bp ∖ {[c]}))) as [Hpos|Hzero]; simpl.
    + split_and!; try reflexivity. constructor; simpl; try assumption; try reflexivity.
      * now apply A3.
      * split; [intros _|reflexivity].
        assert (Hne : bp ∖ {[c]} ≢ ∅) by (apply size_non_empty_iff; lia).
        apply set_choose in Hne. exact Hne.
    + split_and!; try reflexivity. constructor; simpl; try assumption; try reflexivity.
      * now apply A3.
      * split; [discriminate|]. intros [c' Hc'].
        assert (Hem : bp ∖ {[c]} ≡ ∅) by (apply size_empty_iff; lia).
        apply Hem in Hc'. now apply elem_of_empty in Hc'.
  - rewrite bool_decide_eq_false_2 by (rewrite Hin; discriminate). simpl.
    assert (B3 : forall c', c' ∈ {[c]} ∪ bp
                 <-> (c' <> c /\ c' ∈ bp) \/ (c' = c /\ true = true)).
    { intros c'. rewrite elem_of_union, elem_of_singleton.
      destruct (decide (c' = c)); tauto. }
    destruct lp; simpl.
    + split_and!; try reflexivity. constructor; simpl; try assumption; try reflexivity.
      * now apply A3.
      * split; [intros _; exists c; apply elem_of_union; left; now apply elem_of_singleton|reflexivity].
    + split_and!; try reflexivity. constructor; simpl; try assumption; try reflexivity.
      * now apply A3.
      * split; [intros _; exists c; apply elem_of_union; left; now apply elem_of_singleton|reflexivity].
  - split_and!; try reflexivity. constructor; simpl; try assumption; try reflexivity.
    apply A3. intros c'. destruct (decide (c' = c)) as [->|]; [|tauto].
    rewrite Hin. split; [discriminate|]. intros [[? _]|[_ ?]]; [congruence|discriminate].
Qed.

(** The writer of the server's stdin goes to [w1] and calls its hooks. *)
Lemma lsp_writer_step w1 s :
  flowOk s -> writerOk w1 ->
  let s' := fold_left Backpressure.lspHook
              (hooksBetween (BufferedWriter.paused (Backpressure.lspWriter s)) (BufferedWriter.paused w1))
              (Backpressure.set_lspWriter w1 s) in
  flowOk s' /\ Backpressure.routing s' = Backpressure.routing s /\ Backpressure.lspWriter s' = w1
  /\ Backpressure.clientWriters s' = Backpressure.clientWriters s.
Proof.
  intros [H1 H2 H3 H4 H5 H6 H7 H8 H9 H10] Hw1.
  destruct s as [r lw cw bp lp cp sp sk]. simpl in *. subst cp sp.
  destruct (BufferedWriter.paused lw) eqn:E0, (BufferedWriter.paused w1) eqn:E1;
    simpl; flow; simpl.
  - split_and!; try reflexivity. constructor; simpl; try assumption; try reflexivity.
    now rewrite E1.
  - split_and!; try reflexivity. constructor; simpl; try assumption; try reflexivity.
    + now rewrite E1.
    + intros c Hc. rewrite elem_of_difference, elem_of_list_to_set. tauto.
    + intros c. rewrite elem_of_difference. intros [? _]. auto.
  - split_and!; try reflexivity. constructor; simpl; try assumption; try reflexivity.
    + now rewrite E1.
    + intros c. rewrite elem_of_union, elem_of_list_to_set. intros [?|?]; auto.
  - split_and!; try reflexivity. constructor; simpl; try assumption; try reflexivity.
    now rewrite E1.
Qed.

Section FlowProperties.

Variable JSON_stringify : json -> list byte.
Variable accepts : option Z -> nat -> bool.

Lemma writeToClient_ok c msg s :
  flowOk s ->
  flowOk (Backpressure.writeToClient JSON_stringify accepts c msg s)
  /\ Backpressure.routing (Backpressure.writeToClient JSON_stringify accepts c msg s) = Backpressure.routing s.
Proof.
  intros Hs. unfold Backpressure.writeToClient.
  destruct (Backpressure.clientWriters s !! c) as [w|] eqn:Hc; [|auto].
  pose proof (write_ok (accepts (Some c)) (encodeMessage JSON_stringify msg) w
                (ok_clientWriters s Hs c w Hc)) as Hw.
  destruct (BufferedWriter.write _ _ w) as [w1 hooks].
  destruct Hw as (Hw1 & -> & _).
  destruct (client_writer_step c w w1 s Hs Hc Hw1) as (? & ? & _). auto.
Qed.

Lemma writeToServer_ok msg s :
  flowOk s ->
  flowOk (Backpressure.writeToServer JSON_stringify accepts msg s)
  /\ Backpressure.routing (Backpressure.writeToServer JSON_stringify accepts msg s) = Backpressure.routing s.
Proof.
  intros Hs. unfold Backpressure.writeToServer.
  pose proof (write_ok (accepts None) (encodeMessage JSON_stringify msg) (Backpressure.lspWriter s)
                (ok_lspWriter s Hs)) as Hw.
  destruct (BufferedWriter.write _ _ (Backpressure.lspWriter s)) as [w1 hooks].
  destruct Hw as (Hw1 & -> & _).
  destruct (lsp_writer_step w1 s Hs Hw1) as (? & ? & _). auto.
Qed.

Lemma deliver_all_ok out : forall s,
  flowOk s ->
  flowOk (fold_left (Backpressure.deliver JSON_stringify accepts) out s)
  /\ Backpressure.routing (fold_left (Backpressure.deliver JSON_stringify accepts) out s) = Backpressure.routing s.
Proof.
  induction out as [|o out IH]; intros s Hs; [auto|]. simpl.
  assert (H : flowOk (Backpressure.deliver JSON_stringify accepts s o)
              /\ Backpressure.routing (Backpressure.deliver JSON_stringify accepts s o) = Backpressure.routing s).
  { destruct o; simpl; [apply writeToServer_ok|apply writeToClient_ok]; assumption. }
  destruct H as [H1 H2]. destruct (IH _ H1) as [H3 H4]. split; [assumption|congruence].
Qed.

Lemma step_keeps_clients s e :
  match e with Accept | Close _ => False | _ => True end ->
  clients (fst (step s e)) = clients s
  /\ nextClientId (fst (step s e)) = nextClientId s.
Proof.
  intros He. destruct e; try contradiction; handlers; cases.
Qed.

Lemma flowOk_routing r s :
  flowOk s -> clients r = clients (Backpressure.routing s) -> nextClientId r = nextClientId (Backpressure.routing s) ->
  flowOk (Backpressure.set_routing r s).
Proof.
  intros [H1 H2 H3 H4 H5 H6 H7 H8 H9 H10] Hc Hn.
  constructor; unfold Backpressure.set_routing; simpl; rewrite ?Hc, ?Hn; assumption.
Qed.

Lemma flow_step_ok s e :
  flowOk s -> flowOk (Backpressure.step JSON_stringify accepts s e).
Proof.
  intros Hs. destruct e as [e|c|]; simpl.
  - destruct (step (Backpressure.routing s) e) as [r out] eqn:Hstep.
    assert (Hr : r = fst (step (Backpressure.routing s) e)) by now rewrite Hstep.
    apply deliver_all_ok.
    destruct e as [|c|c msg|msg|u].
    + simpl in Hstep. injection Hstep as <- <-.
      destruct Hs as [H1 H2 H3 H4 H5 H6 H7 H8 H9 H10].
      assert (Hfresh : nextClientId (Backpressure.routing s) ∉ clients (Backpressure.routing s)).
      { intros Hin. apply H9 in Hin. lia. }
      assert (Hnone : Backpressure.clientWriters s !! nextClientId (Backpressure.routing s) = None).
      { apply eq_None_not_Some. now rewrite <- H8. }
      constructor; unfold Backpressure.set_clientWriters, Backpressure.set_routing, addClient, with_clients; simpl;
        try assumption.
      * intros c w. rewrite lookup_insert_Some. intros [[_ <-]|[_ ?]]; [|eauto].
        unfold writerOk. simpl. auto.
      * intros c. rewrite H3. setoid_rewrite lookup_insert_Some. split.
        -- intros (w & Hw & Hp). exists w. split; [right; split; congruence|assumption].
        -- intros (w & [[_ <-]|[_ Hw]] & Hp); [discriminate|eauto].
      * unfold clients_set. rewrite bool_decide_eq_false_2 by assumption.
        intros c. rewrite elem_of_app, list_elem_of_singleton. intros [Hc| ->]; [eauto|].
        intros Hsk. apply H10 in Hsk. lia.
      * unfold clients_set. rewrite bool_decide_eq_false_2 by assumption.
        intros c. rewrite elem_of_app, list_elem_of_singleton, lookup_insert_is_Some, H8.
        destruct (decide (nextClientId (Backpressure.routing s) = c)); intuition congruence.
      * unfold clients_set. rewrite bool_decide_eq_false_2 by assumption.
        intros c. rewrite elem_of_app, list_elem_of_singleton.
        intros [Hc| ->]; [apply H9 in Hc|]; lia.
      * intros c Hc. apply H10 in Hc. lia.
    + simpl in Hstep. injection Hstep as <- <-.
      destruct Hs as [H1 H2 H3 H4 H5 H6 H7 H8 H9 H10].
      destruct s as [r lw cw bp lp cp sp sk]. simpl in *. subst sp.
      assert (A2 : forall c' w, delete c cw !! c' = Some w -> writerOk w).
      { intros c' w. rewrite lookup_delete_Some. intros [_ ?]. eauto. }
      assert (A3 : forall c', c' ∈ bp ∖ {[c]}
                    <-> exists w, delete c cw !! c' = Some w
                                  /\ BufferedWriter.paused w = true).
      { intros c'. rewrite elem_of_difference, elem_of_singleton, H3.
        setoid_rewrite lookup_delete_Some. split.
        - intros [(w & ? & ?) ?]. exists w. split; [split; congruence|assumption].
        - intros (w & [? ?] & ?). split; [eauto|congruence]. }
      assert (A7 : forall c', c' ∈ clients_delete c (clients r) -> c' ∈ clients r).
      { intros c'. unfold clients_delete. rewrite list_elem_of_filter. tauto. }
      assert (A8 : forall c', c' ∈ clients_delete c (clients r)
                              <-> is_Some (delete c cw !! c')).
      { intros c'. unfold clients_delete.
        rewrite list_elem_of_filter, lookup_delete_is_Some, H8.
        split; intros [? ?]; split; auto. }
      unfold onClose, with_clients. flow. simpl.
      destruct (decide (c ∈ bp)) as [Hin|Hout].
      * rewrite bool_decide_eq_true_2 by assumption. simpl.
        assert (Hlp : lp = true) by (apply H4; eauto). subst lp. simpl.
        destruct (Nat.ltb_spec 0 (size (bp ∖ {[c]}))) as [Hpos|Hzero]; simpl.
        -- constructor; simpl; try assumption; try reflexivity; eauto.
           split; [intros _|reflexivity].
           assert (Hne : bp ∖ {[c]} ≢ ∅) by (apply size_non_empty_iff; lia).
           apply set_choose in Hne. exact Hne.
        -- constructor; simpl; try assumption; try reflexivity; eauto.
           split; [discriminate|]. intros [c' Hc'].
           assert (Hem : bp ∖ {[c]} ≡ ∅) by (apply size_empty_iff; lia).
           apply Hem in Hc'. now apply elem_of_empty in Hc'.
      * rewrite bool_decide_eq_false_2 by assumption. simpl.
        constructor; simpl; try assumption; try reflexivity; eauto.
        intros c'. rewrite <- A3, elem_of_difference, elem_of_singleton.
        split; [|tauto]. intros ?. split; [assumption|congruence].
    + destruct (step_keeps_clients (Backpressure.routing s) (FromClient c msg) I) as [Hc Hn].
      rewrite Hstep in Hc, Hn. now apply flowOk_routing.
    + destruct (step_keeps_clients (Backpressure.routing s) (FromServer msg) I) as [Hc Hn].
      rewrite Hstep in Hc, Hn. now apply flowOk_routing.
    + destruct (step_keeps_clients (Backpressure.routing s) (DebounceTimer u) I) as [Hc Hn].
      rewrite Hstep in Hc, Hn. now apply flowOk_routing.
  - destruct (Backpressure.clientWriters s !! c) as [w|] eqn:Hc; [|assumption].
    pose proof (onDrain_ok (accepts (Some c)) w (ok_clientWriters s Hs c w Hc)) as Hw.
    destruct (BufferedWriter.onDrain _ w) as [w1 hooks].
    destruct Hw as (Hw1 & -> & _).
    now destruct (client_writer_step c w w1 s Hs Hc Hw1) as (? & _).
  - pose proof (onDrain_ok (accepts None) (Backpressure.lspWriter s) (ok_lspWriter s Hs)) as Hw.
    destruct (BufferedWriter.onDrain _ (Backpressure.lspWriter s)) as [w1 hooks].
    destruct Hw as (Hw1 & -> & _).
    now destruct (lsp_writer_step w1 s Hs Hw1) as (? & _).
Qed.

Lemma flow_run_ok tr : forall s,
  flowOk s -> flowOk (Backpressure.run JSON_stringify accepts s tr).
Proof.
  induction tr as [|e tr IH]; intros s Hs; [assumption|].
  simpl. apply IH. now apply flow_step_ok.
Qed.

Lemma flow_new_ok sp : flowOk (Backpressure.new sp).
Proof.
  constructor; simpl; try reflexivity.
  - unfold writerOk. simpl. auto.
  - intros c w. rewrite lookup_empty. discriminate.
  - intros c. rewrite elem_of_empty. split; [tauto|].
    intros (w & Hw & _). rewrite lookup_empty in Hw. discriminate.
  - split; [discriminate|]. intros [c Hc]. now apply elem_of_empty in Hc.
  - intros c Hc. now apply elem_of_nil in Hc.
  - intros c. rewrite lookup_empty. split; [intros Hc; now apply elem_of_nil in Hc|].
    intros [? ?]. discriminate.
  - intros c Hc. now apply elem_of_nil in Hc.
  - intros c Hc. now apply elem_of_empty in Hc.
Qed.

End FlowProperties.

Section Delivery.

Variable JSON_stringify : json -> list byte.
Variable accepts : option Z -> nat -> bool.

Lemma toClient_app c a b : toClient c (a ++ b) = toClient c a ++ toClient c b.
Proof. unfold toClient. apply flat_map_app. Qed.

Lemma writeToClient_handedOver c msg s :
  flowOk s ->
  let s' := Backpressure.writeToClient JSON_stringify accepts c msg s in
  Backpressure.lspWriter s' = Backpressure.lspWriter s
  /\ forall c', handedOver <$> Backpressure.clientWriters s' !! c'
                = (fun l => l ++ map (encodeMessage JSON_stringify) (toClient c' [ToClient c msg]))
                    <$> (handedOver <$> Backpressure.clientWriters s !! c').
Proof.
  intros Hs. unfold Backpressure.writeToClient.
  destruct (Backpressure.clientWriters s !! c) as [w|] eqn:Hc.
  - pose proof (write_ok (accepts (Some c)) (encodeMessage JSON_stringify msg) w
                  (ok_clientWriters s Hs c w Hc)) as Hw.
    destruct (BufferedWriter.write _ _ w) as [w1 hooks].
    destruct Hw as (Hw1 & -> & Hcontent).
    destruct (client_writer_step c w w1 s Hs Hc Hw1) as (_ & _ & Hl & Hcw).
    cbv zeta in *. split; [assumption|]. intros c'. rewrite Hcw. simpl.
    destruct (Z.eqb_spec c' c) as [->|Hne].
    + rewrite lookup_insert_eq, Hc. simpl. unfold handedOver. f_equal.
      rewrite Hcontent. now rewrite app_assoc.
    + rewrite lookup_insert_ne by congruence.
      destruct (Backpressure.clientWriters s !! c'); simpl; [|reflexivity]. now rewrite app_nil_r.
  - split; [reflexivity|]. intros c'. simpl.
    destruct (Z.eqb_spec c' c) as [->|Hne].
    + now rewrite Hc.
    + destruct (Backpressure.clientWriters s !! c'); simpl; [|reflexivity]. now rewrite app_nil_r.
Qed.

Lemma writeToServer_handedOver msg s :
  flowOk s ->
  let s' := Backpressure.writeToServer JSON_stringify accepts msg s in
  handedOver (Backpressure.lspWriter s') = handedOver (Backpressure.lspWriter s) ++ [encodeMessage JSON_stringify msg]
  /\ Backpressure.clientWriters s' = Backpressure.clientWriters s.
Proof.
  intros Hs. unfold Backpressure.writeToServer.
  pose proof (write_ok (accepts None) (encodeMessage JSON_stringify msg) (Backpressure.lspWriter s)
                (ok_lspWriter s Hs)) as Hw.
  destruct (BufferedWriter.write _ _ (Backpressure.lspWriter s)) as [w1 hooks].
  destruct Hw as (Hw1 & -> & Hcontent).
  destruct (lsp_writer_step w1 s Hs Hw1) as (_ & _ & Hl & Hcw).
  cbv zeta in *. rewrite Hl, Hcw. split; [|reflexivity].
  unfold handedOver. rewrite Hcontent. now rewrite app_assoc.
Qed.

Lemma deliver_all_handedOver out : forall s,
  flowOk s ->
  let s' := fold_left (Backpressure.deliver JSON_stringify accepts) out s in
  handedOver (Backpressure.lspWriter s') = handedOver (Backpressure.lspWriter s) ++ map (encodeMessage JSON_stringify) (toServer out)
  /\ forall c, handedOver <$> Backpressure.clientWriters s' !! c
               = (fun l => l ++ map (encodeMessage JSON_stringify) (toClient c out))
                   <$> (handedOver <$> Backpressure.clientWriters s !! c).
Proof.
  induction out as [|o out IH]; intros s Hs.
  - simpl. split; [now rewrite app_nil_r|]. intros c.
    destruct (Backpressure.clientWriters s !! c); simpl; [|reflexivity]. now rewrite app_nil_r.
  - cbn [fold_left].
    assert (Hd : flowOk (Backpressure.deliver JSON_stringify accepts s o)).
    { destruct o; simpl; [apply writeToServer_ok|apply writeToClient_ok]; assumption. }
    destruct (IH _ Hd) as [IH1 IH2]. cbv zeta. split.
    + rewrite IH1. change (o :: out) with ([o] ++ out). rewrite toServer_app, map_app, app_assoc.
      f_equal. destruct o as [m|c m]; simpl.
      * now destruct (writeToServer_handedOver m s Hs) as [-> _].
      * destruct (writeToClient_handedOver c m s Hs) as [-> _]. now rewrite app_nil_r.
    + intros c. rewrite IH2. change (o :: out) with ([o] ++ out).
      rewrite toClient_app, map_app.
      assert (Ho : handedOver <$> Backpressure.clientWriters (Backpressure.deliver JSON_stringify accepts s o) !! c
                   = (fun l => l ++ map (encodeMessage JSON_stringify) (toClient c [o]))
                       <$> (handedOver <$> Backpressure.clientWriters s !! c)).
      { destruct o as [m|c' m]; simpl.
        - destruct (writeToServer_handedOver m s Hs) as [_ ->].
          destruct (Backpressure.clientWriters s !! c); simpl; [|reflexivity]. now rewrite app_nil_r.
        - destruct (writeToClient_handedOver c' m s Hs) as [_ H]. apply H. }
      rewrite Ho. destruct (Backpressure.clientWriters s !! c); simpl; [|reflexivity].
      now rewrite app_assoc.
Qed.

Lemma delivered_step s e out :
  flowOk s -> delivered JSON_stringify s out ->
  delivered JSON_stringify (Backpressure.step JSON_stringify accepts s e)
    (out ++ match e with
            | Backpressure.Routing e => snd (step (Backpressure.routing s) e)
            | _ => []
            end)
  /\ Backpressure.routing (Backpressure.step JSON_stringify accepts s e)
     = match e with
       | Backpressure.Routing e => fst (step (Backpressure.routing s) e)
       | _ => Backpressure.routing s
       end.
Proof.
  intros Hs (D1 & D2 & D3). destruct e as [e|c|]; simpl.
  - destruct (step (Backpressure.routing s) e) as [r out'] eqn:Hstep. simpl.
    set (s1 := match e with
               | Accept => _
               | Close c => _
               | _ => Backpressure.set_routing r s
               end).
    assert (H1 : flowOk s1 /\ Backpressure.routing s1 = r
                 /\ handedOver (Backpressure.lspWriter s1) = handedOver (Backpressure.lspWriter s)
                 /\ (forall c, c ∈ clients r ->
                       handedOver <$> Backpressure.clientWriters s1 !! c
                       = Some (map (encodeMessage JSON_stringify) (toClient c out)))
                 /\ (forall c, nextClientId r <= c -> toClient c (out ++ out') = [])).
    { pose proof (flow_step_ok JSON_stringify accepts s (Backpressure.Routing e) Hs) as Hok.
      simpl in Hok. rewrite Hstep in Hok. fold s1 in Hok.
      pose proof (ok_clientIds s Hs) as Hids.
      destruct e as [|c0|c0 msg|msg|u]; simpl in Hstep.
      - injection Hstep as <- <-. simpl in Hok. subst s1. simpl.
        split_and!; auto.
        + unfold addClient, with_clients, clients_set, Backpressure.set_clientWriters. simpl.
          intros c. case_bool_decide as Hin.
          * apply Hids in Hin. lia.
          * rewrite elem_of_app, list_elem_of_singleton. intros [Hc| ->].
            -- rewrite lookup_insert_ne by (apply Hids in Hc; lia). auto.
            -- rewrite lookup_insert_eq. simpl. rewrite D3 by lia. reflexivity.
        + unfold addClient, with_clients. simpl. intros c Hc.
          rewrite app_nil_r. apply D3. lia.
      - injection Hstep as <- <-. simpl in Hok. subst s1.
        assert (Hclear : forall s0, Backpressure.routing (Backpressure.clearClientBackpressure c0 s0) = Backpressure.routing s0
                  /\ Backpressure.lspWriter (Backpressure.clearClientBackpressure c0 s0) = Backpressure.lspWriter s0
                  /\ Backpressure.clientWriters (Backpressure.clearClientBackpressure c0 s0) = Backpressure.clientWriters s0).
        { intros s0. flow. repeat case_match; auto. }
        match goal with
        | |- context [Backpressure.clearClientBackpressure c0 ?x] =>
            destruct (Hclear x) as (E1 & E2 & E3)
        end.
        rewrite E1, E2, E3. simpl. split_and!; auto.
        + unfold onClose, with_clients, clients_delete. simpl.
          intros c. rewrite list_elem_of_filter. intros [Hne Hc].
          rewrite lookup_delete_ne by congruence. auto.
        + unfold onClose, with_clients. simpl. intros c Hc. rewrite app_nil_r. auto.
      - destruct (step_keeps_clients (Backpressure.routing s) (FromClient c0 msg) I) as [Hc Hn].
        simpl in Hc, Hn. rewrite Hstep in Hc, Hn. simpl in Hc, Hn. subst s1. simpl.
        split_and!; auto.
        + now apply flowOk_routing.
        + intros c Hin. rewrite Hc in Hin. auto.
        + intros c Hle. rewrite Hn in Hle. rewrite toClient_app, (D3 c Hle).
          pose proof (step_writes_to_connected_only (Backpressure.routing s) (FromClient c0 msg) c) as Hw.
          simpl in Hw. rewrite Hstep in Hw. apply Hw. intros Hin. apply Hids in Hin. lia.
      - destruct (step_keeps_clients (Backpressure.routing s) (FromServer msg) I) as [Hc Hn].
        simpl in Hc, Hn. rewrite Hstep in Hc, Hn. simpl in Hc, Hn. subst s1. simpl.
        split_and!; auto.
        + now apply flowOk_routing.
        + intros c Hin. rewrite Hc in Hin. auto.
        + intros c Hle. rewrite Hn in Hle. rewrite toClient_app, (D3 c Hle).
          pose proof (step_writes_to_connected_only (Backpressure.routing s) (FromServer msg) c) as Hw.
          simpl in Hw. rewrite Hstep in Hw. apply Hw. intros Hin. apply Hids in Hin. lia.
      - destruct (step_keeps_clients (Backpressure.routing s) (DebounceTimer u) I) as [Hc Hn].
        simpl in Hc, Hn. rewrite Hstep in Hc, Hn. simpl in Hc, Hn. subst s1. simpl.
        split_and!; auto.
        + now apply flowOk_routing.
        + intros c Hin. rewrite Hc in Hin. auto.
        + intros c Hle. rewrite Hn in Hle. rewrite toClient_app, (D3 c Hle).
          pose proof (step_writes_to_connected_only (Backpressure.routing s) (DebounceTimer u) c) as Hw.
          simpl in Hw. rewrite Hstep in Hw. apply Hw. intros Hin. apply Hids in Hin. lia. }
    destruct H1 as (Hs1 & Hr1 & Hl1 & Hc1 & Hn1).
    destruct (deliver_all_ok JSON_stringify accepts out' s1 Hs1) as [_ Hr].
    destruct (deliver_all_handedOver out' s1 Hs1) as [Hl Hc]. cbv zeta in *.
    split; [|congruence]. split_and!.
    + now rewrite Hl, Hl1, D1, toServer_app, map_app.
    + intros c Hin. rewrite Hr, Hr1 in Hin. rewrite Hc, (Hc1 c Hin). simpl.
      now rewrite toClient_app, map_app.
    + intros c Hc'. rewrite Hr, Hr1 in Hc'. auto.
  - rewrite app_nil_r. destruct (Backpressure.clientWriters s !! c) as [w|] eqn:Hc;
      [|split; [split_and!; assumption|reflexivity]].
    pose proof (onDrain_ok (accepts (Some c)) w (ok_clientWriters s Hs c w Hc)) as Hw.
    destruct (BufferedWriter.onDrain _ w) as [w1 hooks].
    destruct Hw as (Hw1 & -> & Hcontent).
    destruct (client_writer_step c w w1 s Hs Hc Hw1) as (_ & Hr & Hl & Hcw).
    cbv zeta in *. split; [|assumption]. split_and!.
    + now rewrite Hl.
    + intros c' Hin. rewrite Hr in Hin. rewrite Hcw.
      destruct (decide (c = c')) as [<-|Hne].
      * rewrite lookup_insert_eq. simpl. specialize (D2 c Hin). rewrite Hc in D2.
        simpl in D2. unfold handedOver in *. now rewrite Hcontent.
      * rewrite lookup_insert_ne by assumption. auto.
    + now rewrite Hr.
  - rewrite app_nil_r.
    pose proof (onDrain_ok (accepts None) (Backpressure.lspWriter s) (ok_lspWriter s Hs)) as Hw.
    destruct (BufferedWriter.onDrain _ (Backpressure.lspWriter s)) as [w1 hooks].
    destruct Hw as (Hw1 & -> & Hcontent).
    destruct (lsp_writer_step w1 s Hs Hw1) as (_ & Hr & Hl & Hcw).
    cbv zeta in *. split; [|assumption]. split_and!.
    + rewrite Hl. unfold handedOver in *. now rewrite Hcontent.
    + intros c' Hin. rewrite Hr in Hin. rewrite Hcw. auto.
    + now rewrite Hr.
Qed.

Lemma delivered_run tr : forall s out,
  flowOk s -> delivered JSON_stringify s out ->
  delivered JSON_stringify (Backpressure.run JSON_stringify accepts s tr)
    (out ++ snd (run (Backpressure.routing s) (routingEvents tr)))
  /\ Backpressure.routing (Backpressure.run JSON_stringify accepts s tr)
     = fst (run (Backpressure.routing s) (routingEvents tr)).
Proof.
  induction tr as [|e tr IH]; intros s out Hs Hd.
  - simpl. rewrite app_nil_r. auto.
  - cbn [Backpressure.run fold_left].
    destruct (delivered_step s e out Hs Hd) as [Hd1 Hr1].
    pose proof (flow_step_ok JSON_stringify accepts s e Hs) as Hs1.
    destruct (IH _ _ Hs1 Hd1) as [Hd2 Hr2]. unfold Backpressure.run in *.
    rewrite Hr1 in Hd2, Hr2.
    destruct e as [e|c|].
    + change (routingEvents (Backpressure.Routing e :: tr)) with (e :: routingEvents tr).
      rewrite run_cons. simpl. rewrite app_assoc. auto.
    + change (routingEvents (Backpressure.SocketDrain c :: tr)) with (routingEvents tr).
      rewrite app_nil_r in Hd2. auto.
    + change (routingEvents (Backpressure.StdinDrain :: tr)) with (routingEvents tr).
      rewrite app_nil_r in Hd2. auto.
Qed.

End Delivery.

(** X7 ([markClientBackpressure], [clearClientBackpressure],
    [pauseLspReads], [resumeLspReads]): after any sequence of events the
    reads from the server are paused exactly when the writer of some
    connected client waits for [drain], and [lsp.stdout] is paused exactly
    when the flag says so. *)
Theorem server_reads_pause_with_client_backpressure
    (JSON_stringify : json -> list byte) (accepts : option Z -> nat -> bool)
    (sp : ServerSpec) (tr : list Backpressure.event) :
  let s := Backpressure.run JSON_stringify accepts (Backpressure.new sp) tr in
  (Backpressure.lspReadsPaused s = true
   <-> exists c w, c ∈ clients (Backpressure.routing s)
                   /\ Backpressure.clientWriters s !! c = Some w
                   /\ BufferedWriter.waitingForDrain w = true)
  /\ Backpressure.stdoutPaused s = Backpressure.lspReadsPaused s.
Proof.
  intros s.
  destruct (flow_run_ok JSON_stringify accepts tr _ (flow_new_ok sp))
    as [H1 H2 H3 H4 H5 H6 H7 H8 H9 H10].
  fold s in H1, H2, H3, H4, H5, H6, H7, H8, H9, H10.
  split; [|assumption]. rewrite H4. split.
  - intros [c Hc]. apply H3 in Hc as (w & Hw & Hp). exists c, w. split_and!.
    + apply H8. eauto.
    + assumption.
    + destruct (H2 c w Hw) as (<- & _). assumption.
  - intros (c & w & _ & Hw & Hp). exists c. apply H3. exists w. split; [assumption|].
    destruct (H2 c w Hw) as (-> & _). assumption.
Qed.

(** Client 1's socket refuses its first write: the server's notification
    makes the writer wait and the reads from the server pause. *)
Lemma server_reads_pause_with_client_backpressure_witness :
  let accepts := fun (stream : option Z) (k : nat) =>
                   match stream with Some _ => false | None => true end in
  let note := [("jsonrpc", JStr "2.0"); ("method", JStr "window/logMessage")] in
  let tr := [Backpressure.Routing Accept; Backpressure.Routing (FromServer note)] in
  let s := Backpressure.run MiniJSON.stringify accepts (Backpressure.new oxlintSpec) tr in
  Backpressure.lspReadsPaused s = true /\ Backpressure.stdoutPaused s = true.
Proof.
  intros accepts note tr s.
  destruct (server_reads_pause_with_client_backpressure MiniJSON.stringify accepts
              oxlintSpec tr) as [Hiff Hout].
  fold s in Hiff, Hout.
  assert (Hp : Backpressure.lspReadsPaused s = true).
  { apply Hiff.
    exists 1, {| BufferedWriter.written := [encodeMessage MiniJSON.stringify note];
                 BufferedWriter.drainListeners := 1;
                 BufferedWriter.queue := [];
                 BufferedWriter.waitingForDrain := true;
                 BufferedWriter.paused := true |}.
    split_and!; [vm_compute; left|vm_compute; reflexivity|reflexivity]. }
  split; [exact Hp|]. now rewrite Hout.
Defined.

(** X8 ([pauseClientReads], [resumeClientReads]): after any sequence of
    events the reads from the clients are paused exactly when the writer of
    the server's stdin waits for [drain]; when they are not, no connected
    client's socket is left paused. *)
Theorem client_reads_pause_with_server_backpressure
    (JSON_stringify : json -> list byte) (accepts : option Z -> nat -> bool)
    (sp : ServerSpec) (tr : list Backpressure.event) :
  let s := Backpressure.run JSON_stringify accepts (Backpressure.new sp) tr in
  Backpressure.clientReadsPaused s
  = BufferedWriter.waitingForDrain (Backpressure.lspWriter s)
  /\ (Backpressure.clientReadsPaused s = false ->
      forall c, c ∈ clients (Backpressure.routing s) ->
                c ∉ Backpressure.socketsPaused s).
Proof.
  intros s.
  destruct (flow_run_ok JSON_stringify accepts tr _ (flow_new_ok sp))
    as [H1 H2 H3 H4 H5 H6 H7 H8 H9 H10].
  fold s in H1, H2, H3, H4, H5, H6, H7, H8, H9, H10.
  split.
  - rewrite H6. now destruct H1 as (-> & _).
  - intros Hp c Hc Hin. rewrite (H7 c Hc Hin) in Hp. discriminate.
Qed.

(** The server's stdin refuses its first write: client 1's notification
    makes the writer wait and the reads from the clients pause; when
    stdin drains they resume, and client 1's socket is not left paused. *)
Lemma client_reads_pause_with_server_backpressure_witness :
  let accepts := fun (stream : option Z) (k : nat) =>
                   match stream with None => negb (k =? 0)%nat | Some _ => true end in
  let note := [("jsonrpc", JStr "2.0"); ("method", JStr "initialized")] in
  let tr := [Backpressure.Routing Accept; Backpressure.Routing (FromClient 1 note)] in
  let s := Backpressure.run MiniJSON.stringify accepts (Backpressure.new oxlintSpec) tr in
  let s' := Backpressure.run MiniJSON.stringify accepts (Backpressure.new oxlintSpec)
              (tr ++ [Backpressure.StdinDrain]) in
  (Backpressure.clientReadsPaused s = true /\ 1 ∈ Backpressure.socketsPaused s)
  /\ 1 ∉ Backpressure.socketsPaused s'.
Proof.
  intros accepts note tr s s'. split.
  - split; [|vm_compute; set_solver].
    destruct (client_reads_pause_with_server_backpressure MiniJSON.stringify
                accepts oxlintSpec tr) as [H _].
    fold s in H. rewrite H. reflexivity.
  - apply (proj2 (client_reads_pause_with_server_backpressure MiniJSON.stringify
                    accepts oxlintSpec (tr ++ [Backpressure.StdinDrain]))).
    + reflexivity.
    + vm_compute. left.
Defined.

Lemma delivered_new JSON_stringify sp :
  delivered JSON_stringify (Backpressure.new sp) [].
Proof.
  split_and!; try reflexivity. intros c Hc. now apply elem_of_nil in Hc.
Qed.

(** X9 ([writeToServer], [client.write]): after any sequence of events,
    with streams that answer anything, the writer of the server's stdin
    was asked to write the encodings of the messages the handlers sent to
    the server, in order, and the writer of each connected client those of
    the messages sent to that client. *)
Theorem writers_receive_what_handlers_write
    (JSON_stringify : json -> list byte) (accepts : option Z -> nat -> bool)
    (sp : ServerSpec) (tr : list Backpressure.event) :
  let s := Backpressure.run JSON_stringify accepts (Backpressure.new sp) tr in
  let out := snd (run (MuxState_new sp) (routingEvents tr)) in
  Backpressure.routing s = fst (run (MuxState_new sp) (routingEvents tr))
  /\ handedOver (Backpressure.lspWriter s)
     = map (encodeMessage JSON_stringify) (toServer out)
  /\ (forall c, c ∈ clients (Backpressure.routing s) ->
        handedOver <$> Backpressure.clientWriters s !! c
        = Some (map (encodeMessage JSON_stringify) (toClient c out))).
Proof.
  intros s out.
  destruct (delivered_run JSON_stringify accepts tr (Backpressure.new sp) []
              (flow_new_ok sp) (delivered_new JSON_stringify sp)) as [(D1 & D2 & _) Hr].
  split_and!; assumption.
Qed.

(** Two clients; the server's notification is handed to both writers. *)
Lemma writers_receive_what_handlers_write_witness :
  let accepts := fun (stream : option Z) (k : nat) => true in
  let note := [("jsonrpc", JStr "2.0"); ("method", JStr "window/logMessage")] in
  let tr := [Backpressure.Routing Accept; Backpressure.Routing Accept;
             Backpressure.Routing (FromServer note)] in
  let s := Backpressure.run MiniJSON.stringify accepts (Backpressure.new oxlintSpec) tr in
  handedOver <$> Backpressure.clientWriters s !! 2
  = Some [encodeMessage MiniJSON.stringify note].
Proof.
  intros accepts note tr s.
  destruct (writers_receive_what_handlers_write MiniJSON.stringify accepts oxlintSpec tr)
    as (_ & _ & H).
  fold s in H. rewrite H; [reflexivity|]. vm_compute. right. left.
Defined.

(** X10 (a client's writer, then [readMessages]): the bytes a client's
    socket has received so far, cut into chunks anywhere, decode into a
    prefix of the messages the mux routed to that client, as many as the
    writer has handed over, in order. *)
Theorem client_socket_carries_routed_messages
    (JSON_stringify : json -> list byte) (JSON_parse : list byte -> option json)
    (accepts : option Z -> nat -> bool)
    (sp : ServerSpec) (tr : list Backpressure.event)
    (c : Z) (w : BufferedWriter.t) (chunks : list (list byte)) :
  let s := Backpressure.run JSON_stringify accepts (Backpressure.new sp) tr in
  let routed := toClient c (snd (run (MuxState_new sp) (routingEvents tr))) in
  Backpressure.clientWriters s !! c = Some w ->
  Forall (wellEncoded JSON_stringify JSON_parse) routed ->
  concat chunks = concat (BufferedWriter.written w) ->
  readMessages JSON_parse chunks
  = {| yielded := map JObj (take (length (BufferedWriter.written w)) routed);
       ended := EndOfStream |}.
Proof.
  intros s routed Hw Hwell Hchunks.
  destruct (delivered_run JSON_stringify accepts tr (Backpressure.new sp) []
              (flow_new_ok sp) (delivered_new JSON_stringify sp)) as [(_ & D2 & _) _].
  pose proof (flow_run_ok JSON_stringify accepts tr _ (flow_new_ok sp)) as Hok.
  fold s in D2, Hok.
  assert (Hin : c ∈ clients (Backpressure.routing s)) by (apply (ok_connected s Hok); eauto).
  specialize (D2 c Hin). rewrite Hw in D2. simpl in D2. injection D2 as D2.
  fold routed in D2. unfold handedOver in D2.
  assert (Hwritten : BufferedWriter.written w
                     = map (encodeMessage JSON_stringify)
                           (take (length (BufferedWriter.written w)) routed)).
  { rewrite <- (take_app_length (BufferedWriter.written w) (BufferedWriter.queue w)) at 1.
    now rewrite D2, <- firstn_map. }
  unfold readMessages.
  apply (readLoop_stream JSON_stringify JSON_parse [] 1 EndOfStream).
  - intros P Q HPQ. apply app_eq_nil in HPQ as [-> ->]. split; [reflexivity|].
    simpl. lia.
  - now apply Forall_take.
  - reflexivity.
  - simpl. rewrite app_nil_r, Hchunks, Hwritten at 1.
    unfold encodeAll. now rewrite flat_map_concat_map.
Qed.

Lemma client_socket_carries_routed_messages_witness :
  let accepts := fun (_ : option Z) (k : nat) => negb (k =? 0)%nat in
  let n1 := [("jsonrpc", JStr "2.0"); ("method", JStr "window/logMessage");
             ("params", JObj [("type", JNum 3); ("message", JStr "ready")])] in
  let n2 := [("jsonrpc", JStr "2.0"); ("method", JStr "telemetry/event")] in
  let tr := [Backpressure.Routing Accept;
             Backpressure.Routing (FromServer n1);
             Backpressure.Routing (FromServer n2)] in
  let s := Backpressure.run MiniJSON.stringify accepts (Backpressure.new oxlintSpec) tr in
  let wire := encodeMessage MiniJSON.stringify n1 in
  (Backpressure.lspReadsPaused s = true
   /\ toClient 1 (snd (run (MuxState_new oxlintSpec) (routingEvents tr))) = [n1; n2])
  /\ readMessages MiniJSON.parse [take 10 wire; drop 10 wire]
     = {| yielded := [JObj n1]; ended := EndOfStream |}.
Proof.
  intros accepts n1 n2 tr s wire. split; [split; vm_compute; reflexivity|].
  apply (client_socket_carries_routed_messages MiniJSON.stringify MiniJSON.parse
           accepts oxlintSpec tr 1
           {| BufferedWriter.written := [wire];
              BufferedWriter.drainListeners := 1;
              BufferedWriter.queue := [encodeMessage MiniJSON.stringify n2];
              BufferedWriter.waitingForDrain := true;
              BufferedWriter.paused := true |}
           [take 10 wire; drop 10 wire]).
  - vm_compute. reflexivity.
  - repeat constructor; vm_compute; congruence.
  - vm_compute. reflexivity.
Defined.


(* ================================================================== *)
(** ** Properties of the server registry and of the command lines *)
(* ================================================================== *)

Lemma resolveServer_cases n :
  resolveServer n
  = if String.eqb n "oxlint" then Some oxlintSpec
    else if String.eqb n "typescript-go" then Some tsgoSpec
    else if String.eqb n "tsgo" then Some tsgoSpec
    else None.
Proof.
  unfold resolveServer, byName, builtIns. simpl.
  destruct (String.eqb_spec n "oxlint") as [->|H1]; [now rewrite lookup_insert_eq|].
  rewrite lookup_insert_ne by congruence.
  destruct (String.eqb_spec n "typescript-go") as [->|H2]; [now rewrite lookup_insert_eq|].
  rewrite lookup_insert_ne by congruence.
  destruct (String.eqb_spec n "tsgo") as [->|H3]; [now rewrite lookup_insert_eq|].
  rewrite lookup_insert_ne by congruence. apply lookup_empty.
Qed.

Lemma resolveServer_exact n sp :
  resolveServer n = Some sp
  <-> sp ∈ allServers /\ (n = name sp \/ n ∈ aliases sp).
Proof.
  rewrite resolveServer_cases. unfold allServers, builtIns. split.
  - destruct (String.eqb_spec n "oxlint") as [->|H1].
    { intros [= <-]. split; [set_solver|now left]. }
    destruct (String.eqb_spec n "typescript-go") as [->|H2].
    { intros [= <-]. split; [set_solver|right; set_solver]. }
    destruct (String.eqb_spec n "tsgo") as [->|H3]; [|discriminate].
    intros [= <-]. split; [set_solver|now left].
  - intros [Hin Hn].
    apply elem_of_cons in Hin as [->|Hin]; [|apply list_elem_of_singleton in Hin as ->].
    + destruct Hn as [->|Hn]; [reflexivity|].
      apply list_elem_of_singleton in Hn as ->. reflexivity.
    + destruct Hn as [->|Hn]; [reflexivity|]. now apply elem_of_nil in Hn.
Qed.

Lemma daemonOptions_absent n : forall argv s p k,
  (length argv <= n)%nat ->
  let '(s', p', k') := Cli.daemonOptions argv s p k in
  ("--server" ∉ argv -> s' = s)
  /\ ("--projectRoot" ∉ argv -> p' = p)
  /\ ("--socket" ∉ argv -> k' = k).
Proof.
  induction n as [|n IH]; intros [|arg rest] s p k Hlen; simpl in *; auto; try lia.
  assert (Hrest : forall s p k,
            let '(s', p', k') := Cli.daemonOptions rest s p k in
            ("--server" ∉ arg :: rest -> s' = s)
            /\ ("--projectRoot" ∉ arg :: rest -> p' = p)
            /\ ("--socket" ∉ arg :: rest -> k' = k)).
  { intros s0 p0 k0. specialize (IH rest s0 p0 k0 ltac:(lia)).
    destruct (Cli.daemonOptions rest s0 p0 k0) as [[s' p'] k'].
    destruct IH as (? & ? & ?). rewrite !not_elem_of_cons. tauto. }
  assert (Hvalue : forall value rest' s p k, rest = value :: rest' ->
            let '(s', p', k') := Cli.daemonOptions rest' s p k in
            ("--server" ∉ arg :: rest -> s' = s)
            /\ ("--projectRoot" ∉ arg :: rest -> p' = p)
            /\ ("--socket" ∉ arg :: rest -> k' = k)).
  { intros value rest' s0 p0 k0 ->. simpl in Hlen.
    specialize (IH rest' s0 p0 k0 ltac:(lia)).
    destruct (Cli.daemonOptions rest' s0 p0 k0) as [[s' p'] k'].
    destruct IH as (? & ? & ?). rewrite !not_elem_of_cons. tauto. }
  destruct (String.eqb_spec arg "--server") as [->|H1].
  { destruct rest as [|value rest'].
    - rewrite !not_elem_of_cons. split_and!; tauto.
    - specialize (Hvalue value rest' (Some value) p k eq_refl).
      destruct (Cli.daemonOptions rest' (Some value) p k) as [[s' p'] k'].
      destruct Hvalue as (? & ? & ?). split_and!; auto.
      rewrite not_elem_of_cons. tauto. }
  destruct (String.eqb_spec arg "--projectRoot") as [->|H2].
  { destruct rest as [|value rest'].
    - rewrite !not_elem_of_cons. split_and!; tauto.
    - specialize (Hvalue value rest' s (Some value) k eq_refl).
      destruct (Cli.daemonOptions rest' s (Some value) k) as [[s' p'] k'].
      destruct Hvalue as (? & ? & ?). split_and!; auto.
      rewrite not_elem_of_cons. tauto. }
  destruct (String.eqb_spec arg "--socket") as [->|H3].
  { destruct rest as [|value rest'].
    - rewrite !not_elem_of_cons. split_and!; tauto.
    - specialize (Hvalue value rest' s p (Some value) eq_refl).
      destruct (Cli.daemonOptions rest' s p (Some value)) as [[s' p'] k'].
      destruct Hvalue as (? & ? & ?). split_and!; auto.
      rewrite not_elem_of_cons. tauto. }
  apply Hrest.
Qed.

(** X11 ([spawnDaemon], [main], [parseDaemonArgs]): [main] hands the
    command line [spawnDaemon] builds to [runDaemon], and [parseDaemonArgs]
    reads from it the server, the project root and the socket path it was
    built from, when none of them is empty. *)
Theorem daemon_args_round_trip (server projectRoot socketPath : string) :
  server <> "" -> projectRoot <> "" -> socketPath <> "" ->
  Cli.main (Cli.spawnDaemonArgs server projectRoot socketPath)
  = Cli.runDaemon (Cli.daemonFlags server projectRoot socketPath)
  /\ Cli.parseDaemonArgs (Cli.daemonFlags server projectRoot socketPath)
     = inr (server, projectRoot, socketPath).
Proof.
  intros Hs Hp Hk. split; [reflexivity|].
  unfold Cli.parseDaemonArgs. simpl.
  apply String.eqb_neq in Hs, Hp, Hk. now rewrite Hs, Hp, Hk.
Qed.

Lemma daemon_args_round_trip_witness :
  Cli.parseDaemonArgs ["--server"; "tsgo"; "--projectRoot"; "/work/app";
                   "--socket"; "/home/u/.cache/lspd/daemons/0a1b2c3d4e5f6071/daemon.sock"]
  = inr ("tsgo", "/work/app", "/home/u/.cache/lspd/daemons/0a1b2c3d4e5f6071/daemon.sock").
Proof.
  apply (daemon_args_round_trip "tsgo" "/work/app"
           "/home/u/.cache/lspd/daemons/0a1b2c3d4e5f6071/daemon.sock");
    discriminate.
Defined.

(** X12 ([parseDaemonArgs]): a command line without [--server], without
    [--projectRoot] or without [--socket] makes [parseDaemonArgs] throw
    [Missing required daemon args], whatever else it holds. *)
Theorem daemon_args_missing_flag (argv : list string) :
  "--server" ∉ argv \/ "--projectRoot" ∉ argv \/ "--socket" ∉ argv ->
  Cli.parseDaemonArgs argv = inl "Missing required daemon args".
Proof.
  intros H. unfold Cli.parseDaemonArgs.
  pose proof (daemonOptions_absent (length argv) argv None None None (le_n _)) as Ho.
  destruct (Cli.daemonOptions argv None None None) as [[s p] k].
  destruct Ho as (Hs & Hp & Hk).
  destruct H as [H|[H|H]]; [rewrite (Hs H)|rewrite (Hp H)|rewrite (Hk H)]; simpl;
    rewrite ?orb_true_r; reflexivity.
Qed.

Lemma daemon_args_missing_flag_witness :
  Cli.parseDaemonArgs ["--server"; "oxlint"; "--socket"; "/tmp/daemon.sock"]
  = inl "Missing required daemon args".
Proof.
  apply daemon_args_missing_flag. right. left.
  rewrite !not_elem_of_cons. split_and!; try discriminate. apply not_elem_of_nil.
Defined.



(** X14 ([resolveServer]): a string resolves to a spec exactly when the
    spec is one of [allServers()] and the string is its name or one of its
    aliases; any other string gives [null]. *)
Theorem resolveServer_by_name_or_alias (given : string) (sp : ServerSpec) :
  resolveServer given = Some sp
  <-> sp ∈ allServers /\ (given = name sp \/ given ∈ aliases sp).
Proof. apply resolveServer_exact. Qed.


(* ================================================================== *)
(** ** Further properties of the mux core *)
(* ================================================================== *)

Lemma prop_or_empty k v : prop k (Some (or_empty v)) = prop k v.
Proof. destruct v as [[]|]; reflexivity. Qed.

Lemma injectPullDiagnostics_declares msg :
  truthy (declaredDiagnostic (injectPullDiagnostics msg)) = true.
Proof.
  unfold injectPullDiagnostics, declaredDiagnostic.
  destruct (truthy (prop "diagnostic" (Some (or_empty (prop "textDocument"
              (Some (or_empty (prop "capabilities" (Some (or_empty (field "params" msg))))))))))) eqn:E.
  - now rewrite !prop_or_empty in E.
  - rewrite field_set_field_eq. simpl. rewrite field_set_field_eq. simpl.
    rewrite field_set_field_eq. simpl. now rewrite field_set_field_eq.
Qed.

Lemma injectPullDiagnostics_fixed msg :
  truthy (declaredDiagnostic msg) = true -> injectPullDiagnostics msg = msg.
Proof.
  unfold injectPullDiagnostics, declaredDiagnostic. intros H.
  now rewrite !prop_or_empty, H.
Qed.

Lemma injectPullDiagnostics_added msg :
  truthy (declaredDiagnostic msg) = false ->
  declaredDiagnostic (injectPullDiagnostics msg)
  = Some (JObj [("dynamicRegistration", JBool false)]).
Proof.
  unfold injectPullDiagnostics, declaredDiagnostic. intros H.
  rewrite !prop_or_empty, H.
  rewrite field_set_field_eq. simpl. rewrite field_set_field_eq. simpl.
  rewrite field_set_field_eq. simpl. now rewrite field_set_field_eq.
Qed.

(** X15 ([injectPullDiagnostics]): the message it returns declares
    [params.capabilities.textDocument.diagnostic]: a message that declares
    it already is returned as it is, and otherwise the capability is set to
    [{ dynamicRegistration: false }]; every field other than [params] is
    kept, and a second application changes nothing. *)
Theorem injectPullDiagnostics_adds_capability (msg : JsonRpcMessage) :
  truthy (declaredDiagnostic (injectPullDiagnostics msg)) = true
  /\ injectPullDiagnostics (injectPullDiagnostics msg) = injectPullDiagnostics msg
  /\ (forall k, k <> "params" -> field k (injectPullDiagnostics msg) = field k msg)
  /\ (truthy (declaredDiagnostic msg) = true -> injectPullDiagnostics msg = msg)
  /\ (truthy (declaredDiagnostic msg) = false ->
      declaredDiagnostic (injectPullDiagnostics msg)
      = Some (JObj [("dynamicRegistration", JBool false)])).
Proof.
  split_and!.
  - apply injectPullDiagnostics_declares.
  - apply injectPullDiagnostics_fixed, injectPullDiagnostics_declares.
  - intros k Hk. unfold injectPullDiagnostics. case_match; [reflexivity|].
    apply field_set_field_ne. congruence.
  - apply injectPullDiagnostics_fixed.
  - apply injectPullDiagnostics_added.
Qed.

(** An [initialize] request that declares hover support only. *)
Lemma injectPullDiagnostics_adds_capability_witness :
  let msg := [("jsonrpc", JStr "2.0"); ("id", JNum 1); ("method", JStr "initialize");
              ("params", JObj [("processId", JNull);
                               ("capabilities",
                                JObj [("textDocument", JObj [("hover", JObj [])])])])] in
  injectPullDiagnostics msg
  = [("jsonrpc", JStr "2.0"); ("id", JNum 1); ("method", JStr "initialize");
     ("params", JObj [("processId", JNull);
                      ("capabilities",
                       JObj [("textDocument",
                              JObj [("hover", JObj []);
                                    ("diagnostic",
                                     JObj [("dynamicRegistration", JBool false)])])])])]
  /\ declaredDiagnostic (injectPullDiagnostics msg)
     = Some (JObj [("dynamicRegistration", JBool false)]).
Proof.
  intros msg. split; [reflexivity|].
  apply (injectPullDiagnostics_adds_capability msg). reflexivity.
Defined.

Lemma requestIds_app a b : requestIds (a ++ b) = requestIds a ++ requestIds b.
Proof. unfold requestIds. apply flat_map_app. Qed.

Lemma requestIds_set_id n m :
  requestIds [set_field "id" (JNum n) m]
  = match nonnull (field "method" m) with Some _ => [JNum n] | None => [] end.
Proof.
  unfold requestIds, requestOf. simpl.
  rewrite field_set_field_eq, field_set_field_ne by discriminate. simpl.
  now destruct (nonnull (field "method" m)).
Qed.

Lemma requestIds_no_method m :
  nonnull (field "method" m) = None -> requestIds [m] = [].
Proof. unfold requestIds, requestOf. simpl. now intros ->. Qed.

Lemma requestIds_no_id m :
  nonnull (field "id" m) = None -> requestIds [m] = [].
Proof.
  unfold requestIds, requestOf. simpl. intros ->.
  now destruct (nonnull (field "method" m)).
Qed.

Lemma requestIds_set_id_no_method i m :
  nonnull (field "method" m) = None -> requestIds [set_field "id" i m] = [].
Proof.
  intros H. apply requestIds_no_method. now rewrite field_set_field_ne by discriminate.
Qed.

Ltac to_server' :=
  rewrite ?toServer_app, ?toServer_writeToClient, ?toServer_broadcast,
    ?toServer_publish, ?toServer_flush;
  unfold respondWithCachedInit; rewrite ?toServer_writeToClient;
  unfold writeToServer; simpl toServer.

Local Arguments requestIds : simpl never.

Ltac ids_done :=
  first [ left; split; [reflexivity|simpl; lia]
        | right; split; [reflexivity|simpl; lia] ].

Lemma step_request_ids s e :
  let ids := requestIds (toServer (snd (step s e))) in
  (ids = [] /\ nextServerRequestId s <= nextServerRequestId (fst (step s e)))
  \/ (ids = [JNum (nextServerRequestId s)]
      /\ nextServerRequestId (fst (step s e)) = nextServerRequestId s + 1).
Proof.
  cbv zeta. destruct e as [|c'|c' msg|msg|u]; simpl.
  - ids_done.
  - ids_done.
  - unfold onClientMessage.
    destruct (nonnull (field "method" msg)) as [m|] eqn:Hm;
      destruct (nonnull (field "id" msg)) as [i|] eqn:Hi.
    + unfold onClientRequest.
      destruct (String.eqb (js_String m) "initialize").
      * unfold handleInitialize.
        change (init (recordClientCapabilities c' msg s)) with (init s).
        destruct (init s); simpl.
        -- destruct (primaryClientId s); to_server'; rewrite requestIds_set_id;
             case_match; ids_done.
        -- ids_done.
        -- to_server'. ids_done.
      * simpl. to_server'. rewrite requestIds_set_id, Hm. ids_done.
    + unfold onClientNotification, maybeTriggerDiagnosticsBridge.
      cases; to_server'; rewrite ?(requestIds_no_id msg Hi); ids_done.
    + unfold onClientResponse.
      cases; to_server';
        rewrite ?(requestIds_no_method msg Hm), ?(requestIds_set_id_no_method _ msg Hm);
        ids_done.
    + to_server'. rewrite (requestIds_no_method msg Hm). ids_done.
  - handlers. cases; to_server'; try ids_done.
    all: try (unfold requestIds, requestOf; simpl; ids_done).
  - handlers. cases; to_server'; rewrite ?requestIds_set_id; try ids_done.
    all: case_match; ids_done.
Qed.

Lemma run_request_ids tr : forall s,
  let ids := requestIds (toServer (snd (run s tr))) in
  nextServerRequestId s <= nextServerRequestId (fst (run s tr))
  /\ NoDup ids
  /\ (forall id, id ∈ ids ->
        exists n, id = JNum n
                  /\ nextServerRequestId s <= n < nextServerRequestId (fst (run s tr))).
Proof.
  induction tr as [|e tr IH]; intros s; cbv zeta.
  - simpl. split_and!; [lia|constructor|]. intros id Hid. now apply elem_of_nil in Hid.
  - rewrite run_cons. cbn [fst snd]. rewrite toServer_app, requestIds_app.
    destruct (IH (fst (step s e))) as (Hle & Hnd & Hin). cbv zeta in *.
    destruct (step_request_ids s e) as [[-> Hn]|[-> Hn]]; cbv zeta in *.
    + simpl. split_and!; [lia|assumption|].
      intros id Hid. destruct (Hin id Hid) as (n & -> & Hn'). exists n. split; [reflexivity|lia].
    + split_and!; [lia| |].
      * simpl. apply NoDup_cons. split; [|assumption].
        intros Hid. destruct (Hin _ Hid) as (n & [= <-] & Hn'). lia.
      * intros id Hid. simpl in Hid. apply elem_of_cons in Hid as [->|Hid].
        -- eexists. split; [reflexivity|]. lia.
        -- destruct (Hin id Hid) as (n & -> & Hn'). exists n. split; [reflexivity|lia].
Qed.

(** X16 ([onClientRequest], [handleInitialize], [sendDiagnosticsRequest]):
    in every execution the requests the mux writes to the server carry
    pairwise distinct identifiers, each a number minted by the mux, from 1
    up to [nextServerRequestId - 1], whatever identifiers the clients
    chose. *)
Theorem server_request_ids_are_fresh (sp : ServerSpec) (tr : list event) :
  let s := fst (run (MuxState_new sp) tr) in
  let ids := requestIds (toServer (snd (run (MuxState_new sp) tr))) in
  NoDup ids
  /\ (forall id, id ∈ ids -> exists n, id = JNum n /\ 1 <= n < nextServerRequestId s).
Proof.
  destruct (run_request_ids tr (MuxState_new sp)) as (_ & Hnd & Hin). split; assumption.
Qed.

Lemma step_primary_is_first s e :
  primaryClientId s = head (clients s) ->
  match e with FromClient c _ => c ∈ clients s | _ => True end ->
  primaryClientId (fst (step s e)) = head (clients (fst (step s e))).
Proof.
  intros Hp He. destruct e as [|c|c msg|msg|u].
  - unfold step, addClient, with_clients, clients_set. cbn [fst primaryClientId clients].
    rewrite Hp. destruct (clients s) as [|c0 cs] eqn:Hc.
    + rewrite bool_decide_eq_false_2 by apply not_elem_of_nil. reflexivity.
    + now case_bool_decide.
  - unfold step, onClose, with_clients, clients_delete. cbn [fst primaryClientId clients].
    rewrite Hp. destruct (clients s) as [|c0 cs] eqn:Hc.
    + now case_bool_decide.
    + rewrite filter_cons. cbn [head]. case_bool_decide as Heq.
      * injection Heq as ->. rewrite decide_False by congruence. reflexivity.
      * rewrite decide_True by congruence. reflexivity.
  - destruct (step_keeps_clients s (FromClient c msg) I) as [Hc _].
    rewrite Hc, <- Hp.
    destruct (primaryClientId s) as [p|] eqn:Hprim.
    + handlers. cases.
    + destruct (clients s); [now apply elem_of_nil in He|discriminate].
  - destruct (step_keeps_clients s (FromServer msg) I) as [Hc _].
    rewrite Hc, <- Hp. handlers. cases.
  - destruct (step_keeps_clients s (DebounceTimer u) I) as [Hc _].
    rewrite Hc, <- Hp. handlers. cases.
Qed.

Lemma run_primary_is_first tr : forall s,
  primaryClientId s = head (clients s) -> fromConnected s tr ->
  primaryClientId (fst (run s tr)) = head (clients (fst (run s tr))).
Proof.
  induction tr as [|e tr IH]; intros s Hp Htr; [assumption|].
  rewrite run_cons. cbn [fst]. destruct Htr as [He Htr].
  apply IH; [|assumption]. now apply step_primary_is_first.
Qed.

(** X17 ([addClient], [handleInitialize] and the close handler): when
    every message comes from a connected client, the primary client, if
    there is one, is the connected client that connected first. *)
Theorem primary_is_longest_connected (sp : ServerSpec) (tr : list event) :
  fromConnected (MuxState_new sp) tr ->
  let s := fst (run (MuxState_new sp) tr) in
  primaryClientId s = head (clients s).
Proof. intros Htr. now apply run_primary_is_first. Qed.

Lemma primary_is_longest_connected_witness :
  let init := [("jsonrpc", JStr "2.0"); ("id", JNum 1); ("method", JStr "initialize");
               ("params", JObj [("capabilities", JObj [])])] in
  let tr := [Accept; Accept; Accept; FromClient 2 init; Close 1] in
  let s := fst (run (MuxState_new oxlintSpec) tr) in
  clients s = [2; 3] /\ primaryClientId s = Some 2.
Proof.
  intros init tr s.
  assert (Hfirst : primaryClientId s = head (clients s)).
  { apply (primary_is_longest_connected oxlintSpec tr).
    vm_compute. repeat split; repeat constructor. }
  assert (Hclients : clients s = [2; 3]) by (vm_compute; reflexivity).
  split; [exact Hclients|]. now rewrite Hfirst, Hclients.
Defined.

Lemma schedule_idle h u b :
  bridgeIdle b -> bridgeIdle (DiagnosticsBridge.schedule h u b).
Proof.
  intros (Hi & Hd & Hf). unfold DiagnosticsBridge.schedule.
  destruct (negb h); [now split|]. rewrite Hi. simpl. now split.
Qed.

Lemma onFileEvent_idle h m u b :
  bridgeIdle b -> bridgeIdle (DiagnosticsBridge.onFileEvent h m u b).
Proof.
  intros Hb. unfold DiagnosticsBridge.onFileEvent.
  match goal with |- context [if ?c then _ else _] => destruct c end;
    [assumption|now apply schedule_idle].
Qed.

Lemma onDidClose_idle u b :
  bridgeIdle b -> bridgeIdle (DiagnosticsBridge.onDidClose u b).
Proof.
  intros (Hi & Hd & Hf). unfold bridgeIdle. simpl. rewrite Hd, Hf.
  now rewrite !empty_difference_L.
Qed.

Lemma initPending_step s e :
  initPending (fst (step s e)) = true -> initPending s = true.
Proof.
  unfold initPending. destruct (init s) as [| |cached] eqn:Hi; auto.
  now rewrite (step_init_done s e cached Hi).
Qed.

Lemma step_quietBeforeInit s e :
  quietBeforeInit s -> quietBeforeInit (fst (step s e)).
Proof.
  unfold quietBeforeInit. intros Hq Hinit'.
  destruct (Hq (initPending_step s e Hinit')) as [Hpend Hidle]. clear Hq.
  destruct e as [|c|c msg|msg|u]; simpl in *; auto.
  - revert Hinit'. handlers. cases; intros; simpl in *; split; auto.
    all: intros b' Hb'; first [ congruence | now apply Hidle | idtac ].
    all: injection Hb' as <-; eauto using onDidClose_idle, onFileEvent_idle.
  - revert Hinit'. handlers. rewrite Hpend. cases; intros; simpl in *; split; auto.
    all: try (rewrite lookup_empty in *; discriminate).
  - unfold onDebounceTimer.
    destruct (diagnosticsBridge s) as [b|] eqn:Hb; [|simpl; split; [assumption|congruence]].
    destruct (Hidle b eq_refl) as (Hi & Hd & Hf).
    unfold DiagnosticsBridge.onDebounceTimer. rewrite Hd.
    rewrite bool_decide_eq_false_2 by apply not_elem_of_empty.
    simpl. split; [assumption|]. intros b' [= <-]. now split.
Qed.

Lemma run_quietBeforeInit tr : forall s,
  quietBeforeInit s -> quietBeforeInit (fst (run s tr)).
Proof.
  induction tr as [|e tr IH]; intros s Hs; [assumption|].
  rewrite run_cons. cbn [fst]. apply IH. now apply step_quietBeforeInit.
Qed.

Lemma new_quietBeforeInit sp : quietBeforeInit (MuxState_new sp).
Proof.
  intros _. split; [reflexivity|]. simpl. intros b.
  destruct (diagnostics sp) as [[[] ? ?]|]; try discriminate.
  intros [= <-]. now split.
Qed.

(** X18 ([DiagnosticsBridge.schedule] before [markInitDone]): as long
    as the server has not answered [initialize], no pull request is pending
    and the bridge has no timer and no document in flight; a debounce timer
    that fires changes nothing and writes nothing. *)
Theorem bridge_waits_for_initialization (sp : ServerSpec) (tr : list event) :
  let s := fst (run (MuxState_new sp) tr) in
  initPending s = true ->
  pendingInternalRequests s = ∅
  /\ (forall b, diagnosticsBridge s = Some b -> bridgeIdle b)
  /\ (forall u, step s (DebounceTimer u) = (s, [])).
Proof.
  intros s Hinit.
  destruct (run_quietBeforeInit tr _ (new_quietBeforeInit sp) Hinit) as [Hpend Hidle].
  split_and!; try assumption.
  intros u. simpl. unfold onDebounceTimer.
  destruct (diagnosticsBridge s) as [b|] eqn:Hb; [|reflexivity].
  destruct (Hidle b Hb) as (Hi & Hd & Hf).
  unfold DiagnosticsBridge.onDebounceTimer. rewrite Hd.
  rewrite bool_decide_eq_false_2 by apply not_elem_of_empty. simpl.
  unfold set_diagnosticsBridge. rewrite <- Hb. now destruct s.
Qed.

Lemma bridge_waits_for_initialization_witness :
  let didOpen := [("jsonrpc", JStr "2.0"); ("method", JStr "textDocument/didOpen");
                  ("params", JObj [("textDocument", JObj [("uri", JStr "file:///a.ts")])])] in
  let s := fst (run (MuxState_new tsgoSpec) [Accept; FromClient 1 didOpen]) in
  step s (DebounceTimer "file:///a.ts") = (s, []).
Proof.
  intros didOpen s.
  apply (bridge_waits_for_initialization tsgoSpec [Accept; FromClient 1 didOpen]).
  reflexivity.
Defined.









(** The response that ends the initialization is recognised by its client:
    while the state is in-progress for client [p], the response to any
    pending request of [p] ends the initialization, its [result] and
    [error] are cached, and it is sent on to [p], with only its identifier
    replaced, after the replies to the deferred initializers. *)
Lemma initialization_ends_at_response_to_initializer
    (s : MuxState) (p n : Z) (pending : PendingRequest) (msg : JsonRpcMessage) :
  init s = in_progress p ->
  responseOf msg = Some (JNum n) ->
  pendingInternalRequests s !! n = None ->
  pendingClientRequests s !! n = Some pending ->
  clientId pending = p ->
  let delivered := set_field "id" (originalId pending) msg in
  init (fst (step s (FromServer msg)))
  = init_done {| result := field "result" delivered; error := field "error" delivered |}
  /\ (p ∈ clients s ->
      toClient p (snd (step s (FromServer msg)))
      = toClient p (snd (flushQueuedInitialize
                           (set_init (init_done {| result := field "result" msg;
                                                   error := field "error" msg |}) s)))
        ++ [delivered]).
Proof.
  intros Hinit Hresp Hint Hpend Hcid delivered.
  assert (Hres : field "result" delivered = field "result" msg)
    by (apply field_set_field_ne; discriminate).
  assert (Herr : field "error" delivered = field "error" msg)
    by (apply field_set_field_ne; discriminate).
  rewrite Hres, Herr.
  unfold responseOf in Hresp.
  destruct (nonnull (field "method" msg)) eqn:Hm;
    [destruct (nonnull (field "id" msg)); discriminate|].
  destruct (nonnull (field "id" msg)) as [i|] eqn:Hi; [|discriminate].
  injection Hresp as ->.
  simpl. unfold onServerMessage. rewrite Hm, Hi.
  unfold onServerResponse. rewrite Hint, Hpend. simpl. rewrite Hinit.
  rewrite Hcid, Z.eqb_refl. unfold flushQueuedInitialize. simpl.
  split.
  - destruct (diagnosticsBridge s); reflexivity.
  - intros Hp.
    assert (Hw : forall s1, clients s1 = clients s ->
              writeToClient s1 p delivered = [ToClient p delivered]).
    { intros s1 H1. unfold writeToClient, connected. rewrite H1.
      now rewrite bool_decide_eq_true_2. }
    destruct (diagnosticsBridge s); simpl; rewrite Hw by reflexivity;
      unfold toClient; rewrite flat_map_app; simpl; now rewrite Z.eqb_refl.
Qed.

(** X21 ([handleInitialize] in the done state, [respondWithCachedInit]):
    once the initialization state is done it stays done with the same
    cached payload, whatever happens next; from then on an [initialize]
    request of a connected client, with identifier [id], is answered at
    once: the only message written is one to that client, it carries [id],
    and it carries the cached [error] when that is present and otherwise
    the cached [result]; nothing is written to the server. *)
Theorem cached_initialize_reply
    (s : MuxState) (cached : CachedInit) (tr : list event) (c : Z)
    (msg : JsonRpcMessage) (id : JsonRpcId) :
  init s = init_done cached ->
  let s' := fst (run s tr) in
  c ∈ clients s' ->
  requestOf msg = Some ("initialize", id) ->
  init s' = init_done cached
  /\ step s' (FromClient c msg)
     = (recordClientCapabilities c msg s', [ToClient c (cachedInitReply id cached)])
  /\ field "id" (cachedInitReply id cached) = Some id
  /\ (forall e, error cached = Some e -> e <> JNull ->
      cachedInitReply id cached
      = [("jsonrpc", JStr "2.0"); ("id", id); ("error", e)])
  /\ (nullish (error cached) = true ->
      field "result" (cachedInitReply id cached) = result cached
      /\ field "error" (cachedInitReply id cached) = None).
Proof.
  intros Hdone s' Hc Hreq.
  assert (Hs' : init s' = init_done cached) by (apply run_init_done; exact Hdone).
  split; [exact Hs'|].
  split.
  { unfold requestOf in Hreq.
    destruct (nonnull (field "method" msg)) as [m|] eqn:Hm; [|discriminate].
    destruct (nonnull (field "id" msg)) as [i|] eqn:Hi; [|discriminate].
    injection Hreq as Hmeth ->.
    simpl. unfold onClientMessage. rewrite Hm, Hi.
    unfold onClientRequest. rewrite Hmeth. simpl.
    unfold handleInitialize.
    change (init (recordClientCapabilities c msg s')) with (init s'). rewrite Hs'.
    unfold respondWithCachedInit, writeToClient, connected.
    change (clients (recordClientCapabilities c msg s')) with (clients s').
    now rewrite bool_decide_eq_true_2. }
  split.
  { unfold cachedInitReply. destruct (nullish (error cached)); simpl;
      [destruct (result cached)|destruct (error cached)]; reflexivity. }
  split.
  { intros e He Hne. unfold cachedInitReply. rewrite He.
    destruct e; try reflexivity. congruence. }
  { intros Hnull. unfold cachedInitReply. rewrite Hnull. simpl.
    destruct (result cached); simpl; auto. }
Qed.

(** Scenario S1 of the specification: client 1 initializes, the server
    answers, client 2 initializes later with identifier 2 and is answered
    from the cache. *)
Lemma cached_initialize_reply_witness :
  let init1 := [("id", JNum 1); ("method", JStr "initialize");
                ("params", JObj [("capabilities", JObj [])])] in
  let init2 := [("id", JNum 2); ("method", JStr "initialize");
                ("params", JObj [("capabilities", JObj [])])] in
  let answer := [("id", JNum 1);
                 ("result", JObj [("capabilities", JObj []); ("initCount", JNum 1)])] in
  let s := fst (run (MuxState_new oxlintSpec) [Accept; FromClient 1 init1; FromServer answer]) in
  let s' := fst (run s [Accept]) in
  snd (step s' (FromClient 2 init2))
  = [ToClient 2 [("jsonrpc", JStr "2.0"); ("id", JNum 2);
                 ("result", JObj [("capabilities", JObj []); ("initCount", JNum 1)])]].
Proof.
  intros init1 init2 answer s s'.
  pose proof (cached_initialize_reply s
    {| result := Some (JObj [("capabilities", JObj []); ("initCount", JNum 1)]);
       error := None |} [Accept] 2 init2 (JNum 2) eq_refl) as H.
  cbv zeta in H. destruct H as (_ & H & _).
  - vm_compute. set_solver.
  - reflexivity.
  - unfold s'. rewrite H. reflexivity.
Defined.

(* ================================================================== *)
(** ** Further properties of the header parser *)
(* ================================================================== *)

Lemma split_crlf_line l rest :
  noCR l = true -> split_crlf (l ++ CR :: LF :: rest) = l :: split_crlf rest.
Proof.
  unfold noCR. induction l as [|c l IH]; intros H.
  - reflexivity.
  - simpl in H. apply andb_true_iff in H as [Hc Hl]. apply negb_true_iff in Hc.
    specialize (IH Hl). destruct l as [|d l'].
    + simpl. rewrite Hc. reflexivity.
    + change ((c :: d :: l') ++ CR :: LF :: rest)
        with (c :: d :: (l' ++ CR :: LF :: rest)).
      change ((d :: l') ++ CR :: LF :: rest) with (d :: (l' ++ CR :: LF :: rest)) in IH.
      cbn [split_crlf] in *. rewrite Hc. cbn [andb]. rewrite IH. reflexivity.
Qed.

Lemma split_crlf_first l tail :
  noCR l = true -> tail = [] \/ (exists rest, tail = CR :: LF :: rest) ->
  exists lines, split_crlf (l ++ tail) = l :: lines.
Proof.
  intros Hl [->|[rest ->]].
  - rewrite app_nil_r. exists []. now apply split_crlf_no_CR.
  - eexists. now apply split_crlf_line.
Qed.

Lemma split_colon_field k v :
  forallb (fun c => negb (Byte.eqb c ":"%byte)) k = true ->
  split_colon (k ++ ":"%byte :: v) = k :: split_colon v.
Proof.
  induction k as [|c k IH]; intros H; [reflexivity|].
  simpl in H. apply andb_true_iff in H as [Hc Hk]. apply negb_true_iff in Hc.
  simpl. rewrite Hc, (IH Hk). reflexivity.
Qed.

Lemma parseContentLength_lines_other line lines :
  toLowerCase (headerName line) <> list_byte_of_string "content-length" ->
  parseContentLength_lines (line :: lines) = parseContentLength_lines lines.
Proof.
  intros H. unfold headerName in H. cbn [parseContentLength_lines].
  destruct (split_colon line) as [|k [|v r]]; try reflexivity.
  simpl in H. destruct (negb (nonempty k) || negb (nonempty v)); [reflexivity|].
  now rewrite bool_decide_eq_false_2.
Qed.

Lemma lower_colon c : Byte.eqb (lower c) ":"%byte = false -> Byte.eqb c ":"%byte = false.
Proof. destruct c; intros H; try reflexivity; discriminate H. Qed.

Lemma name_no_colon name :
  toLowerCase name = list_byte_of_string "content-length" ->
  forallb (fun c => negb (Byte.eqb c ":"%byte)) name = true
  /\ noCR name = true /\ nonempty name = true.
Proof.
  intros H.
  assert (Hall : Forall (fun c => lower c ∈ list_byte_of_string "content-length") name).
  { apply Forall_forall. intros c Hc. rewrite <- H. unfold toLowerCase.
    now apply list_elem_of_fmap_2. }
  split_and!.
  - apply forallb_forall. intros c Hc. apply list_elem_of_In in Hc.
    rewrite Forall_forall in Hall. specialize (Hall c Hc).
    apply negb_true_iff, lower_colon.
    destruct (Byte.eqb (lower c) ":"%byte) eqn:E; [|reflexivity].
    apply byte_dec_bl in E. rewrite E in Hall. vm_compute in Hall.
    repeat (apply elem_of_cons in Hall as [Hall|Hall]; [discriminate|]).
    now apply elem_of_nil in Hall.
  - apply forallb_forall. intros c Hc. apply list_elem_of_In in Hc.
    rewrite Forall_forall in Hall. specialize (Hall c Hc).
    apply negb_true_iff. destruct (Byte.eqb c CR) eqn:E; [|reflexivity].
    apply byte_dec_bl in E. subst c. vm_compute in Hall.
    repeat (apply elem_of_cons in Hall as [Hall|Hall]; [discriminate|]).
    now apply elem_of_nil in Hall.
  - destruct name; [discriminate|reflexivity].
Qed.

Lemma trim_padded_decimal pre n :
  forallb is_space pre = true -> trim (pre ++ decimal n) = decimal n.
Proof.
  intros Hpre. pose proof (decimal_digits n) as Hd.
  pose proof (decimal_nonempty n) as Hne.
  apply trim_spaces_around; [exact Hpre| |].
  - destruct (decimal n) as [|c r]; [reflexivity|].
    simpl in Hd. apply andb_true_iff in Hd as [Hc _]. now apply digit_facts.
  - destruct (rev (decimal n)) as [|c r] eqn:E.
    { apply (f_equal (@rev byte)) in E. rewrite rev_involutive in E.
      rewrite E in Hne. discriminate. }
    exists c, r. split; [reflexivity|].
    apply digit_facts. rewrite forallb_forall in Hd. apply Hd, in_rev.
    rewrite E. now left.
Qed.

Lemma parseContentLength_lines_named name pad n lines :
  toLowerCase name = list_byte_of_string "content-length" ->
  Z.of_nat n <= 2 ^ 53 ->
  parseContentLength_lines
    ((name ++ ":"%byte :: repeat " "%byte pad ++ decimal n) :: lines)
  = Length (Z.of_nat n).
Proof.
  intros Hname Hn. destruct (name_no_colon name Hname) as (Hcolon & _ & Hne).
  pose proof (decimal_digits n) as Hd.
  assert (Hspaces : forallb is_space (repeat " "%byte pad) = true).
  { induction pad; simpl; auto. }
  cbn [parseContentLength_lines]. rewrite (split_colon_field _ _ Hcolon).
  rewrite split_colon_no_colon.
  2:{ rewrite forallb_app. apply andb_true_iff. split.
      - induction pad; simpl; auto.
      - apply (forallb_digit_impl _ _ digit_not_colon), Hd. }
  rewrite Hne. cbn [negb orb].
  assert (Hv : nonempty (repeat " "%byte pad ++ decimal n) = true).
  { pose proof (decimal_nonempty n) as H. destruct pad; simpl; [assumption|reflexivity]. }
  rewrite Hv. cbn [negb]. rewrite bool_decide_eq_true_2 by assumption.
  rewrite (trim_padded_decimal _ n Hspaces), (Number_decimal n Hn). reflexivity.
Qed.

(** X20 ([parseContentLength]): in a header block whose other lines are
    not named [Content-Length], the line named [Content-Length] in any
    case, with any number of spaces after the colon and a decimal value of
    at most 2^53, gives that value, wherever the line stands. *)
Theorem parseContentLength_among_fields
    (before : list (list byte)) (name : list byte) (pad n : nat) (tail : list byte) :
  Forall otherField before ->
  toLowerCase name = list_byte_of_string "content-length" ->
  Z.of_nat n <= 2 ^ 53 ->
  tail = [] \/ (exists rest, tail = CR :: LF :: rest) ->
  parseContentLength
    (flat_map (fun line => line ++ [CR; LF]) before
       ++ (name ++ ":"%byte :: repeat " "%byte pad ++ decimal n) ++ tail)
  = Length (Z.of_nat n).
Proof.
  intros Hbefore Hname Hn Htail. unfold parseContentLength.
  induction Hbefore as [|line before [Hcr Hother] _ IH].
  - simpl flat_map. cbn [app].
    destruct (split_crlf_first (name ++ ":"%byte :: repeat " "%byte pad ++ decimal n)
                tail) as [lines ->]; [|assumption|].
    + destruct (name_no_colon name Hname) as (_ & Hcr & _).
      unfold noCR in *. rewrite forallb_app. apply andb_true_iff. split; [assumption|].
      simpl. rewrite forallb_app. apply andb_true_iff. split.
      * induction pad; simpl; auto.
      * apply (forallb_digit_impl _ _ digit_not_CR), decimal_digits.
    + now apply parseContentLength_lines_named.
  - cbn [flat_map].
    rewrite <- (app_assoc (line ++ [CR; LF])), <- (app_assoc line).
    change ([CR; LF] ++ ?x) with (CR :: LF :: x).
    rewrite (split_crlf_line _ _ Hcr).
    rewrite (parseContentLength_lines_other _ _ Hother). exact IH.
Qed.

Lemma parseContentLength_among_fields_witness :
  parseContentLength
    (list_byte_of_string "Content-Type: application/vscode-jsonrpc; charset=utf-8"
       ++ [CR; LF] ++ list_byte_of_string "content-length:  12")
  = Length 12.
Proof.
  apply (parseContentLength_among_fields
           [list_byte_of_string "Content-Type: application/vscode-jsonrpc; charset=utf-8"]
           (list_byte_of_string "content-length") 2 12 []).
  - repeat constructor. vm_compute. congruence.
  - reflexivity.
  - vm_compute. discriminate.
  - now left.
Defined.
